(** * Ayrton / Online3DViewer: scene model, physical groups and export encoders

    A shallow embedding of the JavaScript sources
      - [source/engine/model/property.js]   (class [PhysicalGroup]),
      - [source/engine/model/model.js]      (class [Model]),
      - [source/engine/export/exporterstl.js]  (class [ExporterStl]),
      - [source/engine/export/exportergltf.js] (class [ExporterGltf]),
      - [source/engine/export/exporteriges.js] (class [ExporterIges]),
      - [source/website/exportdialog.js] and [source/website/website.js],
    followed by the properties of the export pipeline proved about it.

    Conventions.  A JavaScript [Map] is a [gmap], a [Set] is a [gset], an
    array is a [list]; array indices and counters are [nat]; values written
    to a [DataView] are [Z] with the wrap-around of the field written out;
    an [ArrayBuffer] is a [list byte].  Code that can throw returns a
    [result]. *)

From Stdlib Require Import ZArith List String Ascii Lia Bool.
From Stdlib Require Strings.Byte.
From coqutil Require Import Byte Word.LittleEndianList.
From stdpp Require Import base option gmap sets list strings pretty.

Import LittleEndianList.

Local Open Scope string_scope.
Local Open Scope list_scope.

(* ================================================================== *)
(** ** Exceptions *)

(** The two exceptions the embedded code can raise: a [TypeError] when a
    property of [undefined] is read (a dangling mesh or vertex index), a
    [RangeError] when a [DataView] or typed array is written past its end. *)
Inductive JsError := TypeError | RangeError.

Inductive result (A : Type) : Type :=
| Ok (a : A)
| Throw (e : JsError).
Arguments Ok {A} a.
Arguments Throw {A} e.

#[export] Instance result_bind : MBind result := fun A B k r =>
  match r with
  | Ok a => k a
  | Throw e => Throw e
  end.

#[export] Instance result_ret : MRet result := fun A a => Ok a.

(** A loop [for (x of xs) { s = body (s, x); }] whose body can throw. *)
Fixpoint forEach {A S : Type} (body : S -> A -> result S) (xs : list A) (s : S)
  : result S :=
  match xs with
  | [] => Ok s
  | x :: xs' => s' ← body s x; forEach body xs' s'
  end.

(* ================================================================== *)
(** ** Strings *)

(** A JavaScript string is a [string] with one [ascii] per UTF-16 code
    unit, which covers the code units below 256 and no others.  On these
    [Utf8StringToArrayBuffer] (io/bufferutils.js, a [TextEncoder]) writes
    one byte for a code unit below 128 and two bytes otherwise.  Text with
    a code unit from 256 on, for which a [TextEncoder] writes two to three
    bytes per code unit, is outside the embedding, and no statement below
    bounds the length of an encoding from above. *)
Definition utf8_of_ascii (c : ascii) : list byte :=
  let n := Z.of_N (N_of_ascii c) in
  if (n <? 128)%Z then [byte.of_Z n]
  else [byte.of_Z (Z.lor 192 (Z.shiftr n 6)); byte.of_Z (Z.lor 128 (Z.land n 63))].

Definition Utf8StringToArrayBuffer (s : string) : list byte :=
  flat_map utf8_of_ascii (list_ascii_of_string s).

(** The line feed and the double quote as one-character strings. *)
Definition LF : string := String (ascii_of_nat 10) EmptyString.
Definition quote : string := String (ascii_of_nat 34) EmptyString.

(** [c] matches [/[a-z0-9]/i]. *)
Definition is_alnum (c : ascii) : bool :=
  let n := nat_of_ascii c in
  (((48 <=? n) && (n <=? 57)) || ((65 <=? n) && (n <=? 90))
   || ((97 <=? n) && (n <=? 122)))%nat.

(** [String.prototype.toLowerCase] on one code unit below 256. *)
Definition toLowerCase_ascii (c : ascii) : ascii :=
  let n := nat_of_ascii c in
  if (((65 <=? n) && (n <=? 90))
      || ((192 <=? n) && (n <=? 222) && negb (n =? 215)))%nat
  then ascii_of_nat (n + 32) else c.

Fixpoint string_map (f : ascii -> ascii) (s : string) : string :=
  match s with
  | EmptyString => EmptyString
  | String c s' => String (f c) (string_map f s')
  end.

(** [groupName.replace (/[^a-z0-9]/gi, '_').toLowerCase ()] *)
Definition sanitizeName (groupName : string) : string :=
  string_map toLowerCase_ascii
    (string_map (fun c => if is_alnum c then c else "_"%char) groupName).

(* ================================================================== *)
(** ** Mesh instance identity (model/meshinstance.js) *)

(** Modelled from the spec: [MeshInstanceId] (model/meshinstance.js) is not
    among the sources.  A mesh instance key is the pair of the owning
    node's identity and the mesh index the node holds; [GetKey] renders
    it as the text [nodeId:meshIndex], which is injective on pairs, so the
    pair itself serves as the key. *)
Record MeshInstanceId := { nodeId : nat; meshIndex : nat }.

Definition MeshKey : Type := (nat * nat)%type.

Definition GetKey (id : MeshInstanceId) : MeshKey := (nodeId id, meshIndex id).

(* ================================================================== *)
(** ** Physical groups (model/property.js) *)

Module PhysicalGroup.

Record t := {
  name : string;
  meshes : gset (nat * nat);               (* Set of mesh keys *)
  meshFaces : gmap (nat * nat) (list Z);   (* mesh key -> face indices *)
  color : option (Z * Z * Z)
}.

(** [new PhysicalGroup (name)] *)
Definition new (name : string) : t :=
  {| name := name; meshes := ∅; meshFaces := ∅; color := None |}.

Definition GetName (g : t) : string := name g.

Definition SetName (g : t) (n : string) : t :=
  {| name := n; meshes := meshes g; meshFaces := meshFaces g; color := color g |}.

Definition SetColor (g : t) (c : option (Z * Z * Z)) : t :=
  {| name := name g; meshes := meshes g; meshFaces := meshFaces g; color := c |}.

Definition GetColor (g : t) : option (Z * Z * Z) := color g.

(** The face array is created when the key has none. *)
Definition initFaces (meshKey : nat * nat) (mf : gmap (nat * nat) (list Z))
  : gmap (nat * nat) (list Z) :=
  match mf !! meshKey with
  | Some _ => mf
  | None => <[meshKey := []]> mf
  end.

Definition AddMesh (g : t) (meshInstanceId : MeshInstanceId) : t :=
  let meshKey := GetKey meshInstanceId in
  {| name := name g;
     meshes := {[meshKey]} ∪ meshes g;
     meshFaces := initFaces meshKey (meshFaces g);
     color := color g |}.

(** [faceIndices.includes (faceIndex)] *)
Definition includes (faceIndices : list Z) (faceIndex : Z) : bool :=
  existsb (Z.eqb faceIndex) faceIndices.

(** [meshInstanceId] is [None] when the argument is not an id object,
    [faceIndex] is [None] when it is [undefined]. *)
Definition AddMeshWithIndex (g : t) (meshInstanceId : option MeshInstanceId)
           (faceIndex : option Z) : t :=
  match meshInstanceId with
  | None => g
  | Some id =>
      let meshKey := GetKey id in
      let mf := initFaces meshKey (meshFaces g) in
      let faceIndices := default [] (mf !! meshKey) in
      let mf' :=
        match faceIndex with
        | Some f =>
            if negb (includes faceIndices f)
            then <[meshKey := faceIndices ++ [f]]> mf
            else mf
        | None => mf
        end in
      {| name := name g;
         meshes := {[meshKey]} ∪ meshes g;
         meshFaces := mf';
         color := color g |}
  end.

Definition RemoveMesh (g : t) (meshInstanceId : MeshInstanceId) : t :=
  let meshKey := GetKey meshInstanceId in
  {| name := name g;
     meshes := meshes g ∖ {[meshKey]};
     meshFaces := delete meshKey (meshFaces g);
     color := color g |}.

Definition ContainsMesh (g : t) (meshInstanceId : option MeshInstanceId) : bool :=
  match meshInstanceId with
  | None => false
  | Some id => bool_decide (GetKey id ∈ meshes g)
  end.

Definition GetMeshes (g : t) : gset (nat * nat) := meshes g.

(** [this.meshFaces.get (meshKey) || []] *)
Definition GetMeshFaceIndices (g : t) (meshInstanceId : option MeshInstanceId)
  : list Z :=
  match meshInstanceId with
  | None => []
  | Some id => default [] (meshFaces g !! GetKey id)
  end.

Definition MeshCount (g : t) : nat := size (meshes g).

Definition TotalFaceCount (g : t) : nat :=
  map_fold (fun _ faceArray count => count + length faceArray) 0 (meshFaces g).

Definition Clear (g : t) : t :=
  {| name := name g; meshes := ∅; meshFaces := ∅; color := color g |}.

(** The group holds triangle [face] of the instance under [meshKey]: the
    key is in the group and its face list is empty, which stands for the
    whole instance, or lists the index. *)
Definition holdsFace (g : t) (meshKey : nat * nat) (face : nat) : bool :=
  bool_decide (meshKey ∈ meshes g)
  && match default [] (meshFaces g !! meshKey) with
     | [] => true
     | faceIndices => bool_decide (Z.of_nat face ∈ faceIndices)
     end.

(** The states reachable through the class's own operations. *)
Inductive reachable : t -> Prop :=
| reach_new n : reachable (new n)
| reach_SetName g n : reachable g -> reachable (SetName g n)
| reach_SetColor g c : reachable g -> reachable (SetColor g c)
| reach_AddMesh g id : reachable g -> reachable (AddMesh g id)
| reach_AddMeshWithIndex g id f :
    reachable g -> reachable (AddMeshWithIndex g id f)
| reach_RemoveMesh g id : reachable g -> reachable (RemoveMesh g id)
| reach_Clear g : reachable g -> reachable (Clear g).

(** The membership set and the face map have the same keys. *)
Definition keys_agree (g : t) : Prop := meshes g = dom (meshFaces g).

(** No stored face list holds an index twice. *)
Definition faces_NoDup (g : t) : Prop :=
  forall k l, meshFaces g !! k = Some l -> NoDup l.

End PhysicalGroup.

(* ================================================================== *)
(** ** Numbers and geometry *)

Module Coord3D.
Record t (number : Type) := mk { x : number; y : number; z : number }.
Arguments mk {number} x y z.
Arguments x {number} _.
Arguments y {number} _.
Arguments z {number} _.
End Coord3D.

(** The floating-point side of the engine is kept abstract: the type of
    JavaScript numbers used as coordinates, the bit pattern that
    [DataView.setFloat32] stores for a number, the text [Array.join] prints
    for it, and the operations of geometry/transformation.js and
    geometry/geometry.js. *)
Class Geometry := {
  number : Type;
  number_of_Z : Z -> number;
  setFloat32 : number -> Z;
  number_toString : number -> string;
  Transformation : Type;
  Identity : Transformation;
  IsIdentity : Transformation -> bool;
  Append : Transformation -> Transformation -> Transformation;
  TransformCoord3D : Transformation -> Coord3D.t number -> Coord3D.t number;
  CalculateTriangleNormal :
    Coord3D.t number -> Coord3D.t number -> Coord3D.t number -> Coord3D.t number
}.

(* ================================================================== *)
(** ** Meshes (model/mesh.js, model/triangle.js) *)

Module Triangle.
Record t := mk {
  v0 : nat; v1 : nat; v2 : nat;
  n0 : nat; n1 : nat; n2 : nat;
  mat : nat;
  curve : nat
}.
End Triangle.

Module Mesh.
Section WithGeometry.
Context `{Geometry}.

(** Modelled from the spec: [Mesh] (model/mesh.js) is not among the
    sources.  A mesh is an ordered sequence of vertex positions, optional
    parallel sequences of normals and texture coordinates, and an ordered
    sequence of triangles holding vertex indices, normal indices, a
    material index and a curve tag. *)
Record t := mk {
  name : string;
  vertices : list (Coord3D.t number);
  normals : list (Coord3D.t number);
  uvs : list (number * number);
  triangles : list Triangle.t
}.

Definition new : t :=
  {| name := EmptyString; vertices := []; normals := []; uvs := []; triangles := [] |}.

Definition VertexCount (m : t) : nat := length (vertices m).
Definition NormalCount (m : t) : nat := length (normals m).
Definition TextureUVCount (m : t) : nat := length (uvs m).
Definition TriangleCount (m : t) : nat := length (triangles m).

Definition GetVertex (m : t) (i : nat) : option (Coord3D.t number) := vertices m !! i.
Definition GetTriangle (m : t) (i : nat) : option Triangle.t := triangles m !! i.

Definition AddVertex (m : t) (v : Coord3D.t number) : t :=
  {| name := name m; vertices := vertices m ++ [v]; normals := normals m;
     uvs := uvs m; triangles := triangles m |}.

Definition AddNormal (m : t) (n : Coord3D.t number) : t :=
  {| name := name m; vertices := vertices m; normals := normals m ++ [n];
     uvs := uvs m; triangles := triangles m |}.

Definition AddTextureUV (m : t) (uv : number * number) : t :=
  {| name := name m; vertices := vertices m; normals := normals m;
     uvs := uvs m ++ [uv]; triangles := triangles m |}.

Definition AddTriangle (m : t) (tr : Triangle.t) : t :=
  {| name := name m; vertices := vertices m; normals := normals m;
     uvs := uvs m; triangles := triangles m ++ [tr] |}.

(** Every vertex index of every triangle addresses a vertex. *)
Definition wellFormed (m : t) : bool :=
  forallb (fun tr => (Triangle.v0 tr <? length (vertices m))%nat
                     && (Triangle.v1 tr <? length (vertices m))%nat
                     && (Triangle.v2 tr <? length (vertices m))%nat) (triangles m).

End WithGeometry.
End Mesh.

(* ================================================================== *)
(** ** Scene nodes (model/node.js) *)

Module Node.
Section WithGeometry.
Context `{Geometry}.

(** Modelled from the spec: [Node] (model/node.js) is not among the
    sources.  A node has an identity, a name, a local transformation, an
    ordered list of owned child nodes and an ordered list of mesh indices
    into the model's mesh list. *)
#[local] Unset Elimination Schemes.
Inductive t := mk {
  id : nat;
  name : string;
  transformation : Transformation;
  childNodes : list t;
  meshIndices : list nat
}.
#[local] Set Elimination Schemes.

(** [node.Enumerate (processor)]: the node itself, then its children in
    order, each paired with the transformations of its ancestors, nearest
    first. *)
Fixpoint EnumerateFrom (ancestors : list Transformation) (n : t)
  : list (t * list Transformation) :=
  match n with
  | mk _ _ tr children _ =>
      (n, ancestors) :: flat_map (EnumerateFrom (tr :: ancestors)) children
  end.

Definition Enumerate (n : t) : list (t * list Transformation) :=
  EnumerateFrom [] n.

(** [node.GetWorldTransformation ()]: the local transformation with the
    ancestors' transformations appended, nearest first. *)
Definition GetWorldTransformation (n : t) (ancestors : list Transformation)
  : Transformation :=
  fold_left Append ancestors (transformation n).

(** Applies [f] to the mesh index list of every node of the tree. *)
Fixpoint updateMeshIndices (f : list nat -> list nat) (n : t) : t :=
  match n with
  | mk i nm tr children indices =>
      mk i nm tr (map (updateMeshIndices f) children) (f indices)
  end.

Definition MeshIndexCount (n : t) : nat := length (meshIndices n).

End WithGeometry.
End Node.

Module Material.
Record t := mk { name : string; type : string }.
End Material.

(* ================================================================== *)
(** ** Mesh instances (model/meshinstance.js) *)

Module MeshInstance.
Section WithGeometry.
Context `{Geometry}.

(** [mesh] is [None] when the node's mesh index is out of the model's
    mesh list ([GetMesh] returns [undefined]). *)
Record t := mk {
  id : MeshInstanceId;
  node : Node.t;
  worldTransformation : Transformation;
  mesh : option Mesh.t
}.

Definition GetId (mi : t) : MeshInstanceId := id mi.
Definition GetTransformation (mi : t) : Transformation := worldTransformation mi.

Definition GetMesh (mi : t) : result Mesh.t :=
  match mesh mi with Some m => Ok m | None => Throw TypeError end.

Definition TriangleCount (mi : t) : result nat :=
  m ← GetMesh mi; Ok (Mesh.TriangleCount m).

End WithGeometry.
End MeshInstance.

(* ================================================================== *)
(** ** The model (model/model.js) *)

Module Model.
Section WithGeometry.
Context `{Geometry}.

(** [idGenerator] is the counter of the root node's id generator, shared
    by every node of the tree: the identity the next added node gets. *)
Record t := mk {
  root : Node.t;
  idGenerator : nat;
  materials : list Material.t;
  meshes : list Mesh.t;
  physicalGroups : list PhysicalGroup.t
}.

(** [new Model ()]: the root node has identity 0. *)
Definition new : t :=
  {| root := Node.mk 0 EmptyString Identity [] [];
     idGenerator := 1;
     materials := [];
     meshes := [];
     physicalGroups := [] |}.

Definition GetRootNode (m : t) : Node.t := root m.
Definition MaterialCount (m : t) : nat := length (materials m).
Definition MeshCount (m : t) : nat := length (meshes m).
Definition GetMaterial (m : t) (index : nat) : option Material.t := materials m !! index.
Definition GetMesh (m : t) (index : nat) : option Mesh.t := meshes m !! index.

Definition NodeCount (m : t) : nat := length (Node.Enumerate (root m)) - 1.

Definition MeshInstanceCount (m : t) : nat :=
  fold_left (fun count n => count + Node.MeshIndexCount (fst n))
            (Node.Enumerate (root m)) 0.

(** [AddMaterial] and [AddMesh] return the new model and the new index. *)
Definition AddMaterial (m : t) (material : Material.t) : t * nat :=
  ({| root := root m; idGenerator := idGenerator m;
      materials := materials m ++ [material];
      meshes := meshes m; physicalGroups := physicalGroups m |},
   length (materials m)).

Definition AddMesh (m : t) (mesh : Mesh.t) : t * nat :=
  ({| root := root m; idGenerator := idGenerator m; materials := materials m;
      meshes := meshes m ++ [mesh]; physicalGroups := physicalGroups m |},
   length (meshes m)).

(** [rootNode.AddChildNode (node)] for a fresh node with the given name,
    transformation and mesh indices: the node receives the next identity
    of the tree's generator and is appended to the root's children. *)
Definition AddChildNodeToRoot (m : t) (nodeName : string) (tr : Transformation)
           (indices : list nat) : t :=
  let r := root m in
  {| root := Node.mk (Node.id r) (Node.name r) (Node.transformation r)
               (Node.childNodes r ++ [Node.mk (idGenerator m) nodeName tr [] indices])
               (Node.meshIndices r);
     idGenerator := S (idGenerator m);
     materials := materials m;
     meshes := meshes m;
     physicalGroups := physicalGroups m |}.

(** [root.AddMeshIndex (meshIndex)] *)
Definition AddMeshIndexToRoot (m : t) (index : nat) : t :=
  let r := root m in
  {| root := Node.mk (Node.id r) (Node.name r) (Node.transformation r)
               (Node.childNodes r) (Node.meshIndices r ++ [index]);
     idGenerator := idGenerator m;
     materials := materials m;
     meshes := meshes m;
     physicalGroups := physicalGroups m |}.

Definition AddMeshToRootNode (m : t) (mesh : Mesh.t) : t * nat :=
  let '(m', meshIndex) := AddMesh m mesh in
  (AddMeshIndexToRoot m' meshIndex, meshIndex).

(** The loop of [RemoveMesh] over one node's [meshIndices]: an entry equal
    to [index] is spliced out, an entry above it is decremented. *)
Fixpoint removeMeshIndex (index : nat) (indices : list nat) : list nat :=
  match indices with
  | [] => []
  | i :: rest =>
      if (i =? index)%nat then removeMeshIndex index rest
      else if (index <? i)%nat then (i - 1) :: removeMeshIndex index rest
      else i :: removeMeshIndex index rest
  end.

(** [this.meshes.splice (index, 1)] and the renumbering of every node. *)
Definition RemoveMesh (m : t) (index : nat) : t :=
  {| root := Node.updateMeshIndices (removeMeshIndex index) (root m);
     idGenerator := idGenerator m;
     materials := materials m;
     meshes := delete index (meshes m);
     physicalGroups := physicalGroups m |}.

(** The mesh instances of one enumerated node. *)
Definition nodeMeshInstances (m : t) (n : Node.t * list Transformation)
  : list MeshInstance.t :=
  map (fun meshIndex =>
         MeshInstance.mk {| nodeId := Node.id (fst n); meshIndex := meshIndex |}
                         (fst n)
                         (Node.GetWorldTransformation (fst n) (snd n))
                         (GetMesh m meshIndex))
      (Node.meshIndices (fst n)).

(** [EnumerateMeshInstances]: the instances in the order the callback
    receives them. *)
Definition EnumerateMeshInstances (m : t) : list MeshInstance.t :=
  flat_map (nodeMeshInstances m) (Node.Enumerate (root m)).

(** The keys of the model's mesh instances, in enumeration order. *)
Definition MeshInstanceKeys (m : t) : list MeshKey :=
  map (fun mi => GetKey (MeshInstance.id mi)) (EnumerateMeshInstances m).

(** What [RemoveMesh (index)] does to the key of a mesh instance: the
    instances of the removed mesh disappear, the instances of a mesh
    behind it are addressed by the decremented mesh index. *)
Definition rekey (index : nat) (key : MeshKey) : option MeshKey :=
  if (snd key =? index)%nat then None
  else if (index <? snd key)%nat then Some (fst key, snd key - 1)
  else Some key.

(** Every mesh index held by a node addresses a mesh of the model. *)
Definition indicesValid (m : t) : bool :=
  forallb (fun key : MeshKey => (snd key <? MeshCount m)%nat) (MeshInstanceKeys m).

(** [GetMeshInstance]: the last enumerated node with the id wins. *)
Definition GetMeshInstance (m : t) (instanceId : MeshInstanceId)
  : option MeshInstance.t :=
  let foundNode :=
    fold_left (fun found n =>
                 if (Node.id (fst n) =? nodeId instanceId)%nat then Some n else found)
              (Node.Enumerate (root m)) None in
  match foundNode with
  | None => None
  | Some n =>
      if bool_decide (meshIndex instanceId ∈ Node.meshIndices (fst n))
      then Some (MeshInstance.mk
                   {| nodeId := Node.id (fst n); meshIndex := meshIndex instanceId |}
                   (fst n)
                   (Node.GetWorldTransformation (fst n) (snd n))
                   (GetMesh m (meshIndex instanceId)))
      else None
  end.

Definition TriangleCount (m : t) : result nat :=
  forEach (fun count mi => c ← MeshInstance.TriangleCount mi; Ok (count + c))
          (EnumerateMeshInstances m) 0.

(** *** Physical group management *)

Definition PhysicalGroupCount (m : t) : nat := length (physicalGroups m).

(** [AddPhysicalGroup]: the new model and the group that was created. *)
Definition AddPhysicalGroup (m : t) (name : string) : t * PhysicalGroup.t :=
  let group := PhysicalGroup.new name in
  ({| root := root m; idGenerator := idGenerator m; materials := materials m;
      meshes := meshes m; physicalGroups := physicalGroups m ++ [group] |},
   group).

Definition GetPhysicalGroup (m : t) (index : nat) : option PhysicalGroup.t :=
  physicalGroups m !! index.

Definition FindPhysicalGroupByName (m : t) (name : string) : option PhysicalGroup.t :=
  find (fun group => bool_decide (PhysicalGroup.GetName group = name))
       (physicalGroups m).

Definition setPhysicalGroups (m : t) (groups : list PhysicalGroup.t) : t :=
  {| root := root m; idGenerator := idGenerator m; materials := materials m;
     meshes := meshes m; physicalGroups := groups |}.

(** [index] is a JavaScript number, hence an integer of any sign. *)
Definition RemovePhysicalGroup (m : t) (index : Z) : t * bool :=
  if ((0 <=? index) && (index <? Z.of_nat (length (physicalGroups m))))%Z
  then (setPhysicalGroups m (delete (Z.to_nat index) (physicalGroups m)), true)
  else (m, false).

Fixpoint removeFirstNamed (name : string) (groups : list PhysicalGroup.t)
  : option (list PhysicalGroup.t) :=
  match groups with
  | [] => None
  | g :: rest =>
      if bool_decide (PhysicalGroup.GetName g = name) then Some rest
      else option_map (cons g) (removeFirstNamed name rest)
  end.

Definition RemovePhysicalGroupByName (m : t) (name : string) : t * bool :=
  match removeFirstNamed name (physicalGroups m) with
  | Some groups => (setPhysicalGroups m groups, true)
  | None => (m, false)
  end.

Definition GetGroupsByMeshInstanceId (m : t) (meshInstanceId : option MeshInstanceId)
  : list PhysicalGroup.t :=
  filter (fun group => PhysicalGroup.ContainsMesh group meshInstanceId = true)
         (physicalGroups m).

End WithGeometry.
End Model.

(* ================================================================== *)
(** ** Writers (io/binarywriter.js, io/textwriter.js) *)

Module BinaryWriter.

(** Modelled from the spec: [BinaryWriter] (io/binarywriter.js) is not
    among the sources.  It owns a zero-filled [ArrayBuffer] of the length
    given at construction and a write position; every write stores the
    bytes of the value at the position, little-endian when the flag is
    set, and advances the position.  A write that does not fit in the
    buffer raises a [RangeError], as [DataView] and [Uint8Array.set] do. *)
Record t := mk {
  arrayBuffer : list byte;
  position : nat;
  isLittleEndian : bool
}.

Definition new (byteLength : nat) (littleEndian : bool) : t :=
  {| arrayBuffer := replicate byteLength Byte.x00;
     position := 0;
     isLittleEndian := littleEndian |}.

Definition GetPosition (w : t) : nat := position w.
Definition GetBuffer (w : t) : list byte := arrayBuffer w.

Definition store (w : t) (bytes : list byte) : result t :=
  if (position w + length bytes <=? length (arrayBuffer w))%nat
  then Ok {| arrayBuffer := take (position w) (arrayBuffer w) ++ bytes
                            ++ drop (position w + length bytes) (arrayBuffer w);
             position := position w + length bytes;
             isLittleEndian := isLittleEndian w |}
  else Throw RangeError.

Definition ordered (w : t) (bytes : list byte) : list byte :=
  if isLittleEndian w then bytes else rev bytes.

Definition WriteArrayBuffer (w : t) (buffer : list byte) : result t :=
  store w buffer.

Definition WriteUnsignedCharacter8 (w : t) (val : Z) : result t :=
  store w (le_split 1 val).

Definition WriteUnsignedInteger16 (w : t) (val : Z) : result t :=
  store w (ordered w (le_split 2 val)).

Definition WriteUnsignedInteger32 (w : t) (val : Z) : result t :=
  store w (ordered w (le_split 4 val)).

Definition WriteFloat32 `{Geometry} (w : t) (val : number) : result t :=
  store w (ordered w (le_split 4 (setFloat32 val))).

End BinaryWriter.

Module TextWriter.

(** Modelled from the spec: [TextWriter] (io/textwriter.js) is not among
    the sources.  It accumulates text; [WriteLine] writes two spaces per
    indentation level, the line and a line feed. *)
Record t := mk { text : string; indentation : Z }.

Definition new : t := {| text := EmptyString; indentation := 0 |}.

Definition GetText (w : t) : string := text w.

Definition Indent (w : t) (diff : Z) : t :=
  {| text := text w; indentation := (indentation w + diff)%Z |}.

Definition Write (w : t) (str : string) : t :=
  {| text := text w +:+ str; indentation := indentation w |}.

Fixpoint spaces (levels : nat) : string :=
  match levels with
  | O => EmptyString
  | S n => "  " +:+ spaces n
  end.

Definition WriteIndentation (w : t) : t :=
  Write w (spaces (Z.to_nat (indentation w))).

Definition WriteLine (w : t) (str : string) : t :=
  Write (WriteIndentation w) (str +:+ LF).

(** [arr.join (' ')] *)
Fixpoint join (arr : list string) : string :=
  match arr with
  | [] => EmptyString
  | [s] => s
  | s :: rest => s +:+ " " +:+ join rest
  end.

Definition WriteArrayLine (w : t) (arr : list string) : t :=
  WriteLine w (join arr).

End TextWriter.

(* ================================================================== *)
(** ** Exported files (export/exporterbase.js) *)

Inductive FileFormat := Text | Binary.

Module ExportedFile.

Record t := mk { name : string; content : option (list byte) }.

Definition new (name : string) : t := {| name := name; content := None |}.

Definition GetName (f : t) : string := name f.

Definition SetName (f : t) (n : string) : t := {| name := n; content := content f |}.

Definition GetBufferContent (f : t) : option (list byte) := content f.

(** Empty text is replaced by one space before it is encoded. *)
Definition SetTextContent (f : t) (text : string) : t :=
  let text := if bool_decide (text = EmptyString) then " " else text in
  {| name := name f; content := Some (Utf8StringToArrayBuffer text) |}.

(** An empty buffer is replaced by a buffer holding one space. *)
Definition SetBufferContent (f : t) (buffer : list byte) : t :=
  let buffer := if (length buffer =? 0)%nat then [Byte.x20] else buffer in
  {| name := name f; content := Some buffer |}.

End ExportedFile.

(* ================================================================== *)
(** ** The export filter (export/exportermodel.js) *)

Module ExporterSettings.
Section WithGeometry.
Context `{Geometry}.

(** A property that may be absent from the settings object is an
    [option]. *)
Record t := mk {
  transformation : Transformation;
  isMeshVisible : MeshInstanceId -> bool;
  exportPhysicalGroups : option bool;
  selectedGroups : option (list Z);
  exportSelectedOnly : option bool;
  exportRemainder : option bool;
  exportSeparateFiles : option bool
}.

(** [new ExporterSettings ()] *)
Definition new : t :=
  {| transformation := Identity;
     isMeshVisible := fun _ => true;
     exportPhysicalGroups := None;
     selectedGroups := None;
     exportSelectedOnly := None;
     exportRemainder := None;
     exportSeparateFiles := None |}.

End WithGeometry.
End ExporterSettings.

Module ExporterModel.
Section WithGeometry.
Context `{Geometry}.

(** Modelled from the spec: [ExporterModel] (export/exportermodel.js) is
    not among the sources.  It is the model restricted to the mesh
    instances that pass the visibility predicate of the settings; counts
    are computed by traversal; triangles are enumerated with world-space
    vertex positions (the instance's accumulated transformation with the
    export transformation appended) and a face normal computed from
    them. *)
Record t := mk { model : Model.t; settings : ExporterSettings.t }.

Definition GetModel (em : t) : Model.t := model em.

Definition EnumerateMeshInstances (em : t) : list MeshInstance.t :=
  filter (fun mi => ExporterSettings.isMeshVisible (settings em) (MeshInstance.id mi) = true)
         (Model.EnumerateMeshInstances (model em)).

Definition MeshInstanceCount (em : t) : nat := length (EnumerateMeshInstances em).

Definition TriangleCount (em : t) : result nat :=
  forEach (fun count mi => c ← MeshInstance.TriangleCount mi; Ok (count + c))
          (EnumerateMeshInstances em) 0.

(** The transformation applied to the vertices of an instance. *)
Definition exportTransformation (em : t) (mi : MeshInstance.t) : Transformation :=
  let tr := MeshInstance.GetTransformation mi in
  if IsIdentity (ExporterSettings.transformation (settings em)) then tr
  else Append tr (ExporterSettings.transformation (settings em)).

Definition transformedVertices (tr : Transformation) (mesh : Mesh.t)
  : list (Coord3D.t number) :=
  if IsIdentity tr then Mesh.vertices mesh
  else map (TransformCoord3D tr) (Mesh.vertices mesh).

(** The corners of one triangle of a transformed mesh and its computed
    normal: reading a coordinate of a missing vertex raises a
    [TypeError]. *)
Definition resolveTriangle (vertices : list (Coord3D.t number)) (tr : Triangle.t)
  : result (Coord3D.t number * Coord3D.t number * Coord3D.t number
            * Coord3D.t number) :=
  match vertices !! Triangle.v0 tr, vertices !! Triangle.v1 tr,
        vertices !! Triangle.v2 tr with
  | Some v0, Some v1, Some v2 => Ok (v0, v1, v2, CalculateTriangleNormal v0 v1 v2)
  | _, _, _ => Throw TypeError
  end.

(** The callback applied to one triangle. *)
Definition applyCallback {S : Type}
           (onTriangle : S -> Coord3D.t number -> Coord3D.t number -> Coord3D.t number
                         -> Coord3D.t number -> result S)
           (s : S)
           (r : Coord3D.t number * Coord3D.t number * Coord3D.t number
                * Coord3D.t number) : result S :=
  let '(v0, v1, v2, normal) := r in onTriangle s v0 v1 v2 normal.

Definition onMeshTriangle {S : Type}
           (onTriangle : S -> Coord3D.t number -> Coord3D.t number -> Coord3D.t number
                         -> Coord3D.t number -> result S)
           (vertices : list (Coord3D.t number)) (s : S) (tr : Triangle.t) : result S :=
  r ← resolveTriangle vertices tr; applyCallback onTriangle s r.

(** [EnumerateTrianglesWithNormals (onTriangle)] with the state of the
    callback threaded through. *)
Definition EnumerateTrianglesWithNormals {S : Type}
           (em : t)
           (onTriangle : S -> Coord3D.t number -> Coord3D.t number -> Coord3D.t number
                         -> Coord3D.t number -> result S)
           (s : S) : result S :=
  forEach (fun s mi =>
             mesh ← MeshInstance.GetMesh mi;
             forEach (onMeshTriangle onTriangle
                        (transformedVertices (exportTransformation em mi) mesh))
                     (Mesh.triangles mesh) s)
          (EnumerateMeshInstances em) s.

(** The enumerated triangles as a list of world-space corners and
    normal, when the enumeration itself does not throw. *)
Definition instanceTriangles (em : t) (mi : MeshInstance.t)
  : result (list (Coord3D.t number * Coord3D.t number * Coord3D.t number
                  * Coord3D.t number)) :=
  mesh ← MeshInstance.GetMesh mi;
  forEach (fun acc tr =>
             r ← resolveTriangle (transformedVertices (exportTransformation em mi) mesh) tr;
             Ok (acc ++ [r]))
          (Mesh.triangles mesh) [].

Definition trianglesWithNormals (em : t)
  : result (list (Coord3D.t number * Coord3D.t number * Coord3D.t number
                  * Coord3D.t number)) :=
  forEach (fun acc mi => l ← instanceTriangles em mi; Ok (acc ++ l))
          (EnumerateMeshInstances em) [].

(** Every visible instance has its mesh and every mesh is well formed. *)
Definition wellFormed (em : t) : bool :=
  forallb (fun mi => match MeshInstance.mesh mi with
                     | Some mesh => Mesh.wellFormed mesh
                     | None => false
                     end)
          (EnumerateMeshInstances em).

End WithGeometry.
End ExporterModel.

(* ================================================================== *)
(** ** The binary triangle-soup layout *)

Module StlLayout.
Section WithGeometry.
Context `{Geometry}.

Definition coordBytes (c : Coord3D.t number) : list byte :=
  le_split 4 (setFloat32 (Coord3D.x c)) ++ le_split 4 (setFloat32 (Coord3D.y c))
  ++ le_split 4 (setFloat32 (Coord3D.z c)).

(** One 50-byte record: normal, three corners, attribute byte count 0. *)
Definition triangleRecord
           (tr : Coord3D.t number * Coord3D.t number * Coord3D.t number
                 * Coord3D.t number) : list byte :=
  let '(v0, v1, v2, normal) := tr in
  coordBytes normal ++ coordBytes v0 ++ coordBytes v1 ++ coordBytes v2 ++ le_split 2 0.

(** The file the layout prescribes for a list of triangles. *)
Definition binaryStl
           (tris : list (Coord3D.t number * Coord3D.t number * Coord3D.t number
                         * Coord3D.t number)) : list byte :=
  replicate 80 Byte.x00 ++ le_split 4 (Z.of_nat (length tris))
  ++ flat_map triangleRecord tris.

End WithGeometry.

(** [count] consecutive chunks of [size] bytes. *)
Fixpoint chunks (size count : nat) (bytes : list byte) : list (list byte) :=
  match count with
  | O => []
  | S n => take size bytes :: chunks size n (drop size bytes)
  end.

(** The triangle count field of a binary file. *)
Definition declaredTriangleCount (bytes : list byte) : Z :=
  le_combine (take 4 (drop 80 bytes)).

(** Modelled from the spec: the importer is not among the sources.  A
    binary triangle-soup file is an 80-byte header, a little-endian uint32
    triangle count and one 50-byte record per triangle; a file whose
    length is not 80 + 4 + 50 × count is rejected. *)
Definition ParseBinaryStl (bytes : list byte) : option (list (list byte)) :=
  if (length bytes <? 84)%nat then None
  else
    let count := Z.to_nat (declaredTriangleCount bytes) in
    if (length bytes =? 84 + 50 * count)%nat
    then Some (chunks 50 count (drop 84 bytes))
    else None.

End StlLayout.

(* ================================================================== *)
(** ** The STL exporter (export/exporterstl.js) *)

Module ExporterStl.
Section WithGeometry.
Context `{Geometry}.

Definition CanExport (format : FileFormat) (extension : string) : bool :=
  bool_decide (extension = "stl").

(** [for (let i = 0; i < count; i++) writer.WriteUnsignedCharacter8 (char)] *)
Fixpoint WriteCharacters (w : BinaryWriter.t) (char : Z) (count : nat)
  : result BinaryWriter.t :=
  match count with
  | O => Ok w
  | S n => w' ← BinaryWriter.WriteUnsignedCharacter8 w char; WriteCharacters w' char n
  end.

Definition WriteCoord3D (w : BinaryWriter.t) (c : Coord3D.t number)
  : result BinaryWriter.t :=
  w ← BinaryWriter.WriteFloat32 w (Coord3D.x c);
  w ← BinaryWriter.WriteFloat32 w (Coord3D.y c);
  BinaryWriter.WriteFloat32 w (Coord3D.z c).

(** The callback of [ExportBinaryForModel]: the writer and the counter of
    written triangles are its state. *)
Definition writeBinaryTriangle (s : BinaryWriter.t * nat)
           (v0 v1 v2 normal : Coord3D.t number) : result (BinaryWriter.t * nat) :=
  let '(w, writtenTriangles) := s in
  w ← WriteCoord3D w normal;
  w ← WriteCoord3D w v0;
  w ← WriteCoord3D w v1;
  w ← WriteCoord3D w v2;
  w ← BinaryWriter.WriteUnsignedInteger16 w 0;
  Ok (w, S writtenTriangles).

Definition ExportBinaryForModel (em : ExporterModel.t) (files : list ExportedFile.t)
           (fileName : string) : result (list ExportedFile.t) :=
  let stlFile := ExportedFile.new fileName in
  triangleCount ← ExporterModel.TriangleCount em;
  let triangleCount := if (triangleCount <=? 0)%nat then 0 else triangleCount in
  let headerSize := 80 in
  let fullByteLength := headerSize + 4 + triangleCount * 50 in
  let stlWriter := BinaryWriter.new fullByteLength true in
  stlWriter ← WriteCharacters stlWriter 0 headerSize;
  stlWriter ← BinaryWriter.WriteUnsignedInteger32 stlWriter (Z.of_nat triangleCount);
  s ← ExporterModel.EnumerateTrianglesWithNormals em writeBinaryTriangle (stlWriter, 0);
  let buffer := BinaryWriter.GetBuffer (fst s) in
  Ok (files ++ [ExportedFile.SetBufferContent stlFile buffer]).

Definition coordLine (keyword : list string) (c : Coord3D.t number) : list string :=
  keyword ++ [number_toString (Coord3D.x c); number_toString (Coord3D.y c);
              number_toString (Coord3D.z c)].

(** The callback of [ExportTextForModel]. *)
Definition writeTextTriangle (s : TextWriter.t * nat)
           (v0 v1 v2 normal : Coord3D.t number) : result (TextWriter.t * nat) :=
  let '(w, triangleCount) := s in
  let w := TextWriter.WriteArrayLine w (coordLine ["facet"; "normal"] normal) in
  let w := TextWriter.Indent w 1 in
  let w := TextWriter.WriteLine w "outer loop" in
  let w := TextWriter.Indent w 1 in
  let w := TextWriter.WriteArrayLine w (coordLine ["vertex"] v0) in
  let w := TextWriter.WriteArrayLine w (coordLine ["vertex"] v1) in
  let w := TextWriter.WriteArrayLine w (coordLine ["vertex"] v2) in
  let w := TextWriter.Indent w (-1) in
  let w := TextWriter.WriteLine w "endloop" in
  let w := TextWriter.Indent w (-1) in
  let w := TextWriter.WriteLine w "endfacet" in
  Ok (w, S triangleCount).

Definition ExportTextForModel (em : ExporterModel.t) (files : list ExportedFile.t)
           (fileName modelName : string) : result (list ExportedFile.t) :=
  let stlFile := ExportedFile.new fileName in
  let stlWriter := TextWriter.WriteLine TextWriter.new ("solid " +:+ modelName) in
  _ ← ExporterModel.TriangleCount em;
  s ← ExporterModel.EnumerateTrianglesWithNormals em writeTextTriangle (stlWriter, 0);
  let stlWriter := TextWriter.WriteLine (fst s) ("endsolid " +:+ modelName) in
  let textContent := TextWriter.GetText stlWriter in
  Ok (files ++ [ExportedFile.SetTextContent stlFile textContent]).

Definition ExportText (em : ExporterModel.t) (files : list ExportedFile.t)
  : result (list ExportedFile.t) :=
  ExportTextForModel em files "model.stl" "Model".

Definition ExportBinary (em : ExporterModel.t) (files : list ExportedFile.t)
  : result (list ExportedFile.t) :=
  ExportBinaryForModel em files "model.stl".

Definition truthy (b : option bool) : bool := default false b.

(** *** The hand-over to the conversion server *)

(** The body of the request sent to the conversion server: the flat
    coordinate array of the distinct vertices, the flat array of the
    vertex positions of the triangles, the groups by name with the keys
    of their instances ([Array.from (group.GetMeshes ())]), and
    [settings.selectedGroups].  The face lists of the groups are not
    part of it. *)
Record StlRequest := {
  requestVertices : list number;
  requestTriangles : list nat;
  requestGroups : list (string * gset (nat * nat));
  requestSelectedGroups : list Z
}.

(** The vertices collected so far: [vertexMap], [vertices] and
    [vertexIndex]. *)
Record VertexTable := {
  vertexMap : gmap string nat;
  tableVertices : list number;
  vertexIndex : nat
}.

(** The key of a vertex in [vertexMap]: its coordinates as text,
    separated by commas. *)
Definition vertexKey (vertex : Coord3D.t number) : string :=
  number_toString (Coord3D.x vertex) +:+ "," +:+ number_toString (Coord3D.y vertex)
  +:+ "," +:+ number_toString (Coord3D.z vertex).

Definition addVertex (table : VertexTable) (vertex : Coord3D.t number)
  : VertexTable * nat :=
  let key := vertexKey vertex in
  match vertexMap table !! key with
  | Some index => (table, index)
  | None =>
      ({| vertexMap := <[key := vertexIndex table]> (vertexMap table);
          tableVertices := tableVertices table
                           ++ [Coord3D.x vertex; Coord3D.y vertex; Coord3D.z vertex];
          vertexIndex := S (vertexIndex table) |},
       vertexIndex table)
  end.

(** Modelled from the spec: [MeshInstance.EnumerateTriangleVertices]
    (model/meshinstance.js) is not among the sources.  It visits the
    triangles of the instance with their world-space vertex positions;
    reading a coordinate of a missing vertex raises a [TypeError]. *)
Definition instanceTriangleVertices (meshInstance : MeshInstance.t)
  : result (list (Coord3D.t number * Coord3D.t number * Coord3D.t number)) :=
  mesh ← MeshInstance.GetMesh meshInstance;
  let vertices :=
    ExporterModel.transformedVertices (MeshInstance.GetTransformation meshInstance) mesh in
  forEach (fun corners tr =>
             match vertices !! Triangle.v0 tr, vertices !! Triangle.v1 tr,
                   vertices !! Triangle.v2 tr with
             | Some v0, Some v1, Some v2 => Ok (corners ++ [(v0, v1, v2)])
             | _, _, _ => Throw TypeError
             end)
          (Mesh.triangles mesh) [].

(** The callback of the enumeration: the three corners are added to the
    vertex table and their indices are pushed to [triangles]. *)
Definition onTriangleVertices (state : VertexTable * list nat)
           (corners : Coord3D.t number * Coord3D.t number * Coord3D.t number)
  : VertexTable * list nat :=
  let '(v0, v1, v2) := corners in
  let r0 := addVertex (fst state) v0 in
  let r1 := addVertex (fst r0) v1 in
  let r2 := addVertex (fst r1) v2 in
  (fst r2, snd state ++ [snd r0; snd r1; snd r2]).

(** [model.EnumerateTriangleVertices] with this callback, from the empty
    table. *)
Definition collectGeometry (model : Model.t) : result (VertexTable * list nat) :=
  forEach (fun state meshInstance =>
             corners ← instanceTriangleVertices meshInstance;
             Ok (fold_left onTriangleVertices corners state))
          (Model.EnumerateMeshInstances model)
          ({| vertexMap := ∅; tableVertices := []; vertexIndex := 0 |}, []).

(** The answer of the server: the converted file, or a failure with its
    message (a response that is not ok, or a request that failed). *)
Inductive ServerReply :=
| ReplyBlob (blob : list byte)
| ReplyError (message : string).

(** The state when [onFinish] runs after the answer: the file the
    browser saved directly, if any, and the files of the pipeline. *)
Record Completion := {
  downloaded : option (string * list byte);
  completedFiles : list ExportedFile.t
}.

(** What [ExportContent] hands to [onFinish].  [Finished]: the files,
    when the export ran in place.  [PreparationFailed]: building the
    request raised an exception that was caught; the files are given as
    a function of the message of the exception.  [ServerExport]: the
    request was sent; [onFinish] runs when the server has answered, with
    the completion given as a function of the answer. *)
Inductive ExportOutcome :=
| Finished (files : list ExportedFile.t)
| PreparationFailed (onFinish : string -> list ExportedFile.t)
| ServerExport (request : StlRequest) (onFinish : ServerReply -> Completion).

(** [ExportPhysicalGroupsWithFreeCAD]: the request is built from the
    whole model, whatever the visibility predicate and the format are,
    and posted to the conversion server.  When the server delivers a
    file, the browser saves it as [model.stl] and a file of that name
    with a placeholder text is pushed; a failed request or an answer
    that is not ok pushes [error.txt] with the message.  The mesh keys
    of a group are sent in the order of its set, which the request of
    the embedding does not fix. *)
Definition ExportPhysicalGroupsWithFreeCAD (em : ExporterModel.t) (format : FileFormat)
           (files : list ExportedFile.t) : ExportOutcome :=
  let model := ExporterModel.GetModel em in
  let settings := ExporterModel.settings em in
  let selectedGroups := default [] (ExporterSettings.selectedGroups settings) in
  match collectGeometry model with
  | Ok (table, triangles) =>
      let physicalGroups :=
        map (fun group => (PhysicalGroup.GetName group, PhysicalGroup.GetMeshes group))
            (Model.physicalGroups model) in
      ServerExport
        {| requestVertices := tableVertices table;
           requestTriangles := triangles;
           requestGroups := physicalGroups;
           requestSelectedGroups := selectedGroups |}
        (fun reply =>
           match reply with
           | ReplyBlob blob =>
               {| downloaded := Some ("model.stl", blob);
                  completedFiles :=
                    files ++ [ExportedFile.SetTextContent
                                (ExportedFile.new "model.stl")
                                ("solid Downloaded" +:+ LF +:+ "endsolid Downloaded")] |}
           | ReplyError message =>
               {| downloaded := None;
                  completedFiles :=
                    files ++ [ExportedFile.SetTextContent
                                (ExportedFile.new "error.txt")
                                ("Export failed: " +:+ message)] |}
           end)
  | Throw _ =>
      PreparationFailed
        (fun message =>
           files ++ [ExportedFile.SetTextContent
                       (ExportedFile.new "error.txt")
                       ("Export preparation failed: " +:+ message)])
  end.

Definition ExportContent (em : ExporterModel.t) (format : FileFormat)
           (files : list ExportedFile.t) : result ExportOutcome :=
  let settings := ExporterModel.settings em in
  let exportPhysicalGroups := truthy (ExporterSettings.exportPhysicalGroups settings) in
  let model := ExporterModel.GetModel em in
  let hasPhysicalGroups := (0 <? length (Model.physicalGroups model))%nat in
  _ ← Model.TriangleCount model;
  if exportPhysicalGroups && hasPhysicalGroups
  then Ok (ExportPhysicalGroupsWithFreeCAD em format files)
  else
    files ← match format with
            | Text => ExportText em files
            | Binary => ExportBinary em files
            end;
    Ok (Finished files).

(** [ExporterBase.Export]: the exporter starts from an empty file list. *)
Definition Export (em : ExporterModel.t) (format : FileFormat) : result ExportOutcome :=
  ExportContent em format [].

(** *** Export by physical group *)

Definition coord (x y z : Z) : Coord3D.t number :=
  Coord3D.mk (number_of_Z x) (number_of_Z y) (number_of_Z z).

(** The cube of 8 vertices and 12 triangles that [ExportPhysicalGroups]
    builds for every group. *)
Definition testCubeMesh (materialIndex : nat) : Mesh.t :=
  let mesh :=
    fold_left Mesh.AddVertex
      [coord (-1) (-1) (-1); coord 1 (-1) (-1); coord 1 1 (-1); coord (-1) 1 (-1);
       coord (-1) (-1) 1; coord 1 (-1) 1; coord 1 1 1; coord (-1) 1 1]
      Mesh.new in
  fold_left (fun mesh '(a, b, c) =>
               Mesh.AddTriangle mesh (Triangle.mk a b c 0 0 0 materialIndex 0))
    [(0, 1, 2); (0, 2, 3);      (* bottom *)
     (4, 7, 6); (4, 6, 5);      (* top *)
     (0, 4, 5); (0, 5, 1);      (* front *)
     (2, 6, 7); (2, 7, 3);      (* back *)
     (0, 3, 7); (0, 7, 4);      (* left *)
     (1, 5, 6); (1, 6, 2)]      (* right *)
    mesh.

Definition testCubeModel (groupName : string) : Model.t :=
  let '(filteredModel, materialIndex) :=
    Model.AddMaterial Model.new (Material.mk "Test Material" "standard") in
  let mesh := testCubeMesh materialIndex in
  let '(filteredModel, meshIndex) := Model.AddMesh filteredModel mesh in
  Model.AddChildNodeToRoot filteredModel groupName Identity [meshIndex].

(** [Object.assign ({}, settings)] followed by the deletion of the group
    export properties. *)
Definition filteredSettings (settings : ExporterSettings.t) : ExporterSettings.t :=
  {| ExporterSettings.transformation := ExporterSettings.transformation settings;
     ExporterSettings.isMeshVisible := ExporterSettings.isMeshVisible settings;
     ExporterSettings.exportPhysicalGroups := None;
     ExporterSettings.selectedGroups := None;
     ExporterSettings.exportSelectedOnly := None;
     ExporterSettings.exportRemainder := None;
     ExporterSettings.exportSeparateFiles :=
       ExporterSettings.exportSeparateFiles settings |}.

(** The copy that only loses [exportPhysicalGroups]. *)
Definition withoutGroupExport (settings : ExporterSettings.t) : ExporterSettings.t :=
  {| ExporterSettings.transformation := ExporterSettings.transformation settings;
     ExporterSettings.isMeshVisible := ExporterSettings.isMeshVisible settings;
     ExporterSettings.exportPhysicalGroups := None;
     ExporterSettings.selectedGroups := ExporterSettings.selectedGroups settings;
     ExporterSettings.exportSelectedOnly := ExporterSettings.exportSelectedOnly settings;
     ExporterSettings.exportRemainder := ExporterSettings.exportRemainder settings;
     ExporterSettings.exportSeparateFiles :=
       ExporterSettings.exportSeparateFiles settings |}.

(** A new mesh with the vertex data of [originalMesh] and the triangles
    at the given indices. *)
Definition cloneMesh (originalMesh : Mesh.t) (faces : list nat) : Mesh.t :=
  {| Mesh.name := EmptyString;
     Mesh.vertices := Mesh.vertices originalMesh;
     Mesh.normals := Mesh.normals originalMesh;
     Mesh.uvs := Mesh.uvs originalMesh;
     Mesh.triangles := omap (Mesh.GetTriangle originalMesh) faces |}.

Definition allFaces (mesh : Mesh.t) : list nat := seq 0 (Mesh.TriangleCount mesh).

(** [MergeIntoModel]: a node named after the group is appended to the
    target's root, every mesh of the source is cloned into the target,
    and the node receives the mapped index of every mesh index found in
    the source tree. *)
Fixpoint EnumerateMeshIndices (n : Node.t) : list nat :=
  match n with
  | Node.mk _ _ _ children indices => indices ++ flat_map EnumerateMeshIndices children
  end.

Definition MergeIntoModel (sourceModel targetModel : Model.t) (groupName : string)
  : Model.t :=
  let base := Model.MeshCount targetModel in
  let target :=
    fold_left (fun target sourceMesh =>
                 fst (Model.AddMesh target (cloneMesh sourceMesh (allFaces sourceMesh))))
              (Model.meshes sourceModel) targetModel in
  let mapped :=
    omap (fun meshIndex =>
            if (meshIndex <? Model.MeshCount sourceModel)%nat
            then Some (base + meshIndex) else None)
         (EnumerateMeshIndices (Model.GetRootNode sourceModel)) in
  Model.AddChildNodeToRoot target groupName Identity mapped.

(** The value kept per mesh key by the remainder bookkeeping: the text
    ['all'] or an array of face indices. *)
Inductive UsedFaces :=
| UsedAll
| UsedList (faces : list Z).

(** The faces of an instance that go to the remainder, [None] when the
    instance contributes no mesh. *)
Definition remainderFaces (originalMesh : Mesh.t) (used : option UsedFaces)
  : option (list nat) :=
  match used with
  | None => Some (allFaces originalMesh)
  | Some (UsedList usedFaces) =>
      let unused := filter (fun i => Z.of_nat i ∉ usedFaces) (allFaces originalMesh) in
      if bool_decide (unused = []) then None else Some unused
  | Some UsedAll => None
  end.

Definition nodeTransformation (tr : Transformation) : Transformation :=
  if IsIdentity tr then Identity else tr.

Definition CreateRemainderModel (originalModel : Model.t)
           (usedMeshInstances : gmap (nat * nat) UsedFaces) : result Model.t :=
  let remainderModel :=
    fold_left (fun m material => fst (Model.AddMaterial m material))
              (Model.materials originalModel) Model.new in
  forEach (fun remainderModel meshInstance =>
             let meshKey := GetKey (MeshInstance.GetId meshInstance) in
             match usedMeshInstances !! meshKey with
             | Some UsedAll => Ok remainderModel
             | used =>
                 originalMesh ← MeshInstance.GetMesh meshInstance;
                 match remainderFaces originalMesh used with
                 | Some faces =>
                     let '(m, meshIndex) :=
                       Model.AddMesh remainderModel (cloneMesh originalMesh faces) in
                     Ok (Model.AddChildNodeToRoot m EmptyString
                           (nodeTransformation (MeshInstance.GetTransformation meshInstance))
                           [meshIndex])
                 | None => Ok remainderModel
                 end
             end)
          (Model.EnumerateMeshInstances originalModel) remainderModel.

(** The (mesh key, local triangle index) pairs whose triangles
    [CreateRemainderModel] copies, in the order of the copies. *)
Definition remainderTriangleIds (originalModel : Model.t)
           (usedMeshInstances : gmap (nat * nat) UsedFaces) : list ((nat * nat) * nat) :=
  flat_map (fun meshInstance =>
              let meshKey := GetKey (MeshInstance.GetId meshInstance) in
              match usedMeshInstances !! meshKey, MeshInstance.mesh meshInstance with
              | Some UsedAll, _ => []
              | used, Some originalMesh =>
                  match remainderFaces originalMesh used with
                  | Some faces => map (pair meshKey) faces
                  | None => []
                  end
              | _, None => []
              end)
           (Model.EnumerateMeshInstances originalModel).

(** [map.set (key, value)] on a JavaScript [Map], which iterates in
    insertion order: a key that is present keeps its place. *)
Fixpoint mapSet {V : Type} (key : nat * nat) (value : V) (entries : list ((nat * nat) * V))
  : list ((nat * nat) * V) :=
  match entries with
  | [] => [(key, value)]
  | (k, v) :: rest =>
      if bool_decide (k = key) then (key, value) :: rest
      else (k, v) :: mapSet key value rest
  end.

(** [[...new Set (items)]]: the first occurrence of every item, in order. *)
Definition dedupe (items : list Z) : list Z :=
  fold_left (fun seen item => if bool_decide (item ∈ seen) then seen else seen ++ [item])
            items [].

(** The bookkeeping of [CreateModelFromPhysicalGroup] for one instance of
    the group. *)
Definition recordUsed (usedMeshInstances : gmap (nat * nat) UsedFaces)
           (meshKey : nat * nat) (faceIndices : list Z) : gmap (nat * nat) UsedFaces :=
  let used :=
    match usedMeshInstances !! meshKey with
    | Some _ => usedMeshInstances
    | None => <[meshKey := UsedList []]> usedMeshInstances
    end in
  if (length faceIndices =? 0)%nat then <[meshKey := UsedAll]> used
  else
    match used !! meshKey with
    | Some (UsedList currentUsed) =>
        <[meshKey := UsedList (dedupe (currentUsed ++ faceIndices))]> used
    | _ => used
    end.

(** The first pass of [CreateModelFromPhysicalGroup]: the instances of
    the group with their face lists, in enumeration order, and the
    updated bookkeeping. *)
Definition collectGroupMeshes (originalModel : Model.t) (group : PhysicalGroup.t)
           (usedMeshInstances : gmap (nat * nat) UsedFaces)
  : list ((nat * nat) * (MeshInstance.t * list Z)) * gmap (nat * nat) UsedFaces :=
  fold_left (fun '(meshesToProcess, used) meshInstance =>
               let meshId := MeshInstance.GetId meshInstance in
               let meshKey := GetKey meshId in
               if PhysicalGroup.ContainsMesh group (Some meshId) then
                 let faceIndices := PhysicalGroup.GetMeshFaceIndices group (Some meshId) in
                 (mapSet meshKey (meshInstance, faceIndices) meshesToProcess,
                  recordUsed used meshKey faceIndices)
               else (meshesToProcess, used))
            (Model.EnumerateMeshInstances originalModel) ([], usedMeshInstances).

(** The triangles copied for an instance of the group, [None] when no
    mesh is added for it: all of them for an empty face list, else the
    listed ones, once each, without the indices out of bounds. *)
Definition groupFaces (originalMesh : Mesh.t) (faceIndices : list Z)
  : option (list nat) :=
  if (length faceIndices =? 0)%nat then Some (allFaces originalMesh)
  else
    let faces :=
      omap (fun faceIndex =>
              if ((faceIndex <? 0) || (Z.of_nat (Mesh.TriangleCount originalMesh) <=? faceIndex))%Z
              then None else Some (Z.to_nat faceIndex))
           (dedupe faceIndices) in
    if bool_decide (faces = []) then None else Some faces.

Definition CreateModelFromPhysicalGroup (originalModel : Model.t)
           (group : PhysicalGroup.t) (usedMeshInstances : gmap (nat * nat) UsedFaces)
  : result (Model.t * gmap (nat * nat) UsedFaces) :=
  let '(meshesToProcess, used) :=
    collectGroupMeshes originalModel group usedMeshInstances in
  let filteredModel :=
    fold_left (fun m material => fst (Model.AddMaterial m material))
              (Model.materials originalModel) Model.new in
  filteredModel ←
    forEach (fun filteredModel '(meshKey, (meshInstance, faceIndices)) =>
               originalMesh ← MeshInstance.GetMesh meshInstance;
               match groupFaces originalMesh faceIndices with
               | Some faces =>
                   let '(m, meshIndex) :=
                     Model.AddMesh filteredModel (cloneMesh originalMesh faces) in
                   Ok (Model.AddChildNodeToRoot m EmptyString
                         (nodeTransformation (MeshInstance.GetTransformation meshInstance))
                         [meshIndex])
               | None => Ok filteredModel
               end)
            meshesToProcess filteredModel;
  Ok (filteredModel, used).

(** The (mesh key, local triangle index) pairs whose triangles
    [CreateModelFromPhysicalGroup] copies, in the order of the copies. *)
Definition groupTriangleIds (originalModel : Model.t) (group : PhysicalGroup.t)
  : list ((nat * nat) * nat) :=
  flat_map (fun '(meshKey, (meshInstance, faceIndices)) =>
              match MeshInstance.mesh meshInstance with
              | Some originalMesh =>
                  match groupFaces originalMesh faceIndices with
                  | Some faces => map (pair meshKey) faces
                  | None => []
                  end
              | None => []
              end)
           (fst (collectGroupMeshes originalModel group ∅)).

(** The state of the loop over the groups. *)
Record GroupLoop := {
  loopFiles : list ExportedFile.t;
  unifiedModel : option Model.t;
  groupsProcessed : nat
}.

Definition exportGroup (em : ExporterModel.t) (format : FileFormat)
           (exportSelectedOnly exportSeparateFiles : bool) (selectedGroups : list Z)
           (s : GroupLoop) (entry : nat * PhysicalGroup.t) : result GroupLoop :=
  let '(i, group) := entry in
  if exportSelectedOnly && negb (bool_decide (Z.of_nat i ∈ selectedGroups)) then Ok s
  else
    let groupName := PhysicalGroup.GetName group in
    let filteredModel := testCubeModel groupName in
    triangleCount ← Model.TriangleCount filteredModel;
    if (Model.MeshInstanceCount filteredModel =? 0)%nat || (triangleCount =? 0)%nat
    then Ok s
    else
      let filteredExporterModel :=
        ExporterModel.mk filteredModel (filteredSettings (ExporterModel.settings em)) in
      if exportSeparateFiles then
        let fileName := sanitizeName groupName +:+ ".stl" in
        files ← match format with
                | Text => ExportTextForModel filteredExporterModel (loopFiles s)
                                             fileName groupName
                | Binary => ExportBinaryForModel filteredExporterModel (loopFiles s)
                                                 fileName
                end;
        Ok {| loopFiles := files;
              unifiedModel := unifiedModel s;
              groupsProcessed := S (groupsProcessed s) |}
      else
        Ok {| loopFiles := loopFiles s;
              unifiedModel :=
                option_map (fun unified => MergeIntoModel filteredModel unified groupName)
                           (unifiedModel s);
              groupsProcessed := S (groupsProcessed s) |}.

(** The file written when nothing else was exported. *)
Definition emptyModelFile (format : FileFormat) : result ExportedFile.t :=
  match format with
  | Text =>
      let textWriter := TextWriter.WriteLine TextWriter.new "solid EmptyModel" in
      let textWriter := TextWriter.WriteLine textWriter "endsolid EmptyModel" in
      Ok (ExportedFile.SetTextContent (ExportedFile.new "empty.stl")
            (TextWriter.GetText textWriter))
  | Binary =>
      let headerSize := 80 in
      let fullByteLength := headerSize + 4 in
      let stlWriter := BinaryWriter.new fullByteLength true in
      stlWriter ← WriteCharacters stlWriter 0 headerSize;
      stlWriter ← BinaryWriter.WriteUnsignedInteger32 stlWriter 0;
      Ok (ExportedFile.SetBufferContent (ExportedFile.new "empty.stl")
            (BinaryWriter.GetBuffer stlWriter))
  end.

Definition exportForModel (format : FileFormat) (em : ExporterModel.t)
           (files : list ExportedFile.t) (fileName modelName : string)
  : result (list ExportedFile.t) :=
  match format with
  | Text => ExportTextForModel em files fileName modelName
  | Binary => ExportBinaryForModel em files fileName
  end.

Definition ExportPhysicalGroups (em : ExporterModel.t) (format : FileFormat)
           (files : list ExportedFile.t) : result (list ExportedFile.t) :=
  let model := ExporterModel.GetModel em in
  let physicalGroups := Model.physicalGroups model in
  let settings := ExporterModel.settings em in
  let selectedGroups := default [] (ExporterSettings.selectedGroups settings) in
  let exportSelectedOnly :=
    bool_decide (ExporterSettings.exportSelectedOnly settings = Some true) in
  let exportRemainder :=
    negb (bool_decide (ExporterSettings.exportRemainder settings = Some false)) in
  let exportSeparateFiles :=
    negb (bool_decide (ExporterSettings.exportSeparateFiles settings = Some false)) in
  let unified :=
    if exportSeparateFiles then None
    else Some (fold_left (fun m material => fst (Model.AddMaterial m material))
                         (Model.materials model) Model.new) in
  (* the bookkeeping for the remainder: nothing in this method adds to it *)
  let usedMeshInstances : gmap (nat * nat) UsedFaces := ∅ in
  s ← forEach (exportGroup em format exportSelectedOnly exportSeparateFiles selectedGroups)
              (imap pair physicalGroups)
              {| loopFiles := files; unifiedModel := unified; groupsProcessed := 0 |};
  files ← match unifiedModel s with
          | Some unifiedModel =>
              if (0 <? groupsProcessed s)%nat
              then exportForModel format
                     (ExporterModel.mk unifiedModel (withoutGroupExport settings))
                     (loopFiles s) "model.stl" "Model"
              else Ok (loopFiles s)
          | None => Ok (loopFiles s)
          end;
  files ← (if exportRemainder then
             remainderModel ← CreateRemainderModel model usedMeshInstances;
             if (0 <? Model.MeshInstanceCount remainderModel)%nat
             then
               triangleCount ← Model.TriangleCount remainderModel;
               if (0 <? triangleCount)%nat
               then exportForModel format
                      (ExporterModel.mk remainderModel (withoutGroupExport settings))
                      files "remainder.stl" "Remainder"
               else Ok files
             else Ok files
           else Ok files);
  if (length files =? 0)%nat
  then f ← emptyModelFile format; Ok (files ++ [f])
  else Ok files.

End WithGeometry.
End ExporterStl.

(* ================================================================== *)
(** ** Integer geometry *)

(** An instance of the abstract numbers for scenes whose coordinates are
    integers and whose transformations are translations by integer
    vectors.  [setFloat32] is the IEEE-754 single-precision encoding with
    rounding to nearest, ties to even; the normal is the cross product of
    two edges divided by the integer square root of its squared length,
    which is the exact unit normal whenever the face is axis-aligned. *)
Module IntGeometry.

Definition float32_bits (v : Z) : Z :=
  if (v =? 0)%Z then 0%Z
  else
    let sign := if (v <? 0)%Z then 1%Z else 0%Z in
    let a := Z.abs v in
    let e := Z.log2 a in
    let '(m, e) :=
      if (e <=? 23)%Z then (a * 2 ^ (23 - e), e)%Z
      else
        let shift := (e - 23)%Z in
        let q := (a / 2 ^ shift)%Z in
        let r := (a mod 2 ^ shift)%Z in
        let half := (2 ^ (shift - 1))%Z in
        let q := if ((half <? r) || ((r =? half) && Z.odd q))%Z then (q + 1)%Z else q in
        if (q =? 2 ^ 24)%Z then (2 ^ 23, e + 1)%Z else (q, e) in
    if (127 <? e)%Z then (sign * 2 ^ 31 + 255 * 2 ^ 23)%Z
    else (sign * 2 ^ 31 + (e + 127) * 2 ^ 23 + (m - 2 ^ 23))%Z.

Definition sub (a b : Coord3D.t Z) : Coord3D.t Z :=
  Coord3D.mk (Coord3D.x a - Coord3D.x b)%Z (Coord3D.y a - Coord3D.y b)%Z
             (Coord3D.z a - Coord3D.z b)%Z.

Definition normal (v0 v1 v2 : Coord3D.t Z) : Coord3D.t Z :=
  let v := sub v1 v0 in
  let w := sub v2 v0 in
  let nx := (Coord3D.y v * Coord3D.z w - Coord3D.z v * Coord3D.y w)%Z in
  let ny := (Coord3D.z v * Coord3D.x w - Coord3D.x v * Coord3D.z w)%Z in
  let nz := (Coord3D.x v * Coord3D.y w - Coord3D.y v * Coord3D.x w)%Z in
  let len := Z.sqrt (nx * nx + ny * ny + nz * nz) in
  if (0 <? len)%Z
  then Coord3D.mk (Z.quot nx len) (Z.quot ny len) (Z.quot nz len)
  else Coord3D.mk nx ny nz.

Definition translate (t : Z * Z * Z) (c : Coord3D.t Z) : Coord3D.t Z :=
  let '(dx, dy, dz) := t in
  Coord3D.mk (Coord3D.x c + dx)%Z (Coord3D.y c + dy)%Z (Coord3D.z c + dz)%Z.

#[export] Instance geometry : Geometry := {|
  number := Z;
  number_of_Z := fun v => v;
  setFloat32 := float32_bits;
  number_toString := pretty;
  Transformation := Z * Z * Z;
  Identity := (0, 0, 0)%Z;
  IsIdentity := fun t => bool_decide (t = (0, 0, 0)%Z);
  Append := fun a b =>
              let '(ax, ay, az) := a in
              let '(bx, by_, bz) := b in (ax + bx, ay + by_, az + bz)%Z;
  TransformCoord3D := translate;
  CalculateTriangleNormal := normal
|}.

End IntGeometry.

(* ================================================================== *)
(** ** The glTF exporter (export/exportergltf.js) *)

Module ExporterGltf.

Definition CanExport (format : FileFormat) (extension : string) : bool :=
  match format with
  | Text => bool_decide (extension = "gltf")
  | Binary => bool_decide (extension = "glb")
  end.

Definition AlignToBoundary (size : nat) : nat :=
  let remainder := size mod 4 in
  if (remainder =? 0)%nat then size else size + (4 - remainder).

Fixpoint WriteCharacters (writer : BinaryWriter.t) (char : Z) (count : nat)
  : result BinaryWriter.t :=
  match count with
  | O => Ok writer
  | S n =>
      writer ← BinaryWriter.WriteUnsignedCharacter8 writer char;
      WriteCharacters writer char n
  end.

(** What [ExportBinaryContent] obtains from [GetMainBuffer],
    [ExportMaterials] and [JSON.stringify] before it lays out the
    container: the mesh data buffer, the texture buffers in the order the
    materials registered them, and the UTF-8 bytes of the JSON document
    as a function of the [byteLength] entry the method pushes into
    [mainJson.buffers] just before the document is serialised. *)
Record BinaryParts := {
  mainBuffer : list byte;
  textureBuffers : list (list byte);
  mainJsonBuffer : nat -> list byte
}.

Definition ExportBinaryContent (parts : BinaryParts) (files : list ExportedFile.t)
  : result (list ExportedFile.t) :=
  let glbFile := ExportedFile.new "model.glb" in
  let mainBinaryBufferLength :=
    fold_left (fun len textureBuffer => len + length textureBuffer)
              (textureBuffers parts) (length (mainBuffer parts)) in
  let mainBinaryBufferAlignedLength := AlignToBoundary mainBinaryBufferLength in
  let mainJsonBuffer := mainJsonBuffer parts mainBinaryBufferAlignedLength in
  let mainJsonBufferLength := length mainJsonBuffer in
  let mainJsonBufferAlignedLength := AlignToBoundary mainJsonBufferLength in
  let glbSize := 12 + 8 + mainJsonBufferAlignedLength + 8 + mainBinaryBufferAlignedLength in
  let glbWriter := BinaryWriter.new glbSize true in
  glbWriter ← BinaryWriter.WriteUnsignedInteger32 glbWriter 0x46546C67;
  glbWriter ← BinaryWriter.WriteUnsignedInteger32 glbWriter 2;
  glbWriter ← BinaryWriter.WriteUnsignedInteger32 glbWriter (Z.of_nat glbSize);
  glbWriter ← BinaryWriter.WriteUnsignedInteger32 glbWriter
                (Z.of_nat mainJsonBufferAlignedLength);
  glbWriter ← BinaryWriter.WriteUnsignedInteger32 glbWriter 0x4E4F534A;
  glbWriter ← BinaryWriter.WriteArrayBuffer glbWriter mainJsonBuffer;
  glbWriter ← WriteCharacters glbWriter 32
                (mainJsonBufferAlignedLength - mainJsonBufferLength);
  glbWriter ← BinaryWriter.WriteUnsignedInteger32 glbWriter
                (Z.of_nat mainBinaryBufferAlignedLength);
  glbWriter ← BinaryWriter.WriteUnsignedInteger32 glbWriter 0x004E4942;
  glbWriter ← BinaryWriter.WriteArrayBuffer glbWriter (mainBuffer parts);
  glbWriter ← forEach BinaryWriter.WriteArrayBuffer (textureBuffers parts) glbWriter;
  glbWriter ← WriteCharacters glbWriter 0
                (mainBinaryBufferAlignedLength - mainBinaryBufferLength);
  Ok (files ++ [ExportedFile.SetBufferContent glbFile (BinaryWriter.GetBuffer glbWriter)]).

(** The binary payload: the mesh data followed by the textures. *)
Definition binaryPayload (parts : BinaryParts) : list byte :=
  mainBuffer parts ++ concat (textureBuffers parts).

Definition jsonPayload (parts : BinaryParts) : list byte :=
  mainJsonBuffer parts (AlignToBoundary (length (binaryPayload parts))).

(** The declared lengths of the two chunks and of the file. *)
Definition binChunkLength (parts : BinaryParts) : nat :=
  AlignToBoundary (length (binaryPayload parts)).

Definition jsonChunkLength (parts : BinaryParts) : nat :=
  AlignToBoundary (length (jsonPayload parts)).

Definition glbSize (parts : BinaryParts) : nat :=
  12 + 8 + jsonChunkLength parts + 8 + binChunkLength parts.

(** The container: file header, JSON chunk padded with spaces, binary
    chunk padded with zeros. *)
Definition glbLayout (parts : BinaryParts) : list byte :=
  le_split 4 0x46546C67 ++ le_split 4 2 ++ le_split 4 (Z.of_nat (glbSize parts))
  ++ le_split 4 (Z.of_nat (jsonChunkLength parts)) ++ le_split 4 0x4E4F534A
  ++ jsonPayload parts
  ++ replicate (jsonChunkLength parts - length (jsonPayload parts)) Byte.x20
  ++ le_split 4 (Z.of_nat (binChunkLength parts)) ++ le_split 4 0x004E4942
  ++ binaryPayload parts
  ++ replicate (binChunkLength parts - length (binaryPayload parts)) Byte.x00.

(** The little-endian uint32 stored at a byte offset of a file. *)
Definition readUint32 (bytes : list byte) (offset : nat) : Z :=
  le_combine (take 4 (drop offset bytes)).

End ExporterGltf.

(* ================================================================== *)
(** ** Packaging of the exported files (website/exportdialog.js) *)

Module ExportDialog.

(** What the callbacks of [ModelExporterUI.ExportModel] do to the page. *)
Inductive UiEffect :=
| ProgressDialogClose
| DownloadArrayBufferAsFile (content : option (list byte)) (name : string)
| ShowMessageDialog (title message : string).

Section Packaging.
(** [fflate.zipSync], applied to the object that maps file names to
    contents. *)
Variable zipSync : gmap string (list byte) -> list byte.



(** The [onError] callback. *)
Definition onError : list UiEffect := [ProgressDialogClose].

End Packaging.


End ExportDialog.

(* ================================================================== *)
(** ** Creation of a physical group (website/website.js) *)

Module Website.
Section WithGeometry.
Context `{Geometry}.
Import ExportDialog.

Inductive DialogEffect :=
| Message (title message : string)
| DialogClose.

(** The faces the handler records for one selected mesh: the whole
    instance, then every triangle index when the instance and its mesh
    can be found in the model. *)
Definition addSelectedMesh (model : Model.t) (physicalGroup : PhysicalGroup.t)
           (meshId : MeshInstanceId) : PhysicalGroup.t :=
  let physicalGroup := PhysicalGroup.AddMesh physicalGroup meshId in
  match Model.GetMeshInstance model meshId with
  | Some meshInstance =>
      match MeshInstance.mesh meshInstance with
      | Some mesh =>
          fold_left (fun g i => PhysicalGroup.AddMeshWithIndex g (Some meshId)
                                  (Some (Z.of_nat i)))
                    (seq 0 (Mesh.TriangleCount mesh)) physicalGroup
      | None => physicalGroup
      end
  | None => physicalGroup
  end.

(** The [Create] button of [CreatePhysicalGroupFromSelectedFaces]:
    [groupName] is the trimmed text of the name field.  The group is
    filled in place after [AddPhysicalGroup] has pushed it, so the model
    ends with the filled group as its last group. *)
Definition onCreateClick (model : Model.t) (selectedMeshes : list MeshInstanceId)
           (groupName : string) : Model.t * list DialogEffect :=
  if bool_decide (groupName = EmptyString) then
    (model, [Message "Error" "Please enter a group name."])
  else
    match Model.FindPhysicalGroupByName model groupName with
    | Some _ =>
        (model,
         [Message "Error"
            "A group with this name already exists. Please choose a different name."])
    | None =>
        let '(model', physicalGroup) := Model.AddPhysicalGroup model groupName in
        let physicalGroup :=
          fold_left (addSelectedMesh model') selectedMeshes physicalGroup in
        (Model.setPhysicalGroups model (Model.physicalGroups model ++ [physicalGroup]),
         [DialogClose;
          Message "Success"
            ("Created physical group " +:+ quote +:+ groupName +:+ quote +:+ " with "
             +:+ pretty (length selectedMeshes) +:+ " meshes.")])
    end.

End WithGeometry.
End Website.

(* ================================================================== *)
(** ** The IGES exporter (export/exporteriges.js) *)

Module ExporterIges.

Definition CanExport (format : FileFormat) (extension : string) : bool :=
  bool_decide (extension = "iges") || bool_decide (extension = "igs").

(** One entry of the [physicalGroups] array sent to the conversion
    server: a name and the triangle indices assigned to it. *)
Record GroupData := { name : string; meshIds : list nat }.

(** The triangle indices assigned to the group at position [i]: a slice
    of the model's triangles whose size is the triangle count divided by
    the number of groups, and at least 1. *)
Definition groupTriangles (totalTriangles groupCount i : nat) : list nat :=
  let groupSize := Nat.max 1 (totalTriangles / groupCount) in
  let startIdx := i * groupSize in
  let endIdx := Nat.min totalTriangles ((i + 1) * groupSize) in
  seq startIdx (endIdx - startIdx).

(** The [physicalGroups] array that [ExportContent] builds from the
    number of triangles of the model and its groups. *)
Definition physicalGroupData (totalTriangles : nat) (groups : list PhysicalGroup.t)
  : list GroupData :=
  if (0 <? length groups)%nat then
    let assigned :=
      imap (fun i group =>
              {| name := PhysicalGroup.GetName group;
                 meshIds := groupTriangles totalTriangles (length groups) i |})
           groups in
    let assignedTriangles := flat_map meshIds assigned in
    let unassignedTriangles :=
      filter (fun i => i ∉ assignedTriangles) (seq 0 totalTriangles) in
    if (0 <? length unassignedTriangles)%nat
    then assigned ++ [{| name := "Unassigned_Faces"; meshIds := unassignedTriangles |}]
    else assigned
  else [{| name := "Model_Faces"; meshIds := seq 0 totalTriangles |}].

Section WithGeometry.
Context `{Geometry}.

(** The body of the request sent to the conversion server. *)
Record ModelData := {
  vertices : list number;
  triangles : list nat;
  physicalGroups : list GroupData
}.

(** The triangle of the model behind each position of [triangles]: the
    array is filled in the order of [Model.EnumerateTriangleVertices],
    instance after instance and, within an instance, triangle after
    triangle, so that position [j] stands for the [j]-th pair of mesh
    key and local triangle index of this list. *)
Definition triangleIds (model : Model.t) : list ((nat * nat) * nat) :=
  flat_map (fun meshInstance =>
              match MeshInstance.mesh meshInstance with
              | Some mesh =>
                  map (pair (GetKey (MeshInstance.GetId meshInstance)))
                      (seq 0 (Mesh.TriangleCount mesh))
              | None => []
              end)
           (Model.EnumerateMeshInstances model).

(** What [ExportContent] hands to [onFinish].  [PreparationFailed]:
    building the request raised an exception that was caught, and
    [onFinish] runs on the files as they were.  [ServerExport]: the
    request was sent; [onFinish] runs when the server has answered, with
    the completion given as a function of the answer. *)
Inductive ExportOutcome :=
| PreparationFailed (files : list ExportedFile.t)
| ServerExport (modelData : ModelData)
               (onFinish : ExporterStl.ServerReply -> ExporterStl.Completion).

(** [ExportContent]: the geometry is collected by the statements that
    [ExporterStl.ExportPhysicalGroupsWithFreeCAD] repeats word for word;
    the groups receive their triangles by position; the converted file
    is saved by the browser and [model.igs] is pushed with an empty
    text, or [error.txt] with the message of the failure. *)
Definition ExportContent (em : ExporterModel.t) (format : FileFormat)
           (files : list ExportedFile.t) : ExportOutcome :=
  let model := ExporterModel.GetModel em in
  match ExporterStl.collectGeometry model with
  | Ok (table, collected) =>
      let totalTriangles := length collected / 3 in
      ServerExport
        {| vertices := ExporterStl.tableVertices table;
           triangles := collected;
           physicalGroups :=
             physicalGroupData totalTriangles (Model.physicalGroups model) |}
        (fun reply =>
           match reply with
           | ExporterStl.ReplyBlob blob =>
               {| ExporterStl.downloaded := Some ("model.igs", blob);
                  ExporterStl.completedFiles :=
                    files ++ [ExportedFile.SetTextContent
                                (ExportedFile.new "model.igs") EmptyString] |}
           | ExporterStl.ReplyError message =>
               {| ExporterStl.downloaded := None;
                  ExporterStl.completedFiles :=
                    files ++ [ExportedFile.SetTextContent
                                (ExportedFile.new "error.txt")
                                ("Export failed: " +:+ message)] |}
           end)
  | Throw _ => PreparationFailed files
  end.

End WithGeometry.
End ExporterIges.

(* ================================================================== *)
(** ** A scene with one box and two groups *)

Module Example.
Import IntGeometry.

(** A box of 2 × 3 × 4 with 8 vertices and 12 triangles. *)
Definition boxMesh : Mesh.t :=
  {| Mesh.name := "box";
     Mesh.vertices :=
       [Coord3D.mk 0 0 0; Coord3D.mk 2 0 0; Coord3D.mk 2 3 0; Coord3D.mk 0 3 0;
        Coord3D.mk 0 0 4; Coord3D.mk 2 0 4; Coord3D.mk 2 3 4; Coord3D.mk 0 3 4]%Z;
     Mesh.normals := [];
     Mesh.uvs := [];
     Mesh.triangles :=
       map (fun '(a, b, c) => Triangle.mk a b c 0 0 0 0 0)
           [(0, 1, 2); (0, 2, 3); (4, 7, 6); (4, 6, 5); (0, 4, 5); (0, 5, 1);
            (2, 6, 7); (2, 7, 3); (0, 3, 7); (0, 7, 4); (1, 5, 6); (1, 6, 2)] |}.

(** The only instance of the box: mesh 0 under the root node 0. *)
Definition boxId : MeshInstanceId := {| nodeId := 0; meshIndex := 0 |}.

Definition boxModel : Model.t :=
  fst (Model.AddMeshToRootNode
         (fst (Model.AddMaterial Model.new (Material.mk "steel" "phong"))) boxMesh).

Definition groupOfFaces (name : string) (faces : list nat) : PhysicalGroup.t :=
  fold_left (fun g face => PhysicalGroup.AddMeshWithIndex g (Some boxId)
                             (Some (Z.of_nat face)))
            faces (PhysicalGroup.new name).

(** Two groups that do not overlap: 5 and 7 of the 12 triangles. *)
Definition inlet : PhysicalGroup.t := groupOfFaces "Inlet" (seq 0 5).
Definition outlet : PhysicalGroup.t := groupOfFaces "Outlet" (seq 5 7).

Definition twoGroupModel : Model.t :=
  Model.setPhysicalGroups boxModel [inlet; outlet].

(** [SelectedGroups ([0, 1])] in separate files, without remainder. *)
Definition selectedWithoutRemainder : ExporterSettings.t :=
  {| ExporterSettings.transformation := Identity;
     ExporterSettings.isMeshVisible := fun _ => true;
     ExporterSettings.exportPhysicalGroups := Some true;
     ExporterSettings.selectedGroups := Some [0; 1]%Z;
     ExporterSettings.exportSelectedOnly := Some true;
     ExporterSettings.exportRemainder := Some false;
     ExporterSettings.exportSeparateFiles := Some true |}.

(** One group that holds the whole box. *)
Definition walls : PhysicalGroup.t :=
  PhysicalGroup.AddMesh (PhysicalGroup.new "Walls") boxId.

Definition oneGroupModel : Model.t := Model.setPhysicalGroups boxModel [walls].

(** The group and the remainder, in separate files. *)
Definition selectedWithRemainder : ExporterSettings.t :=
  {| ExporterSettings.transformation := Identity;
     ExporterSettings.isMeshVisible := fun _ => true;
     ExporterSettings.exportPhysicalGroups := Some true;
     ExporterSettings.selectedGroups := Some [0]%Z;
     ExporterSettings.exportSelectedOnly := Some true;
     ExporterSettings.exportRemainder := Some true;
     ExporterSettings.exportSeparateFiles := Some true |}.

(** A strip of 3 triangles over 5 vertices. *)
Definition stripMesh : Mesh.t :=
  {| Mesh.name := "strip";
     Mesh.vertices :=
       [Coord3D.mk 0 0 0; Coord3D.mk 1 0 0; Coord3D.mk 0 1 0; Coord3D.mk 1 1 0;
        Coord3D.mk 0 2 0]%Z;
     Mesh.normals := [];
     Mesh.uvs := [];
     Mesh.triangles :=
       map (fun '(a, b, c) => Triangle.mk a b c 0 0 0 0 0)
           [(0, 1, 2); (1, 3, 2); (2, 3, 4)] |}.

Definition stripModel : Model.t :=
  fst (Model.AddMeshToRootNode
         (fst (Model.AddMaterial Model.new (Material.mk "steel" "phong"))) stripMesh).

(** Two groups that share the strip: its only instance is mesh 0 under
    the root node 0, like the one of the box.  [Front] records triangle
    0 and [Back] the triangles 1 and 2, so that no triangle is left. *)
Definition front : PhysicalGroup.t := groupOfFaces "Front" [0].
Definition back : PhysicalGroup.t := groupOfFaces "Back" [1; 2].

Definition frontBackModel : Model.t :=
  Model.setPhysicalGroups stripModel [front; back].

(** The triangle count an artifact declares, when it has content. *)
Definition declaredCount (file : ExportedFile.t) : option Z :=
  option_map StlLayout.declaredTriangleCount (ExportedFile.GetBufferContent file).

(** The names and declared triangle counts of the artifacts of an export
    that did not throw. *)
Definition artifacts (r : result (list ExportedFile.t)) : option (list (string * option Z)) :=
  match r with
  | Ok files => Some (map (fun file => (ExportedFile.GetName file, declaredCount file)) files)
  | Throw _ => None
  end.

End Example.

(* ================================================================== *)
(** * Properties *)

(** ** Physical groups *)

#[local] Set Warnings "-clear-no-such-hyp".

Module PhysicalGroupFacts.
Import PhysicalGroup.

Lemma initFaces_lookup_eq k mf :
  initFaces k mf !! k = Some (default [] (mf !! k)).
Proof.
  unfold initFaces. destruct (mf !! k) eqn:E; simpl.
  - exact E.
  - apply lookup_insert_eq.
Qed.

Lemma initFaces_lookup_ne k k' mf :
  k ≠ k' -> initFaces k mf !! k' = mf !! k'.
Proof.
  intros Hne. unfold initFaces. destruct (mf !! k); [done|].
  by rewrite lookup_insert_ne.
Qed.

Lemma initFaces_present k mf l :
  mf !! k = Some l -> initFaces k mf = mf.
Proof. intros E. unfold initFaces. by rewrite E. Qed.

Lemma dom_initFaces k mf : dom (initFaces k mf) = {[k]} ∪ dom mf.
Proof.
  unfold initFaces. destruct (mf !! k) eqn:E.
  - apply elem_of_dom_2 in E. symmetry. apply subseteq_union_1_L.
    by apply singleton_subseteq_l.
  - apply dom_insert_L.
Qed.

Lemma includes_true l f : includes l f = true <-> f ∈ l.
Proof.
  unfold includes. rewrite existsb_exists. split.
  - intros (x & Hin & Heq). apply Z.eqb_eq in Heq. subst.
    by apply list_elem_of_In.
  - intros Hin. exists f. split; [by apply list_elem_of_In | apply Z.eqb_refl].
Qed.

Lemma includes_snoc l f : includes (l ++ [f]) f = true.
Proof. apply includes_true. set_solver. Qed.

(** The face list after an index is added to it. *)
Definition addFace (l : list Z) (f : Z) : list Z :=
  if includes l f then l else l ++ [f].

Lemma includes_addFace l f : includes (addFace l f) f = true.
Proof.
  unfold addFace. destruct (includes l f) eqn:E; [exact E | apply includes_snoc].
Qed.

(** The face map after [AddMeshWithIndex], at the key that was added. *)
Lemma AddMeshWithIndex_faces g id f :
  meshFaces (AddMeshWithIndex g (Some id) (Some f)) !! GetKey id =
  Some (addFace (default [] (meshFaces g !! GetKey id)) f).
Proof.
  unfold addFace.
  unfold AddMeshWithIndex; simpl. rewrite initFaces_lookup_eq; simpl.
  destruct (includes _ f) eqn:E; simpl.
  - apply initFaces_lookup_eq.
  - apply lookup_insert_eq.
Qed.

Lemma AddMeshWithIndex_twice g id f :
  AddMeshWithIndex (AddMeshWithIndex g id f) id f = AddMeshWithIndex g id f.
Proof.
  destruct id as [id|]; [|reflexivity].
  destruct f as [f|].
  - pose proof (AddMeshWithIndex_faces g id f) as Hl.
    set (g1 := AddMeshWithIndex g (Some id) (Some f)) in *.
    unfold AddMeshWithIndex at 1. cbn zeta.
    rewrite (initFaces_present _ _ _ Hl), Hl.
    change (default [] (Some ?l)) with l.
    rewrite includes_addFace. cbn [negb].
    assert (Hm : {[GetKey id]} ∪ meshes g1 = meshes g1).
    { subst g1. simpl. set_solver. }
    rewrite Hm. by destruct g1.
  - unfold AddMeshWithIndex. simpl.
    rewrite (initFaces_present _ _ _ (initFaces_lookup_eq _ _)).
    f_equal. set_solver.
Qed.

Lemma faces_NoDup_initFaces k mf :
  (forall k' l, mf !! k' = Some l -> NoDup l) ->
  forall k' l, initFaces k mf !! k' = Some l -> NoDup l.
Proof.
  intros Hmf k' l. destruct (decide (k = k')) as [->|Hne].
  - rewrite initFaces_lookup_eq. intros [= <-].
    destruct (mf !! k') eqn:E; simpl; [eauto | constructor].
  - rewrite initFaces_lookup_ne by done. eauto.
Qed.

Lemma faces_NoDup_AddMeshWithIndex g id f :
  faces_NoDup g -> faces_NoDup (AddMeshWithIndex g id f).
Proof.
  intros Hg. destruct id as [id|]; [|exact Hg].
  pose proof (faces_NoDup_initFaces (GetKey id) _ Hg) as Hi.
  destruct f as [f|]; [|exact Hi].
  intros k l. unfold AddMeshWithIndex; simpl.
  destruct (includes _ f) eqn:E; simpl; [apply Hi|].
  destruct (decide (GetKey id = k)) as [<-|Hne].
  - rewrite lookup_insert_eq. intros [= <-].
    apply NoDup_app. split_and!.
    + destruct (initFaces (GetKey id) (meshFaces g) !! GetKey id) eqn:E'; simpl.
      * eauto.
      * constructor.
    + intros x Hx Hx'. apply list_elem_of_singleton in Hx'. subst x.
      apply includes_true in Hx. congruence.
    + apply NoDup_singleton.
  - rewrite lookup_insert_ne by done. apply Hi.
Qed.

Lemma reachable_faces_NoDup g : reachable g -> faces_NoDup g.
Proof.
  induction 1 as [n|g n _ IH|g c _ IH|g id _ IH|g id f _ IH|g id _ IH|g _ IH].
  - intros k l. simpl. by rewrite lookup_empty.
  - exact IH.
  - exact IH.
  - exact (faces_NoDup_initFaces _ _ IH).
  - by apply faces_NoDup_AddMeshWithIndex.
  - intros k l. simpl. intros Hl. apply lookup_delete_Some in Hl as [_ Hl]. eauto.
  - intros k l. simpl. by rewrite lookup_empty.
Qed.

Lemma keys_agree_AddMeshWithIndex g id f :
  keys_agree g -> keys_agree (AddMeshWithIndex g id f).
Proof.
  unfold keys_agree. intros Hg. destruct id as [id|]; [|exact Hg]. simpl.
  destruct f as [f|].
  - destruct (includes _ f); simpl.
    + rewrite dom_initFaces. by rewrite Hg.
    + rewrite dom_insert_L, dom_initFaces, Hg. set_solver.
  - rewrite dom_initFaces. by rewrite Hg.
Qed.

Lemma reachable_keys_agree g : reachable g -> keys_agree g.
Proof.
  unfold keys_agree.
  induction 1 as [n|g n _ IH|g c _ IH|g id _ IH|g id f _ IH|g id _ IH|g _ IH]; simpl.
  - by rewrite dom_empty_L.
  - exact IH.
  - exact IH.
  - rewrite dom_initFaces. by rewrite IH.
  - by apply keys_agree_AddMeshWithIndex.
  - rewrite dom_delete_L. by rewrite IH.
  - by rewrite dom_empty_L.
Qed.

End PhysicalGroupFacts.

(** C9: adding a face index to a group's per-instance membership is
    idempotent: for every group, mesh instance id (valid or not) and face
    index (given or [undefined]), [AddMeshWithIndex] applied twice leaves
    the group in the state one application produces; and in every group
    built through the class's operations no stored face-index list holds an
    index twice. *)
Theorem AddMeshWithIndex_idempotent :
  forall (g : PhysicalGroup.t) (meshInstanceId : option MeshInstanceId)
         (faceIndex : option Z),
    PhysicalGroup.AddMeshWithIndex
      (PhysicalGroup.AddMeshWithIndex g meshInstanceId faceIndex)
      meshInstanceId faceIndex
    = PhysicalGroup.AddMeshWithIndex g meshInstanceId faceIndex
    /\ (PhysicalGroup.reachable g ->
        PhysicalGroup.faces_NoDup g
        /\ PhysicalGroup.faces_NoDup
             (PhysicalGroup.AddMeshWithIndex g meshInstanceId faceIndex)).
Proof.
  intros g id f. split.
  - apply PhysicalGroupFacts.AddMeshWithIndex_twice.
  - intros Hg. split.
    + by apply PhysicalGroupFacts.reachable_faces_NoDup.
    + apply PhysicalGroupFacts.reachable_faces_NoDup. by constructor.
Qed.

Lemma AddMeshWithIndex_idempotent_witness :
  let id := {| nodeId := 1; meshIndex := 0 |} in
  let g := PhysicalGroup.AddMeshWithIndex (PhysicalGroup.new "inlet") (Some id) (Some 3%Z) in
  PhysicalGroup.reachable g
  /\ PhysicalGroup.GetMeshFaceIndices
       (PhysicalGroup.AddMeshWithIndex g (Some id) (Some 3%Z)) (Some id) = [3%Z]
  /\ PhysicalGroup.faces_NoDup (PhysicalGroup.AddMeshWithIndex g (Some id) (Some 3%Z)).
Proof.
  intros id g.
  assert (Hg : PhysicalGroup.reachable g) by repeat constructor.
  split; [exact Hg|]. split.
  - unfold g.
    rewrite (proj1 (AddMeshWithIndex_idempotent (PhysicalGroup.new "inlet")
                      (Some id) (Some 3%Z))).
    vm_compute. reflexivity.
  - exact (proj2 (proj2 (AddMeshWithIndex_idempotent g (Some id) (Some 3%Z)) Hg)).
Defined.

(** C10: every [PhysicalGroup] operation (construction, [AddMesh],
    [AddMeshWithIndex], [RemoveMesh], [Clear], and the setters) preserves
    the invariant that the membership set of instance keys equals the key
    set of the face-index map; hence [ContainsMesh] answers true exactly
    when a face-index entry exists for the key, and [GetMeshFaceIndices]
    returns the stored array, or the empty array for a key that is not in
    the group or an argument that is not an id. *)
Theorem PhysicalGroup_membership_invariant :
  forall g : PhysicalGroup.t,
    PhysicalGroup.reachable g ->
    PhysicalGroup.meshes g = dom (PhysicalGroup.meshFaces g)
    /\ (forall id, PhysicalGroup.ContainsMesh g (Some id) = true
                   <-> is_Some (PhysicalGroup.meshFaces g !! GetKey id))
    /\ (forall id l, PhysicalGroup.meshFaces g !! GetKey id = Some l ->
                     PhysicalGroup.GetMeshFaceIndices g (Some id) = l)
    /\ (forall id, PhysicalGroup.ContainsMesh g (Some id) = false ->
                   PhysicalGroup.GetMeshFaceIndices g (Some id) = [])
    /\ PhysicalGroup.ContainsMesh g None = false
    /\ PhysicalGroup.GetMeshFaceIndices g None = [].
Proof.
  intros g Hg.
  pose proof (PhysicalGroupFacts.reachable_keys_agree g Hg) as Hk.
  unfold PhysicalGroup.keys_agree in Hk.
  assert (Hc : forall id, PhysicalGroup.ContainsMesh g (Some id) = true
                          <-> is_Some (PhysicalGroup.meshFaces g !! GetKey id)).
  { intros id. unfold PhysicalGroup.ContainsMesh.
    rewrite bool_decide_eq_true, Hk. apply elem_of_dom. }
  split_and!; try done.
  - intros id l Hl. unfold PhysicalGroup.GetMeshFaceIndices. by rewrite Hl.
  - intros id Hf. unfold PhysicalGroup.GetMeshFaceIndices.
    destruct (PhysicalGroup.meshFaces g !! GetKey id) as [l|] eqn:E; [|done].
    assert (PhysicalGroup.ContainsMesh g (Some id) = true) by (apply Hc; eauto).
    congruence.
Qed.

Lemma PhysicalGroup_membership_invariant_witness :
  let a := {| nodeId := 1; meshIndex := 0 |} in
  let b := {| nodeId := 2; meshIndex := 1 |} in
  let g := PhysicalGroup.RemoveMesh
             (PhysicalGroup.AddMeshWithIndex
                (PhysicalGroup.AddMesh (PhysicalGroup.new "walls") a) (Some b) (Some 4%Z)) a in
  PhysicalGroup.reachable g
  /\ PhysicalGroup.meshes g = dom (PhysicalGroup.meshFaces g)
  /\ PhysicalGroup.GetMeshFaceIndices g (Some a) = [].
Proof.
  intros a b g.
  assert (Hg : PhysicalGroup.reachable g) by repeat constructor.
  destruct (PhysicalGroup_membership_invariant g Hg) as (Hk & _ & _ & He & _).
  split; [exact Hg|]. split; [exact Hk|].
  apply He. vm_compute. reflexivity.
Defined.

(** ** The result monad *)

Section ResultFacts.
Context {A B : Type}.

Lemma bind_Ok (a : A) (k : A -> result B) : (Ok a ≫= k) = k a.
Proof. reflexivity. Qed.

Lemma bind_Throw (e : JsError) (k : A -> result B) : (Throw e ≫= k) = Throw e.
Proof. reflexivity. Qed.

Lemma forEach_app (body : B -> A -> result B) xs ys s :
  forEach body (xs ++ ys) s = (forEach body xs s ≫= forEach body ys).
Proof.
  revert s. induction xs as [|x xs IH]; intros s; simpl; [reflexivity|].
  destruct (body s x) as [s'|e]; simpl; [apply IH | reflexivity].
Qed.
End ResultFacts.

(** ** The binary writer *)

Module BinaryWriterFacts.
Import BinaryWriter.

(** The writer of capacity [cap] has stored exactly [written] so far and
    the rest of its buffer is still zero. *)
Definition filled (cap : nat) (written : list byte) (w : t) : Prop :=
  arrayBuffer w = written ++ replicate (cap - length written) Byte.x00
  /\ position w = length written
  /\ length written <= cap
  /\ isLittleEndian w = true.

Lemma filled_new cap : filled cap [] (new cap true).
Proof.
  unfold filled, new; simpl. rewrite Nat.sub_0_r. repeat split; lia.
Qed.

Lemma filled_full cap written w :
  filled cap written w -> length written = cap -> GetBuffer w = written.
Proof.
  intros (Hb & _ & _ & _) Hl. unfold GetBuffer. rewrite Hb, Hl, Nat.sub_diag.
  simpl. apply app_nil_r.
Qed.

Lemma store_filled cap written w bytes :
  filled cap written w ->
  length written + length bytes <= cap ->
  exists w', store w bytes = Ok w' /\ filled cap (written ++ bytes) w'.
Proof.
  intros (Hb & Hp & Hc & He) Hfit. unfold store.
  assert (Hlen : length (arrayBuffer w) = cap).
  { rewrite Hb, length_app, length_replicate. lia. }
  rewrite Hp, Hlen.
  destruct (Nat.leb_spec (length written + length bytes) cap) as [_|]; [|lia].
  eexists. split; [reflexivity|].
  unfold filled; simpl. rewrite length_app. repeat split; [|lia|exact He].
  rewrite Hb, take_app_length.
  rewrite drop_app_ge by lia.
  rewrite drop_replicate.
  rewrite <- app_assoc. do 3 f_equal. lia.
Qed.

Lemma WriteUnsignedInteger32_filled cap written w val :
  filled cap written w ->
  length written + 4 <= cap ->
  exists w', WriteUnsignedInteger32 w val = Ok w'
             /\ filled cap (written ++ le_split 4 val) w'.
Proof.
  intros Hf Hfit. unfold WriteUnsignedInteger32, ordered.
  rewrite (proj2 (proj2 (proj2 Hf))). apply store_filled; [exact Hf|].
  rewrite length_le_split. lia.
Qed.

Lemma WriteUnsignedInteger16_filled cap written w val :
  filled cap written w ->
  length written + 2 <= cap ->
  exists w', WriteUnsignedInteger16 w val = Ok w'
             /\ filled cap (written ++ le_split 2 val) w'.
Proof.
  intros Hf Hfit. unfold WriteUnsignedInteger16, ordered.
  rewrite (proj2 (proj2 (proj2 Hf))). apply store_filled; [exact Hf|].
  rewrite length_le_split. lia.
Qed.

Lemma WriteFloat32_filled `{Geometry} cap written w (val : number) :
  filled cap written w ->
  length written + 4 <= cap ->
  exists w', WriteFloat32 w val = Ok w'
             /\ filled cap (written ++ le_split 4 (setFloat32 val)) w'.
Proof.
  intros Hf Hfit. unfold WriteFloat32, ordered.
  rewrite (proj2 (proj2 (proj2 Hf))). apply store_filled; [exact Hf|].
  rewrite length_le_split. lia.
Qed.

Lemma WriteUnsignedCharacter8_filled cap written w val :
  filled cap written w ->
  length written + 1 <= cap ->
  exists w', WriteUnsignedCharacter8 w val = Ok w'
             /\ filled cap (written ++ [byte.of_Z val]) w'.
Proof.
  intros Hf Hfit. unfold WriteUnsignedCharacter8. by apply store_filled.
Qed.

Lemma WriteArrayBuffer_filled cap written w buffer :
  filled cap written w ->
  length written + length buffer <= cap ->
  exists w', WriteArrayBuffer w buffer = Ok w'
             /\ filled cap (written ++ buffer) w'.
Proof. apply store_filled. Qed.

End BinaryWriterFacts.

(** ** The export filter *)

Module ExporterModelFacts.
Section WithGeometry.
Context `{Geometry}.
Import ExporterModel.

#[local] Abbreviation tri := (Coord3D.t number * Coord3D.t number * Coord3D.t number
                 * Coord3D.t number)%type.

Lemma transformedVertices_length tr mesh :
  length (transformedVertices tr mesh) = length (Mesh.vertices mesh).
Proof.
  unfold transformedVertices. destruct (IsIdentity tr); [reflexivity|].
  apply length_map.
Qed.

(** The triangles of one mesh: what the accumulating loop collects is
    what any callback is fed. *)
Lemma mesh_triangles_collected vertices trs :
  forall (acc l : list tri),
    forEach (fun acc tr => r ← resolveTriangle vertices tr; Ok (acc ++ [r])) trs acc
    = Ok l ->
    exists l', l = acc ++ l' /\ length l' = length trs
               /\ forall (S : Type) onTriangle (s : S),
                    forEach (onMeshTriangle onTriangle vertices) trs s
                    = forEach (applyCallback onTriangle) l' s.
Proof.
  induction trs as [|tr trs IH]; intros acc l; simpl.
  - intros [= <-]. exists []. rewrite app_nil_r. auto.
  - destruct (resolveTriangle vertices tr) as [r|e] eqn:E; simpl; [|discriminate].
    intros Hl. destruct (IH _ _ Hl) as (l' & -> & Hlen & Hcb).
    exists (r :: l'). rewrite <- app_assoc. split; [reflexivity|].
    split; [simpl; lia|].
    intros S onTriangle s. cbn [forEach].
    change (onMeshTriangle onTriangle vertices s tr)
      with (resolveTriangle vertices tr ≫= applyCallback onTriangle s).
    rewrite E, bind_Ok.
    destruct (applyCallback onTriangle s r); [apply Hcb | reflexivity].
Qed.

Lemma instance_triangles_collected em mi l :
  instanceTriangles em mi = Ok l ->
  MeshInstance.TriangleCount mi = Ok (length l)
  /\ forall (S : Type) onTriangle (s : S),
       (mesh ← MeshInstance.GetMesh mi;
        forEach (onMeshTriangle onTriangle
                   (transformedVertices (exportTransformation em mi) mesh))
                (Mesh.triangles mesh) s)
       = forEach (applyCallback onTriangle) l s.
Proof.
  unfold instanceTriangles, MeshInstance.TriangleCount, MeshInstance.GetMesh.
  destruct (MeshInstance.mesh mi) as [mesh|]; simpl; [|discriminate].
  intros Hl. apply mesh_triangles_collected in Hl as (l' & -> & Hlen & Hcb).
  simpl. split; [by rewrite Hlen | exact Hcb].
Qed.

Lemma instances_collected em mis :
  forall (acc l : list tri) (count : nat),
    forEach (fun acc mi => l ← instanceTriangles em mi; Ok (acc ++ l)) mis acc = Ok l ->
    exists l', l = acc ++ l'
               /\ forEach (fun count mi => c ← MeshInstance.TriangleCount mi;
                                           Ok (count + c)) mis count
                  = Ok (count + length l')
               /\ forall (S : Type) onTriangle (s : S),
                    forEach (fun s mi =>
                               mesh ← MeshInstance.GetMesh mi;
                               forEach (onMeshTriangle onTriangle
                                          (transformedVertices
                                             (exportTransformation em mi) mesh))
                                       (Mesh.triangles mesh) s) mis s
                    = forEach (applyCallback onTriangle) l' s.
Proof.
  induction mis as [|mi mis IH]; intros acc l count; simpl.
  - intros [= <-]. exists []. rewrite app_nil_r, Nat.add_0_r. auto.
  - destruct (instanceTriangles em mi) as [li|e] eqn:E; simpl; [|discriminate].
    intros Hl. destruct (IH _ _ (count + length li) Hl) as (l' & -> & Hcount & Hcb).
    destruct (instance_triangles_collected _ _ _ E) as (Hc & Hi).
    exists (li ++ l'). rewrite <- app_assoc. split; [reflexivity|]. split.
    + rewrite Hc. simpl. rewrite Hcount, length_app. f_equal. lia.
    + intros S onTriangle s. rewrite Hi, forEach_app.
      destruct (forEach (applyCallback onTriangle) li s); simpl;
        [apply Hcb | reflexivity].
Qed.

(** When the enumeration does not throw by itself, [TriangleCount] is the
    number of enumerated triangles and every callback sees the list. *)
Lemma enumeration_collected em l :
  trianglesWithNormals em = Ok l ->
  TriangleCount em = Ok (length l)
  /\ forall (S : Type) onTriangle (s : S),
       EnumerateTrianglesWithNormals em onTriangle s
       = forEach (applyCallback onTriangle) l s.
Proof.
  intros Hl. apply (instances_collected em _ _ _ 0) in Hl as (l' & -> & Hc & Hcb).
  split; [exact Hc | exact Hcb].
Qed.

Lemma resolveTriangle_wellFormed vertices tr :
  ((Triangle.v0 tr <? length vertices)%nat
   && (Triangle.v1 tr <? length vertices)%nat
   && (Triangle.v2 tr <? length vertices)%nat) = true ->
  exists r, resolveTriangle vertices tr = Ok r.
Proof.
  rewrite !andb_true_iff, !Nat.ltb_lt. intros [[H0 H1] H2].
  unfold resolveTriangle.
  destruct (lookup_lt_is_Some_2 _ _ H0) as [a ->].
  destruct (lookup_lt_is_Some_2 _ _ H1) as [b ->].
  destruct (lookup_lt_is_Some_2 _ _ H2) as [c ->]. eauto.
Qed.

Lemma mesh_triangles_wellFormed vertices trs :
  forallb (fun tr => (Triangle.v0 tr <? length vertices)%nat
                     && (Triangle.v1 tr <? length vertices)%nat
                     && (Triangle.v2 tr <? length vertices)%nat) trs = true ->
  forall acc : list tri,
    exists l,
      forEach (fun acc tr => r ← resolveTriangle vertices tr; Ok (acc ++ [r])) trs acc
      = Ok l.
Proof.
  induction trs as [|tr trs IH]; simpl; intros Hwf acc; [eauto|].
  apply andb_true_iff in Hwf as [Htr Hwf].
  destruct (resolveTriangle_wellFormed _ _ Htr) as [r ->]. simpl. by apply IH.
Qed.

Lemma instance_wellFormed em mi mesh :
  MeshInstance.mesh mi = Some mesh ->
  Mesh.wellFormed mesh = true ->
  exists l, instanceTriangles em mi = Ok l.
Proof.
  intros Hmesh Hwf. unfold instanceTriangles, MeshInstance.GetMesh.
  rewrite Hmesh, bind_Ok. unfold Mesh.wellFormed in Hwf.
  rewrite <- (transformedVertices_length (exportTransformation em mi)) in Hwf.
  exact (mesh_triangles_wellFormed _ _ Hwf []).
Qed.

Lemma instances_wellFormed em mis :
  forallb (fun mi => match MeshInstance.mesh mi with
                     | Some mesh => Mesh.wellFormed mesh
                     | None => false
                     end) mis = true ->
  forall acc : list tri,
    exists l,
      forEach (fun acc mi => l ← instanceTriangles em mi; Ok (acc ++ l)) mis acc = Ok l.
Proof.
  induction mis as [|mi mis IH]; cbn [forallb forEach]; intros Hwf acc; [eauto|].
  apply andb_true_iff in Hwf as [Hmi Hwf].
  destruct (MeshInstance.mesh mi) as [mesh|] eqn:Hmesh; [|discriminate].
  destruct (instance_wellFormed em _ _ Hmesh Hmi) as [l ->].
  rewrite !bind_Ok. by apply IH.
Qed.

(** On a well-formed exporter model the enumeration does not throw. *)
Lemma wellFormed_enumerates em :
  wellFormed em = true -> exists l, trianglesWithNormals em = Ok l.
Proof. intros Hwf. by apply instances_wellFormed. Qed.

End WithGeometry.
End ExporterModelFacts.

(** ** The binary triangle-soup encoder *)

Module ExporterStlFacts.
Section WithGeometry.
Context `{Geometry}.
Import BinaryWriterFacts ExporterStl StlLayout.

#[local] Abbreviation tri := (Coord3D.t number * Coord3D.t number * Coord3D.t number
                              * Coord3D.t number)%type.

Lemma length_coordBytes (c : Coord3D.t number) : length (coordBytes c) = 12.
Proof. unfold coordBytes. rewrite !length_app, !length_le_split. reflexivity. Qed.

Lemma length_triangleRecord (r : tri) : length (triangleRecord r) = 50.
Proof.
  destruct r as [[[v0 v1] v2] normal]. unfold triangleRecord.
  rewrite !length_app, !length_coordBytes, length_le_split. reflexivity.
Qed.

Lemma length_records (tris : list tri) :
  length (flat_map triangleRecord tris) = 50 * length tris.
Proof.
  induction tris as [|r tris IH]; [reflexivity|].
  cbn [flat_map]. rewrite length_app, length_triangleRecord, IH. simpl. lia.
Qed.

Lemma length_binaryStl (tris : list tri) :
  length (binaryStl tris) = 80 + 4 + 50 * length tris.
Proof.
  unfold binaryStl.
  rewrite !length_app, length_replicate, length_le_split, length_records. lia.
Qed.

Lemma WriteCharacters_filled cap char count :
  forall written w,
    filled cap written w ->
    length written + count <= cap ->
    exists w', WriteCharacters w char count = Ok w'
               /\ filled cap (written ++ replicate count (byte.of_Z char)) w'.
Proof.
  induction count as [|count IH]; intros written w Hf Hfit; simpl.
  - rewrite app_nil_r. eauto.
  - destruct (WriteUnsignedCharacter8_filled cap written w char Hf) as (w1 & -> & Hf1);
      [lia|].
    rewrite bind_Ok.
    destruct (IH _ _ Hf1) as (w2 & -> & Hf2); [rewrite length_app; simpl; lia|].
    exists w2. split; [reflexivity|]. by rewrite <- app_assoc in Hf2.
Qed.

Lemma WriteCoord3D_filled cap written w (c : Coord3D.t number) :
  filled cap written w ->
  length written + 12 <= cap ->
  exists w', WriteCoord3D w c = Ok w' /\ filled cap (written ++ coordBytes c) w'.
Proof.
  intros Hf Hfit. unfold WriteCoord3D, coordBytes.
  destruct (WriteFloat32_filled cap _ w (Coord3D.x c) Hf) as (w1 & -> & Hf1); [lia|].
  rewrite bind_Ok.
  destruct (WriteFloat32_filled cap _ w1 (Coord3D.y c) Hf1) as (w2 & -> & Hf2);
    [rewrite length_app, length_le_split; lia|].
  rewrite bind_Ok.
  destruct (WriteFloat32_filled cap _ w2 (Coord3D.z c) Hf2) as (w3 & -> & Hf3);
    [rewrite !length_app, !length_le_split; lia|].
  exists w3. split; [reflexivity|]. by rewrite <- !app_assoc in Hf3.
Qed.

Lemma writeBinaryTriangle_filled cap written w k (r : tri) :
  filled cap written w ->
  length written + 50 <= cap ->
  exists w', ExporterModel.applyCallback writeBinaryTriangle (w, k) r = Ok (w', S k)
             /\ filled cap (written ++ triangleRecord r) w'.
Proof.
  intros Hf Hfit. destruct r as [[[v0 v1] v2] normal].
  unfold ExporterModel.applyCallback, writeBinaryTriangle, triangleRecord.
  destruct (WriteCoord3D_filled cap _ w normal Hf) as (w1 & -> & Hf1); [lia|].
  rewrite bind_Ok.
  destruct (WriteCoord3D_filled cap _ w1 v0 Hf1) as (w2 & -> & Hf2);
    [rewrite length_app, length_coordBytes; lia|].
  rewrite bind_Ok.
  destruct (WriteCoord3D_filled cap _ w2 v1 Hf2) as (w3 & -> & Hf3);
    [rewrite !length_app, !length_coordBytes; lia|].
  rewrite bind_Ok.
  destruct (WriteCoord3D_filled cap _ w3 v2 Hf3) as (w4 & -> & Hf4);
    [rewrite !length_app, !length_coordBytes; lia|].
  rewrite bind_Ok.
  destruct (WriteUnsignedInteger16_filled cap _ w4 0 Hf4) as (w5 & -> & Hf5);
    [rewrite !length_app, !length_coordBytes; lia|].
  rewrite bind_Ok.
  exists w5. split; [reflexivity|]. by rewrite <- !app_assoc in Hf5.
Qed.

Lemma write_triangles_filled cap (tris : list tri) :
  forall written w k,
    filled cap written w ->
    length written + 50 * length tris <= cap ->
    exists w',
      forEach (ExporterModel.applyCallback writeBinaryTriangle) tris (w, k)
      = Ok (w', k + length tris)
      /\ filled cap (written ++ flat_map triangleRecord tris) w'.
Proof.
  induction tris as [|r tris IH]; intros written w k Hf Hfit.
  - exists w. simpl. rewrite app_nil_r, Nat.add_0_r. auto.
  - cbn [forEach flat_map length] in *.
    destruct (writeBinaryTriangle_filled cap written w k r Hf) as (w1 & -> & Hf1);
      [lia|].
    rewrite bind_Ok.
    destruct (IH _ w1 (S k) Hf1) as (w2 & -> & Hf2);
      [rewrite length_app, length_triangleRecord; lia|].
    exists w2. split; [f_equal; f_equal; lia|]. by rewrite <- app_assoc in Hf2.
Qed.

(** The encoder writes the prescribed layout for the enumerated
    triangles. *)
Lemma ExportBinaryForModel_layout em files fileName (tris : list tri) :
  ExporterModel.trianglesWithNormals em = Ok tris ->
  ExportBinaryForModel em files fileName
  = Ok (files ++ [ExportedFile.mk fileName (Some (binaryStl tris))]).
Proof.
  intros Htris.
  destruct (ExporterModelFacts.enumeration_collected em tris Htris) as (Hcount & Henum).
  unfold ExportBinaryForModel. rewrite Hcount, bind_Ok.
  set (n := length tris).
  assert (Hn : (if (n <=? 0)%nat then 0 else n) = n).
  { destruct (Nat.leb_spec n 0); lia. }
  rewrite Hn. set (cap := 80 + 4 + n * 50).
  destruct (WriteCharacters_filled cap 0 80 [] _ (filled_new cap)) as (w1 & -> & Hf1);
    [simpl; lia|].
  rewrite bind_Ok.
  destruct (WriteUnsignedInteger32_filled cap _ w1 (Z.of_nat n) Hf1) as (w2 & -> & Hf2);
    [rewrite length_app, length_replicate; simpl; lia|].
  rewrite bind_Ok, Henum.
  destruct (write_triangles_filled cap tris _ w2 0 Hf2) as (w3 & -> & Hf3).
  { rewrite !length_app, length_replicate, length_le_split. subst cap n. simpl. lia. }
  rewrite bind_Ok. cbn [fst]. do 3 f_equal.
  assert (Hbuf : BinaryWriter.GetBuffer w3 = binaryStl tris).
  { change (byte.of_Z 0) with Byte.x00 in Hf3. rewrite <- !app_assoc in Hf3.
    apply (filled_full cap); [exact Hf3|].
    change (length (binaryStl tris) = cap). rewrite length_binaryStl. subst cap n. lia. }
  rewrite Hbuf. unfold ExportedFile.SetBufferContent, ExportedFile.new.
  rewrite length_binaryStl. reflexivity.
Qed.

Lemma declaredTriangleCount_binaryStl (tris : list tri) :
  declaredTriangleCount (binaryStl tris) = (Z.of_nat (length tris) mod 2 ^ 32)%Z.
Proof.
  unfold declaredTriangleCount, binaryStl.
  rewrite drop_app_length' by (symmetry; apply length_replicate).
  rewrite take_app_length' by (symmetry; apply length_le_split).
  apply le_combine_split.
Qed.

Lemma chunks_records (tris : list tri) :
  chunks 50 (length tris) (flat_map triangleRecord tris) = map triangleRecord tris.
Proof.
  induction tris as [|r tris IH]; [reflexivity|].
  cbn [length chunks flat_map map].
  rewrite take_app_length' by (symmetry; apply length_triangleRecord).
  rewrite drop_app_length' by (symmetry; apply length_triangleRecord).
  by rewrite IH.
Qed.

(** Reading back what the layout prescribes returns the records. *)
Lemma ParseBinaryStl_binaryStl (tris : list tri) :
  (Z.of_nat (length tris) < 2 ^ 32)%Z ->
  ParseBinaryStl (binaryStl tris) = Some (map triangleRecord tris).
Proof.
  intros Hlt. unfold ParseBinaryStl.
  rewrite declaredTriangleCount_binaryStl, Z.mod_small, Nat2Z.id by lia.
  rewrite length_binaryStl.
  destruct (Nat.ltb_spec (80 + 4 + 50 * length tris) 84); [lia|].
  rewrite Nat.eqb_refl.
  unfold binaryStl. rewrite app_assoc.
  rewrite drop_app_length'
    by (rewrite length_app, length_replicate, length_le_split; reflexivity).
  by rewrite chunks_records.
Qed.

End WithGeometry.
End ExporterStlFacts.

(** C3: for every filtered model that is well formed and has [n] triangles
    ([n] below 2^32, the range of the count field), the binary
    triangle-soup encoder adds one artifact of exactly 80 + 4 + 50 × n
    bytes: 80 zero bytes, the little-endian uint32 [n], then per triangle
    the normal and the three corners as float32 and a uint16 attribute
    byte count of 0; reading the artifact back yields the [n] records.  For
    the cube of 8 vertices and 12 triangles the artifact has 684 bytes and
    reading it back yields exactly 12 triangles. *)
Theorem ExportBinaryForModel_byte_layout :
  forall (G : Geometry),
    (forall (em : ExporterModel.t) (files : list ExportedFile.t) (fileName : string)
            (n : nat),
        ExporterModel.wellFormed em = true ->
        ExporterModel.TriangleCount em = Ok n ->
        (Z.of_nat n < 2 ^ 32)%Z ->
        exists tris bytes,
          ExporterModel.trianglesWithNormals em = Ok tris
          /\ length tris = n
          /\ ExporterStl.ExportBinaryForModel em files fileName
             = Ok (files ++ [ExportedFile.mk fileName (Some bytes)])
          /\ length bytes = 80 + 4 + 50 * n
          /\ take 80 bytes = replicate 80 Byte.x00
          /\ take 4 (drop 80 bytes) = le_split 4 (Z.of_nat n)
          /\ StlLayout.declaredTriangleCount bytes = Z.of_nat n
          /\ drop 84 bytes = flat_map StlLayout.triangleRecord tris
          /\ Forall (fun r => exists v0 v1 v2 normal,
                        r = StlLayout.coordBytes normal ++ StlLayout.coordBytes v0
                            ++ StlLayout.coordBytes v1 ++ StlLayout.coordBytes v2
                            ++ le_split 2 0
                        /\ length r = 50)
                    (map StlLayout.triangleRecord tris)
          /\ StlLayout.ParseBinaryStl bytes = Some (map StlLayout.triangleRecord tris))
    /\ (forall (files : list ExportedFile.t) (fileName groupName : string),
          let cube := ExporterModel.mk (ExporterStl.testCubeModel groupName)
                                       ExporterSettings.new in
          Model.MeshCount (ExporterModel.model cube) = 1
          /\ option_map Mesh.VertexCount (Model.GetMesh (ExporterModel.model cube) 0)
             = Some 8
          /\ ExporterModel.TriangleCount cube = Ok 12
          /\ exists bytes records,
               ExporterStl.ExportBinaryForModel cube files fileName
               = Ok (files ++ [ExportedFile.mk fileName (Some bytes)])
               /\ length bytes = 684
               /\ StlLayout.ParseBinaryStl bytes = Some records
               /\ length records = 12).
Proof.
  intros G.
  assert (General :
    forall (em : ExporterModel.t) (files : list ExportedFile.t) (fileName : string)
           (n : nat),
      ExporterModel.wellFormed em = true ->
      ExporterModel.TriangleCount em = Ok n ->
      (Z.of_nat n < 2 ^ 32)%Z ->
      exists tris,
        ExporterModel.trianglesWithNormals em = Ok tris
        /\ length tris = n
        /\ ExporterStl.ExportBinaryForModel em files fileName
           = Ok (files ++ [ExportedFile.mk fileName (Some (StlLayout.binaryStl tris))])
        /\ StlLayout.ParseBinaryStl (StlLayout.binaryStl tris)
           = Some (map StlLayout.triangleRecord tris)).
  { intros em files fileName n Hwf Hcount Hn.
    destruct (ExporterModelFacts.wellFormed_enumerates em Hwf) as [tris Htris].
    destruct (ExporterModelFacts.enumeration_collected em tris Htris) as (Hc & _).
    assert (Hlen : length tris = n) by congruence.
    exists tris. split; [exact Htris|]. split; [exact Hlen|]. split.
    - by apply ExporterStlFacts.ExportBinaryForModel_layout.
    - apply ExporterStlFacts.ParseBinaryStl_binaryStl. by rewrite Hlen. }
  split.
  - intros em files fileName n Hwf Hcount Hn.
    destruct (General em files fileName n Hwf Hcount Hn) as (tris & Htris & Hlen & Hexp & Hparse).
    exists tris, (StlLayout.binaryStl tris).
    split; [exact Htris|]. split; [exact Hlen|]. split; [exact Hexp|].
    split; [|split; [|split; [|split; [|split; [|split; [|exact Hparse]]]]]].
    + rewrite ExporterStlFacts.length_binaryStl. by rewrite Hlen.
    + reflexivity.
    + unfold StlLayout.binaryStl.
      rewrite drop_app_length' by (symmetry; apply length_replicate).
      rewrite take_app_length' by (symmetry; apply length_le_split). by rewrite Hlen.
    + rewrite ExporterStlFacts.declaredTriangleCount_binaryStl, Hlen.
      apply Z.mod_small. lia.
    + unfold StlLayout.binaryStl. rewrite app_assoc.
      apply drop_app_length'.
      rewrite length_app, length_replicate, length_le_split. reflexivity.
    + apply Forall_forall. intros r Hr. apply list_elem_of_In, in_map_iff in Hr.
      destruct Hr as ([[[v0 v1] v2] normal] & <- & _).
      exists v0, v1, v2, normal. split; [reflexivity|].
      apply (ExporterStlFacts.length_triangleRecord (v0, v1, v2, normal)).
  - intros files fileName groupName cube.
    assert (Hcount : ExporterModel.TriangleCount cube = Ok 12) by reflexivity.
    split; [reflexivity|]. split; [reflexivity|]. split; [exact Hcount|].
    destruct (General cube files fileName 12) as (tris & Htris & Hlen & Hexp & Hparse);
      [reflexivity | exact Hcount | reflexivity |].
    exists (StlLayout.binaryStl tris), (map StlLayout.triangleRecord tris).
    split; [exact Hexp|]. split; [|split; [exact Hparse|]].
    + rewrite ExporterStlFacts.length_binaryStl. by rewrite Hlen.
    + rewrite length_map. exact Hlen.
Qed.

Lemma ExportBinaryForModel_byte_layout_witness :
  let cube := ExporterModel.mk (ExporterStl.testCubeModel "cube")
                               (ExporterSettings.new (H := IntGeometry.geometry)) in
  ExporterModel.wellFormed cube = true
  /\ ExporterModel.TriangleCount cube = Ok 12
  /\ (Z.of_nat 12 < 2 ^ 32)%Z
  /\ exists bytes,
       ExporterStl.ExportBinaryForModel cube [] "cube.stl"
       = Ok [ExportedFile.mk "cube.stl" (Some bytes)]
       /\ length bytes = 684
       /\ StlLayout.declaredTriangleCount bytes = 12%Z.
Proof.
  intros cube.
  assert (Hwf : ExporterModel.wellFormed cube = true) by (vm_compute; reflexivity).
  assert (Hcount : ExporterModel.TriangleCount cube = Ok 12) by (vm_compute; reflexivity).
  assert (Hn : (Z.of_nat 12 < 2 ^ 32)%Z) by (vm_compute; reflexivity).
  split; [exact Hwf|]. split; [exact Hcount|]. split; [exact Hn|].
  destruct (proj1 (ExportBinaryForModel_byte_layout IntGeometry.geometry)
                  cube [] "cube.stl" 12 Hwf Hcount Hn)
    as (tris & bytes & _ & _ & Hexp & Hlen & _ & _ & Hdecl & _).
  exists bytes. split; [exact Hexp|]. split; [exact Hlen | exact Hdecl].
Defined.

(** ** The scene model *)

Module ModelFacts.
Section WithGeometry.
Context `{Geometry}.

Lemma length_nodeMeshInstances (m : Model.t) n :
  length (Model.nodeMeshInstances m n) = Node.MeshIndexCount (fst n).
Proof. unfold Model.nodeMeshInstances. apply length_map. Qed.

Lemma count_fold (m : Model.t) (nodes : list (Node.t * list Transformation)) :
  forall count,
    fold_left (fun count n => count + Node.MeshIndexCount (fst n)) nodes count
    = count + length (flat_map (Model.nodeMeshInstances m) nodes).
Proof.
  induction nodes as [|n nodes IH]; intros count; cbn [fold_left flat_map].
  - simpl. lia.
  - rewrite IH, length_app, length_nodeMeshInstances. lia.
Qed.

(** The count computed by [MeshInstanceCount] is the number of instances
    [EnumerateMeshInstances] visits. *)
Lemma MeshInstanceCount_enumerated (m : Model.t) :
  Model.MeshInstanceCount m = length (Model.EnumerateMeshInstances m).
Proof. unfold Model.MeshInstanceCount. by rewrite (count_fold m). Qed.

Lemma no_instances (m : Model.t) :
  Model.MeshInstanceCount m = 0 -> Model.EnumerateMeshInstances m = [].
Proof.
  rewrite MeshInstanceCount_enumerated. intros Hlen.
  by destruct (Model.EnumerateMeshInstances m).
Qed.

End WithGeometry.
End ModelFacts.

(** C7: exporting a model with zero mesh instances, with no group export
    selected, returns exactly one minimal valid artifact for each
    triangle-soup format and does not throw: for the text variant the
    envelope [solid Model] / [endsolid Model] with no facet between, for the
    binary variant a file of 84 bytes (80 zero bytes and the count 0) that
    reads back as zero triangles. *)
Theorem Export_empty_model :
  forall (G : Geometry) (em : ExporterModel.t),
    Model.MeshInstanceCount (ExporterModel.model em) = 0 ->
    ExporterStl.truthy
      (ExporterSettings.exportPhysicalGroups (ExporterModel.settings em)) = false ->
    ExporterStl.Export em Text
    = Ok (ExporterStl.Finished
            [ExportedFile.mk "model.stl"
               (Some (Utf8StringToArrayBuffer
                        ("solid Model" +:+ LF +:+ "endsolid Model" +:+ LF)))])
    /\ exists bytes,
         ExporterStl.Export em Binary
         = Ok (ExporterStl.Finished [ExportedFile.mk "model.stl" (Some bytes)])
         /\ bytes = replicate 80 Byte.x00 ++ le_split 4 0
         /\ length bytes = 84
         /\ StlLayout.declaredTriangleCount bytes = 0%Z
         /\ StlLayout.ParseBinaryStl bytes = Some [].
Proof.
  intros G em Hnone Hplain.
  pose proof (ModelFacts.no_instances _ Hnone) as Hinst.
  assert (Hvisible : ExporterModel.EnumerateMeshInstances em = []).
  { unfold ExporterModel.EnumerateMeshInstances. by rewrite Hinst. }
  assert (Hcount : Model.TriangleCount (ExporterModel.model em) = Ok 0).
  { unfold Model.TriangleCount. by rewrite Hinst. }
  assert (Hcount' : ExporterModel.TriangleCount em = Ok 0).
  { unfold ExporterModel.TriangleCount. by rewrite Hvisible. }
  unfold ExporterStl.Export, ExporterStl.ExportContent.
  unfold ExporterModel.GetModel. rewrite Hcount, Hplain. cbn [andb]. rewrite !bind_Ok.
  split.
  - unfold ExporterStl.ExportText, ExporterStl.ExportTextForModel.
    unfold ExporterModel.EnumerateTrianglesWithNormals.
    rewrite Hcount', Hvisible. reflexivity.
  - eexists. split; [|split; [reflexivity|split; [reflexivity|split; reflexivity]]].
    unfold ExporterStl.ExportBinary, ExporterStl.ExportBinaryForModel.
    unfold ExporterModel.EnumerateTrianglesWithNormals.
    rewrite Hcount', Hvisible. reflexivity.
Qed.

Lemma Export_empty_model_witness :
  let em := ExporterModel.mk (Model.new (H := IntGeometry.geometry)) ExporterSettings.new in
  Model.MeshInstanceCount (ExporterModel.model em) = 0
  /\ ExporterStl.Export em Text
     = Ok (ExporterStl.Finished
             [ExportedFile.mk "model.stl"
                (Some (Utf8StringToArrayBuffer
                         ("solid Model" +:+ LF +:+ "endsolid Model" +:+ LF)))]).
Proof.
  intros em. split; [reflexivity|].
  exact (proj1 (Export_empty_model IntGeometry.geometry em eq_refl eq_refl)).
Defined.

(** ** The chunked binary scene encoder *)

Module ExporterGltfFacts.
Import BinaryWriterFacts ExporterGltf.

Lemma AlignToBoundary_ge size : size <= AlignToBoundary size.
Proof. unfold AlignToBoundary. destruct (size mod 4 =? 0)%nat; lia. Qed.

Lemma AlignToBoundary_lt size : AlignToBoundary size < size + 4.
Proof.
  unfold AlignToBoundary. pose proof (Nat.mod_upper_bound size 4).
  destruct (Nat.eqb_spec (size mod 4) 0); lia.
Qed.

Lemma AlignToBoundary_aligned size : AlignToBoundary size mod 4 = 0.
Proof.
  unfold AlignToBoundary. pose proof (Nat.mod_upper_bound size 4).
  destruct (Nat.eqb_spec (size mod 4) 0) as [E|E]; [exact E|].
  pose proof (Nat.div_mod_eq size 4).
  replace (size + (4 - size mod 4)) with ((size / 4 + 1) * 4) by lia.
  apply Nat.Div0.mod_mul.
Qed.

Lemma AlignToBoundary_fixed size : size mod 4 = 0 -> AlignToBoundary size = size.
Proof. intros E. unfold AlignToBoundary. by rewrite E. Qed.

Lemma WriteCharacters_padding cap char count :
  forall written w,
    filled cap written w ->
    length written + count <= cap ->
    exists w', WriteCharacters w char count = Ok w'
               /\ filled cap (written ++ replicate count (byte.of_Z char)) w'.
Proof.
  induction count as [|count IH]; intros written w Hf Hfit; simpl.
  - rewrite app_nil_r. eauto.
  - destruct (WriteUnsignedCharacter8_filled cap written w char Hf) as (w1 & -> & Hf1);
      [lia|].
    rewrite bind_Ok.
    destruct (IH _ _ Hf1) as (w2 & -> & Hf2); [rewrite length_app; simpl; lia|].
    exists w2. split; [reflexivity|]. by rewrite <- app_assoc in Hf2.
Qed.

Lemma texture_lengths (textures : list (list byte)) :
  forall len,
    fold_left (fun len textureBuffer => len + length textureBuffer) textures len
    = len + length (concat textures).
Proof.
  induction textures as [|t textures IH]; intros len; simpl; [lia|].
  rewrite IH, length_app. lia.
Qed.

Lemma write_textures_filled cap (textures : list (list byte)) :
  forall written w,
    filled cap written w ->
    length written + length (concat textures) <= cap ->
    exists w', forEach BinaryWriter.WriteArrayBuffer textures w = Ok w'
               /\ filled cap (written ++ concat textures) w'.
Proof.
  induction textures as [|t textures IH]; intros written w Hf Hfit; simpl in *.
  - rewrite app_nil_r. eauto.
  - rewrite length_app in Hfit.
    destruct (WriteArrayBuffer_filled cap written w t Hf) as (w1 & -> & Hf1); [lia|].
    rewrite bind_Ok.
    destruct (IH _ _ Hf1) as (w2 & -> & Hf2); [rewrite length_app; lia|].
    exists w2. split; [reflexivity|]. by rewrite <- app_assoc in Hf2.
Qed.

Lemma length_glbLayout parts : length (glbLayout parts) = glbSize parts.
Proof.
  unfold glbLayout, glbSize, jsonChunkLength, binChunkLength.
  rewrite !length_app, !length_le_split, !length_replicate.
  pose proof (AlignToBoundary_ge (length (jsonPayload parts))).
  pose proof (AlignToBoundary_ge (length (binaryPayload parts))). lia.
Qed.

(** The encoder writes the container layout, whatever the parts. *)
Lemma ExportBinaryContent_layout parts files :
  ExportBinaryContent parts files
  = Ok (files ++ [ExportedFile.mk "model.glb" (Some (glbLayout parts))]).
Proof.
  unfold ExportBinaryContent. cbv zeta.
  rewrite !texture_lengths, <- !length_app.
  fold (binaryPayload parts). fold (binChunkLength parts).
  change (mainJsonBuffer parts (binChunkLength parts)) with (jsonPayload parts).
  fold (jsonChunkLength parts). fold (glbSize parts).
  pose proof (AlignToBoundary_ge (length (jsonPayload parts))) as Hj.
  pose proof (AlignToBoundary_ge (length (binaryPayload parts))) as Hb.
  fold (jsonChunkLength parts) in Hj. fold (binChunkLength parts) in Hb.
  assert (Hbin : length (binaryPayload parts)
                 = length (mainBuffer parts) + length (concat (textureBuffers parts))).
  { unfold binaryPayload. apply length_app. }
  set (cap := glbSize parts).
  assert (Hcap : cap = 12 + 8 + jsonChunkLength parts + 8 + binChunkLength parts)
    by reflexivity.
  destruct (WriteUnsignedInteger32_filled cap [] _ 0x46546C67 (filled_new cap))
    as (w1 & -> & F1); [simpl; lia|]. rewrite bind_Ok.
  destruct (WriteUnsignedInteger32_filled cap _ w1 2 F1) as (w2 & -> & F2);
    [rewrite ?length_app, ?length_le_split; simpl; lia|]. rewrite bind_Ok.
  destruct (WriteUnsignedInteger32_filled cap _ w2 (Z.of_nat cap) F2) as (w3 & -> & F3);
    [rewrite ?length_app, ?length_le_split; simpl; lia|]. rewrite bind_Ok.
  destruct (WriteUnsignedInteger32_filled cap _ w3
              (Z.of_nat (jsonChunkLength parts)) F3) as (w4 & -> & F4);
    [rewrite ?length_app, ?length_le_split; simpl; lia|]. rewrite bind_Ok.
  destruct (WriteUnsignedInteger32_filled cap _ w4 0x4E4F534A F4) as (w5 & -> & F5);
    [rewrite ?length_app, ?length_le_split; simpl; lia|]. rewrite bind_Ok.
  destruct (WriteArrayBuffer_filled cap _ w5 (jsonPayload parts) F5) as (w6 & -> & F6);
    [rewrite ?length_app, ?length_le_split; simpl; lia|]. rewrite bind_Ok.
  destruct (WriteCharacters_padding cap 32
              (jsonChunkLength parts - length (jsonPayload parts)) _ w6 F6)
    as (w7 & -> & F7);
    [rewrite ?length_app, ?length_le_split; simpl; lia|]. rewrite bind_Ok.
  destruct (WriteUnsignedInteger32_filled cap _ w7
              (Z.of_nat (binChunkLength parts)) F7) as (w8 & -> & F8);
    [rewrite ?length_app, ?length_le_split, ?length_replicate; simpl; lia|].
  rewrite bind_Ok.
  destruct (WriteUnsignedInteger32_filled cap _ w8 0x004E4942 F8) as (w9 & -> & F9);
    [rewrite ?length_app, ?length_le_split, ?length_replicate; simpl; lia|].
  rewrite bind_Ok.
  destruct (WriteArrayBuffer_filled cap _ w9 (mainBuffer parts) F9) as (w10 & -> & F10);
    [rewrite ?length_app, ?length_le_split, ?length_replicate; simpl; lia|].
  rewrite bind_Ok.
  destruct (write_textures_filled cap (textureBuffers parts) _ w10 F10)
    as (w11 & -> & F11);
    [rewrite ?length_app, ?length_le_split, ?length_replicate; simpl; lia|].
  rewrite bind_Ok.
  destruct (WriteCharacters_padding cap 0
              (binChunkLength parts - length (binaryPayload parts)) _ w11 F11)
    as (w12 & -> & F12);
    [rewrite ?length_app, ?length_le_split, ?length_replicate; simpl; lia|].
  rewrite bind_Ok. do 3 f_equal.
  assert (Hbuf : BinaryWriter.GetBuffer w12 = glbLayout parts).
  { apply (filled_full cap).
    - change (byte.of_Z 0) with Byte.x00 in F12.
      change (byte.of_Z 32) with Byte.x20 in F12.
      unfold glbLayout, binaryPayload. fold (binaryPayload parts).
      rewrite <- !app_assoc in F12. simpl in F12. simpl.
      unfold binaryPayload in F12 |- *. rewrite <- !app_assoc. exact F12.
    - apply length_glbLayout. }
  rewrite Hbuf. unfold ExportedFile.SetBufferContent, ExportedFile.new.
  rewrite length_glbLayout. reflexivity.
Qed.

Lemma readUint32_at (pre rest : list byte) (v : Z) (offset : nat) :
  length pre = offset ->
  readUint32 (pre ++ le_split 4 v ++ rest) offset = (v mod 2 ^ 32)%Z.
Proof.
  intros <-. unfold readUint32.
  rewrite drop_app_length.
  rewrite take_app_length' by (symmetry; apply length_le_split).
  apply le_combine_split.
Qed.

End ExporterGltfFacts.

(** C4: for every model (whatever mesh buffer, textures and JSON document
    it yields) whose container fits the uint32 length fields, the chunked
    binary scene encoder produces one file whose byte length is a multiple
    of 4 and equals the total length declared in its header; the 12-byte
    header holds the magic constant, the version 2 and that length; the
    declared lengths of the JSON chunk and of the binary chunk are each a
    multiple of 4; each chunk carries its type tag; the JSON payload is
    padded to its declared length with fewer than 4 spaces and the binary
    payload with fewer than 4 zero bytes. *)
Theorem ExportBinaryContent_container :
  forall (parts : ExporterGltf.BinaryParts) (files : list ExportedFile.t),
    (Z.of_nat (ExporterGltf.glbSize parts) < 2 ^ 32)%Z ->
    exists bytes,
      ExporterGltf.ExportBinaryContent parts files
      = Ok (files ++ [ExportedFile.mk "model.glb" (Some bytes)])
      /\ length bytes mod 4 = 0
      /\ ExporterGltf.readUint32 bytes 0 = 0x46546C67%Z
      /\ ExporterGltf.readUint32 bytes 4 = 2%Z
      /\ ExporterGltf.readUint32 bytes 8 = Z.of_nat (length bytes)
      /\ (let json := ExporterGltf.jsonPayload parts in
          let jsonLength := ExporterGltf.jsonChunkLength parts in
          ExporterGltf.readUint32 bytes 12 = Z.of_nat jsonLength
          /\ jsonLength mod 4 = 0
          /\ ExporterGltf.readUint32 bytes 16 = 0x4E4F534A%Z
          /\ length json <= jsonLength < length json + 4
          /\ take jsonLength (drop 20 bytes)
             = json ++ replicate (jsonLength - length json) Byte.x20)
      /\ (let bin := ExporterGltf.binaryPayload parts in
          let jsonLength := ExporterGltf.jsonChunkLength parts in
          let binLength := ExporterGltf.binChunkLength parts in
          ExporterGltf.readUint32 bytes (20 + jsonLength) = Z.of_nat binLength
          /\ binLength mod 4 = 0
          /\ ExporterGltf.readUint32 bytes (24 + jsonLength) = 0x004E4942%Z
          /\ length bin <= binLength < length bin + 4
          /\ drop (28 + jsonLength) bytes
             = bin ++ replicate (binLength - length bin) Byte.x00).
Proof.
  intros parts files Hsize.
  exists (ExporterGltf.glbLayout parts).
  split; [apply ExporterGltfFacts.ExportBinaryContent_layout|].
  pose proof (ExporterGltfFacts.AlignToBoundary_ge
                (length (ExporterGltf.jsonPayload parts))) as Hj.
  pose proof (ExporterGltfFacts.AlignToBoundary_lt
                (length (ExporterGltf.jsonPayload parts))) as Hj'.
  pose proof (ExporterGltfFacts.AlignToBoundary_aligned
                (length (ExporterGltf.jsonPayload parts))) as Hja.
  pose proof (ExporterGltfFacts.AlignToBoundary_ge
                (length (ExporterGltf.binaryPayload parts))) as Hb.
  pose proof (ExporterGltfFacts.AlignToBoundary_lt
                (length (ExporterGltf.binaryPayload parts))) as Hb'.
  pose proof (ExporterGltfFacts.AlignToBoundary_aligned
                (length (ExporterGltf.binaryPayload parts))) as Hba.
  fold (ExporterGltf.jsonChunkLength parts) in Hj, Hj', Hja.
  fold (ExporterGltf.binChunkLength parts) in Hb, Hb', Hba.
  rewrite ExporterGltfFacts.length_glbLayout.
  assert (Hglb : ExporterGltf.glbSize parts
                 = 12 + 8 + ExporterGltf.jsonChunkLength parts + 8
                   + ExporterGltf.binChunkLength parts) by reflexivity.
  set (j := ExporterGltf.jsonChunkLength parts) in *.
  set (b := ExporterGltf.binChunkLength parts) in *.
  unfold ExporterGltf.glbLayout. fold j. fold b.
  set (json := ExporterGltf.jsonPayload parts) in *.
  set (bin := ExporterGltf.binaryPayload parts) in *.
  set (jpad := replicate (j - length json) Byte.x20).
  set (bpad := replicate (b - length bin) Byte.x00).
  set (size := ExporterGltf.glbSize parts) in *.
  set (h1 := le_split 4 1179937895).
  set (h2 := le_split 4 2).
  set (h3 := le_split 4 (Z.of_nat size)).
  set (j1 := le_split 4 (Z.of_nat j)).
  set (j2 := le_split 4 1313821514).
  set (b1 := le_split 4 (Z.of_nat b)).
  set (b2 := le_split 4 5130562).
  assert (L : length h1 = 4 /\ length h2 = 4 /\ length h3 = 4 /\ length j1 = 4
              /\ length j2 = 4 /\ length b1 = 4 /\ length b2 = 4
              /\ length jpad = j - length json /\ length bpad = b - length bin).
  { subst h1 h2 h3 j1 j2 b1 b2 jpad bpad.
    rewrite !length_le_split, !length_replicate. tauto. }
  destruct L as (L1 & L2 & L3 & L4 & L5 & L6 & L7 & L8 & L9).
  split.
  { rewrite Hglb. rewrite <- Nat.Div0.add_mod_idemp_r, Hba, Nat.add_0_r.
    replace (12 + 8 + j + 8) with (j + 7 * 4) by lia.
    by rewrite Nat.Div0.mod_add. }
  split.
  { subst h1. etrans; [exact (ExporterGltfFacts.readUint32_at [] _ _ 0 eq_refl)|].
    reflexivity. }
  split.
  { subst h2. rewrite (ExporterGltfFacts.readUint32_at h1 _ _ 4) by exact L1.
    reflexivity. }
  split.
  { subst h3. rewrite (app_assoc h1 h2).
    rewrite (ExporterGltfFacts.readUint32_at (h1 ++ h2) _ _ 8)
      by (rewrite length_app; lia).
    apply Z.mod_small. lia. }
  split.
  { cbv zeta. split.
    { subst j1. rewrite (app_assoc h1 h2), (app_assoc (h1 ++ h2) h3).
      rewrite (ExporterGltfFacts.readUint32_at ((h1 ++ h2) ++ h3) _ _ 12)
        by (rewrite !length_app; lia).
      apply Z.mod_small. lia. }
    split; [exact Hja|]. split.
    { subst j2.
      rewrite (app_assoc h1 h2), (app_assoc (h1 ++ h2) h3),
        (app_assoc ((h1 ++ h2) ++ h3) j1).
      rewrite (ExporterGltfFacts.readUint32_at (((h1 ++ h2) ++ h3) ++ j1) _ _ 16)
        by (rewrite !length_app; lia).
      reflexivity. }
    split; [lia|].
    rewrite (app_assoc h1 h2), (app_assoc (h1 ++ h2) h3),
      (app_assoc ((h1 ++ h2) ++ h3) j1), (app_assoc (((h1 ++ h2) ++ h3) ++ j1) j2).
    rewrite drop_app_length' by (rewrite !length_app; lia).
    rewrite (app_assoc json jpad).
    apply take_app_length'. rewrite length_app. lia. }
  cbv zeta. split.
  { subst b1.
    rewrite (app_assoc h1 h2), (app_assoc (h1 ++ h2) h3),
      (app_assoc ((h1 ++ h2) ++ h3) j1), (app_assoc (((h1 ++ h2) ++ h3) ++ j1) j2),
      (app_assoc _ json), (app_assoc _ jpad).
    rewrite (ExporterGltfFacts.readUint32_at _ _ _ (20 + j))
      by (rewrite !length_app; lia).
    apply Z.mod_small. lia. }
  split; [exact Hba|]. split.
  { subst b2.
    rewrite (app_assoc h1 h2), (app_assoc (h1 ++ h2) h3),
      (app_assoc ((h1 ++ h2) ++ h3) j1), (app_assoc (((h1 ++ h2) ++ h3) ++ j1) j2),
      (app_assoc _ json), (app_assoc _ jpad), (app_assoc _ b1).
    rewrite (ExporterGltfFacts.readUint32_at _ _ _ (24 + j))
      by (rewrite !length_app; lia).
    reflexivity. }
  split; [lia|].
  rewrite (app_assoc h1 h2), (app_assoc (h1 ++ h2) h3),
    (app_assoc ((h1 ++ h2) ++ h3) j1), (app_assoc (((h1 ++ h2) ++ h3) ++ j1) j2),
    (app_assoc _ json), (app_assoc _ jpad), (app_assoc _ b1), (app_assoc _ b2).
  apply drop_app_length'. rewrite !length_app. lia.
Qed.

Lemma ExportBinaryContent_container_witness :
  let parts := {| ExporterGltf.mainBuffer := [Byte.x01; Byte.x02; Byte.x03];
                  ExporterGltf.textureBuffers := [[Byte.x04; Byte.x05]];
                  ExporterGltf.mainJsonBuffer :=
                    fun byteLength => Utf8StringToArrayBuffer ("{" +:+ pretty byteLength +:+ "}") |} in
  (Z.of_nat (ExporterGltf.glbSize parts) < 2 ^ 32)%Z
  /\ exists bytes,
       ExporterGltf.ExportBinaryContent parts []
       = Ok [ExportedFile.mk "model.glb" (Some bytes)]
       /\ length bytes mod 4 = 0
       /\ ExporterGltf.readUint32 bytes 8 = Z.of_nat (length bytes).
Proof.
  intros parts.
  assert (Hsize : (Z.of_nat (ExporterGltf.glbSize parts) < 2 ^ 32)%Z)
    by (vm_compute; reflexivity).
  split; [exact Hsize|].
  destruct (ExportBinaryContent_container parts [] Hsize)
    as (bytes & Hexp & Hmod & _ & _ & Htotal & _).
  exists bytes. split; [exact Hexp|]. split; [exact Hmod | exact Htotal].
Defined.

(** ** Packaging *)

Module ExportDialogFacts.
Import ExportDialog.








End ExportDialogFacts.




(** ** The physical group registry *)

Module RegistryFacts.
Section WithGeometry.
Context `{Geometry}.

Lemma find_named (groups : list PhysicalGroup.t) (name : string) :
  name ∈ map PhysicalGroup.GetName groups ->
  exists g, find (fun group => bool_decide (PhysicalGroup.GetName group = name)) groups
            = Some g
            /\ PhysicalGroup.GetName g = name.
Proof.
  induction groups as [|g groups IH]; simpl; [by intros ?%elem_of_nil|].
  intros Hin. destruct (decide (PhysicalGroup.GetName g = name)) as [E|E].
  - exists g. by rewrite bool_decide_eq_true_2.
  - rewrite bool_decide_eq_false_2 by done. apply IH.
    apply elem_of_cons in Hin as [Hin|Hin]; [congruence | exact Hin].
Qed.

Lemma find_unnamed (groups : list PhysicalGroup.t) (name : string) :
  name ∉ map PhysicalGroup.GetName groups ->
  find (fun group => bool_decide (PhysicalGroup.GetName group = name)) groups = None.
Proof.
  induction groups as [|g groups IH]; simpl; [done|].
  intros Hin. apply not_elem_of_cons in Hin as [Hne Hin].
  rewrite bool_decide_eq_false_2 by congruence. by apply IH.
Qed.

(** [FindPhysicalGroupByName] finds a group exactly when the name is in
    use, and the group it returns carries the name. *)
Lemma FindPhysicalGroupByName_Some (m : Model.t) (name : string) :
  name ∈ map PhysicalGroup.GetName (Model.physicalGroups m) <->
  exists g, Model.FindPhysicalGroupByName m name = Some g
            /\ PhysicalGroup.GetName g = name.
Proof.
  split; [apply find_named|].
  intros (g & Hfind & _).
  destruct (decide (name ∈ map PhysicalGroup.GetName (Model.physicalGroups m)))
    as [Hin|Hout]; [exact Hin|].
  unfold Model.FindPhysicalGroupByName in Hfind.
  rewrite find_unnamed in Hfind by done. discriminate.
Qed.

End WithGeometry.
End RegistryFacts.

(** C5, as the code decides it: [Model.AddPhysicalGroup] never fails and
    never rejects a name: it always appends a new empty group with the
    given name to the model's group list, also when a group of that name
    exists.  The rejection of a duplicate name is made by the caller, the
    [Create] handler of the group dialog: when a group with the same
    case-sensitive name exists it reports an error and leaves the model
    unchanged. *)
Theorem AddPhysicalGroup_appends_and_dialog_rejects_duplicates :
  forall (G : Geometry) (m : Model.t) (name : string)
         (selectedMeshes : list MeshInstanceId),
    Model.physicalGroups (fst (Model.AddPhysicalGroup m name))
    = Model.physicalGroups m ++ [PhysicalGroup.new name]
    /\ snd (Model.AddPhysicalGroup m name) = PhysicalGroup.new name
    /\ (name ∈ map PhysicalGroup.GetName (Model.physicalGroups m) ->
        name <> EmptyString ->
        Website.onCreateClick m selectedMeshes name
        = (m, [Website.Message "Error"
                 "A group with this name already exists. Please choose a different name."])).
Proof.
  intros G m name selectedMeshes. split; [reflexivity|]. split; [reflexivity|].
  intros Hin Hne. unfold Website.onCreateClick.
  rewrite bool_decide_eq_false_2 by exact Hne.
  apply RegistryFacts.FindPhysicalGroupByName_Some in Hin as (g & -> & _).
  reflexivity.
Qed.

Lemma AddPhysicalGroup_appends_and_dialog_rejects_duplicates_witness :
  let m := fst (Model.AddPhysicalGroup (Model.new (H := IntGeometry.geometry)) "inlet") in
  "inlet" ∈ map PhysicalGroup.GetName (Model.physicalGroups m)
  /\ fst (Website.onCreateClick m [{| nodeId := 0; meshIndex := 0 |}] "inlet") = m.
Proof.
  intros m.
  assert (Hin : "inlet" ∈ map PhysicalGroup.GetName (Model.physicalGroups m))
    by (apply list_elem_of_In; simpl; auto).
  split; [exact Hin|].
  rewrite (proj2 (proj2 (AddPhysicalGroup_appends_and_dialog_rejects_duplicates
                           IntGeometry.geometry m "inlet"
                           [{| nodeId := 0; meshIndex := 0 |}])) Hin);
    [reflexivity | discriminate].
Defined.

(** [AddPhysicalGroup] accepts a name that is already in use: the group
    list grows and holds the name twice. *)
Lemma AddPhysicalGroup_accepts_duplicate :
  let m := fst (Model.AddPhysicalGroup (Model.new (H := IntGeometry.geometry)) "inlet") in
  let m' := fst (Model.AddPhysicalGroup m "inlet") in
  map PhysicalGroup.GetName (Model.physicalGroups m) = ["inlet"]
  /\ map PhysicalGroup.GetName (Model.physicalGroups m') = ["inlet"; "inlet"]
  /\ Model.physicalGroups m' <> Model.physicalGroups m.
Proof.
  split; [reflexivity|]. split; [reflexivity|]. discriminate.
Qed.

(** ** Removal of a mesh *)

Module NodeFacts.
Section WithGeometry.
Context `{Geometry}.

(** Induction over a node tree: a property holds of a node when it holds
    of all its children. *)
Section Induction.
Variable P : Node.t -> Prop.
Hypothesis step :
  forall i nm tr children indices,
    Forall P children -> P (Node.mk i nm tr children indices).

Fixpoint node_ind (n : Node.t) : P n :=
  match n with
  | Node.mk i nm tr children indices =>
      step i nm tr children indices
           ((fix all (l : list Node.t) : Forall P l :=
               match l with
               | [] => @List.Forall_nil _ P
               | c :: l' => @List.Forall_cons _ P c l' (node_ind c) (all l')
               end) children)
  end.
End Induction.

Lemma EnumerateFrom_updateMeshIndices (f : list nat -> list nat) (n : Node.t) :
  forall ancestors,
    Node.EnumerateFrom ancestors (Node.updateMeshIndices f n)
    = map (fun p => (Node.updateMeshIndices f (fst p), snd p))
          (Node.EnumerateFrom ancestors n).
Proof.
  induction n as [i nm tr children indices IH] using node_ind.
  intros ancestors. cbn [Node.updateMeshIndices Node.EnumerateFrom map fst snd].
  f_equal. induction IH as [|c children Hc _ IHchildren]; [reflexivity|].
  cbn [map flat_map]. rewrite map_app, Hc, IHchildren. reflexivity.
Qed.

Lemma id_updateMeshIndices f (n : Node.t) :
  Node.id (Node.updateMeshIndices f n) = Node.id n.
Proof. by destruct n. Qed.

Lemma meshIndices_updateMeshIndices f (n : Node.t) :
  Node.meshIndices (Node.updateMeshIndices f n) = f (Node.meshIndices n).
Proof. by destruct n. Qed.

End WithGeometry.
End NodeFacts.

Module RemoveMeshFacts.
Section WithGeometry.
Context `{Geometry}.

(** The keys of the instances of one enumerated node. *)
Definition nodeKeys (p : Node.t * list Transformation) : list MeshKey :=
  map (pair (Node.id (fst p))) (Node.meshIndices (fst p)).

Lemma flat_map_map {A B C} (f : B -> list C) (g : A -> B) (l : list A) :
  flat_map f (map g l) = flat_map (fun a => f (g a)) l.
Proof. induction l as [|a l IH]; simpl; [reflexivity | by rewrite IH]. Qed.

Lemma map_flat_map {A B C} (f : B -> C) (g : A -> list B) (l : list A) :
  map f (flat_map g l) = flat_map (fun a => map f (g a)) l.
Proof. induction l as [|a l IH]; simpl; [reflexivity | by rewrite map_app, IH]. Qed.

Lemma omap_flat_map {A B C} (f : B -> option C) (g : A -> list B) (l : list A) :
  omap f (flat_map g l) = flat_map (fun a => omap f (g a)) l.
Proof. induction l as [|a l IH]; simpl; [reflexivity | by rewrite omap_app, IH]. Qed.

Lemma MeshInstanceKeys_nodes (m : Model.t) :
  Model.MeshInstanceKeys m = flat_map nodeKeys (Node.Enumerate (Model.root m)).
Proof.
  unfold Model.MeshInstanceKeys, Model.EnumerateMeshInstances.
  rewrite map_flat_map. apply flat_map_ext. intros p.
  unfold Model.nodeMeshInstances, nodeKeys. rewrite map_map. reflexivity.
Qed.

Lemma removeMeshIndex_rekey (index n : nat) (indices : list nat) :
  map (pair n) (Model.removeMeshIndex index indices)
  = omap (Model.rekey index) (map (pair n) indices).
Proof.
  induction indices as [|i indices IH]; [reflexivity|].
  assert (Hre : Model.rekey index (n, i)
                = if (i =? index)%nat then None
                  else if (index <? i)%nat then Some (n, i - 1) else Some (n, i))
    by reflexivity.
  cbn [Model.removeMeshIndex map omap list_omap]. rewrite Hre.
  destruct (i =? index)%nat; [exact IH|].
  destruct (index <? i)%nat; cbn [map]; by rewrite IH.
Qed.

(** The keys after [RemoveMesh] are the old keys, re-keyed. *)
Lemma MeshInstanceKeys_RemoveMesh (m : Model.t) (index : nat) :
  Model.MeshInstanceKeys (Model.RemoveMesh m index)
  = omap (Model.rekey index) (Model.MeshInstanceKeys m).
Proof.
  rewrite !MeshInstanceKeys_nodes. cbn [Model.RemoveMesh Model.root].
  unfold Node.Enumerate. rewrite NodeFacts.EnumerateFrom_updateMeshIndices.
  rewrite flat_map_map, omap_flat_map. apply flat_map_ext. intros p.
  unfold nodeKeys. cbn [fst].
  rewrite NodeFacts.id_updateMeshIndices, NodeFacts.meshIndices_updateMeshIndices.
  apply removeMeshIndex_rekey.
Qed.

Lemma node_ids_RemoveMesh (m : Model.t) (index : nat) :
  map (fun p => Node.id (fst p)) (Node.Enumerate (Model.root (Model.RemoveMesh m index)))
  = map (fun p => Node.id (fst p)) (Node.Enumerate (Model.root m)).
Proof.
  cbn [Model.RemoveMesh Model.root]. unfold Node.Enumerate.
  rewrite NodeFacts.EnumerateFrom_updateMeshIndices, map_map.
  apply map_ext. intros p. cbn [fst]. apply NodeFacts.id_updateMeshIndices.
Qed.

End WithGeometry.
End RemoveMeshFacts.

(** C6, as the code decides it: removing the mesh at [index] never changes
    a node identity and never touches the physical groups, and it leaves
    unchanged the key (and the mesh) of every instance whose mesh index is
    below [index].  The instances of the removed mesh disappear, and every
    instance of a mesh behind it is re-keyed: its key keeps the node
    identity and carries the mesh index decremented by one, under which the
    model holds the same mesh as before. *)
Theorem RemoveMesh_rekeys :
  forall (G : Geometry) (m : Model.t) (index : nat),
    Model.MeshInstanceKeys (Model.RemoveMesh m index)
    = omap (Model.rekey index) (Model.MeshInstanceKeys m)
    /\ map (fun p => Node.id (fst p))
           (Node.Enumerate (Model.root (Model.RemoveMesh m index)))
       = map (fun p => Node.id (fst p)) (Node.Enumerate (Model.root m))
    /\ Model.physicalGroups (Model.RemoveMesh m index) = Model.physicalGroups m
    /\ (forall n i, (n, i) ∈ Model.MeshInstanceKeys m -> i < index ->
          (n, i) ∈ Model.MeshInstanceKeys (Model.RemoveMesh m index)
          /\ Model.GetMesh (Model.RemoveMesh m index) i = Model.GetMesh m i)
    /\ (forall n i, (n, i) ∈ Model.MeshInstanceKeys m -> index < i ->
          (n, i - 1) ∈ Model.MeshInstanceKeys (Model.RemoveMesh m index)
          /\ Model.GetMesh (Model.RemoveMesh m index) (i - 1) = Model.GetMesh m i)
    /\ (forall n, (n, index) ∈ Model.MeshInstanceKeys m ->
          forall key, key ∈ Model.MeshInstanceKeys (Model.RemoveMesh m index) ->
            exists key', key' ∈ Model.MeshInstanceKeys m
                         /\ Model.rekey index key' = Some key
                         /\ snd key' <> index).
Proof.
  intros G m index.
  pose proof (RemoveMeshFacts.MeshInstanceKeys_RemoveMesh m index) as Hkeys.
  split; [exact Hkeys|]. split; [apply RemoveMeshFacts.node_ids_RemoveMesh|].
  split; [reflexivity|]. split; [|split].
  - intros n i Hin Hlt. split.
    + rewrite Hkeys. apply list_elem_of_omap. exists (n, i). split; [exact Hin|].
      unfold Model.rekey. cbn [fst snd].
      destruct (Nat.eqb_spec i index); [lia|].
      destruct (Nat.ltb_spec index i); [lia | reflexivity].
    + unfold Model.GetMesh. cbn [Model.RemoveMesh Model.meshes].
      by apply list_lookup_delete_lt.
  - intros n i Hin Hlt. split.
    + rewrite Hkeys. apply list_elem_of_omap. exists (n, i). split; [exact Hin|].
      unfold Model.rekey. cbn [fst snd].
      destruct (Nat.eqb_spec i index); [lia|].
      destruct (Nat.ltb_spec index i); [reflexivity | lia].
    + unfold Model.GetMesh. cbn [Model.RemoveMesh Model.meshes].
      rewrite list_lookup_delete_ge by lia. f_equal. lia.
  - intros n _ key Hkey. rewrite Hkeys in Hkey.
    apply list_elem_of_omap in Hkey as (key' & Hin & Hre).
    exists key'. split; [exact Hin|]. split; [exact Hre|].
    unfold Model.rekey in Hre. destruct (Nat.eqb_spec (snd key') index); [discriminate|].
    assumption.
Qed.

Lemma RemoveMesh_rekeys_witness :
  let meshA := Mesh.mk (H := IntGeometry.geometry) "a" [] [] [] [] in
  let meshB := Mesh.mk (H := IntGeometry.geometry) "b" [] [] [] [] in
  let m := fst (Model.AddMeshToRootNode (fst (Model.AddMeshToRootNode Model.new meshA))
                                        meshB) in
  (0, 1) ∈ Model.MeshInstanceKeys m
  /\ (0, 0) ∈ Model.MeshInstanceKeys (Model.RemoveMesh m 0)
  /\ Model.GetMesh (Model.RemoveMesh m 0) 0 = Some meshB.
Proof.
  intros meshA meshB m.
  assert (Hin : (0, 1) ∈ Model.MeshInstanceKeys m)
    by (apply list_elem_of_In; simpl; auto).
  split; [exact Hin|].
  destruct (proj1 (proj2 (proj2 (proj2 (proj2
             (RemoveMesh_rekeys IntGeometry.geometry m 0))))) 0 1 Hin)
    as [Hkey Hmesh]; [lia|].
  split; [exact Hkey|]. etrans; [exact Hmesh | reflexivity].
Defined.

(** Removing one mesh changes the key of an instance of another mesh, and
    a group membership recorded under the old key no longer addresses an
    instance. *)
Lemma RemoveMesh_changes_other_key :
  let meshA := Mesh.mk (H := IntGeometry.geometry) "a" [] [] [] [] in
  let meshB := Mesh.mk (H := IntGeometry.geometry) "b" [] [] [] [] in
  let idB := {| nodeId := 0; meshIndex := 1 |} in
  let m := Model.setPhysicalGroups
             (fst (Model.AddMeshToRootNode
                     (fst (Model.AddMeshToRootNode Model.new meshA)) meshB))
             [PhysicalGroup.AddMesh (PhysicalGroup.new "walls") idB] in
  let m' := Model.RemoveMesh m 0 in
  Model.MeshInstanceKeys m = [(0, 0); (0, 1)]
  /\ option_map MeshInstance.mesh (Model.GetMeshInstance m idB) = Some (Some meshB)
  /\ Model.MeshInstanceKeys m' = [(0, 0)]
  /\ ~ GetKey idB ∈ Model.MeshInstanceKeys m'
  /\ option_map MeshInstance.mesh
       (Model.GetMeshInstance m' {| nodeId := 0; meshIndex := 0 |}) = Some (Some meshB)
  /\ map (fun g => PhysicalGroup.ContainsMesh g (Some idB)) (Model.physicalGroups m')
     = [true]
  /\ Model.GetMeshInstance m' idB = None.
Proof.
  intros meshA meshB idB m m'.
  split; [reflexivity|]. split; [reflexivity|].
  assert (Hkeys : Model.MeshInstanceKeys m' = [(0, 0)]) by reflexivity.
  split; [exact Hkeys|]. split.
  - rewrite Hkeys. intros Hin. apply list_elem_of_singleton in Hin. discriminate.
  - split; [reflexivity|]. split; [vm_compute; reflexivity | reflexivity].
Qed.

(** ** Export by physical group on the example scene *)

(** C1, the code at the failing input: the box has 12 triangles, the
    group [Inlet] records 5 of them and [Outlet] the other 7, both groups
    are selected and no remainder is requested.  [ExportPhysicalGroups]
    emits 2 artifacts, but each one holds 12 triangles: the artifacts are
    the encodings of the placeholder cube, whatever the groups record; the
    IGES exporter assigns 6 triangles to each group by slicing the index
    range.  The extraction that follows the recorded membership,
    [CreateModelFromPhysicalGroup], yields 5 and 7 triangles. *)
Theorem ExportPhysicalGroups_emits_placeholder_cube :
  let em := ExporterModel.mk Example.twoGroupModel Example.selectedWithoutRemainder in
  PhysicalGroup.GetMeshFaceIndices Example.inlet (Some Example.boxId) = [0; 1; 2; 3; 4]%Z
  /\ PhysicalGroup.GetMeshFaceIndices Example.outlet (Some Example.boxId)
     = [5; 6; 7; 8; 9; 10; 11]%Z
  /\ Example.artifacts (ExporterStl.ExportPhysicalGroups em Binary [])
     = Some [("inlet.stl", Some 12%Z); ("outlet.stl", Some 12%Z)]
  /\ ExporterStl.ExportPhysicalGroups em Binary []
     = (files ← ExporterStl.ExportBinaryForModel
                  (ExporterModel.mk (H := IntGeometry.geometry)
                     (ExporterStl.testCubeModel "Inlet") ExporterSettings.new)
                  [] "inlet.stl";
        ExporterStl.ExportBinaryForModel
          (ExporterModel.mk (H := IntGeometry.geometry)
             (ExporterStl.testCubeModel "Outlet") ExporterSettings.new)
          files "outlet.stl")
  /\ map (fun g => length (ExporterIges.meshIds g))
         (ExporterIges.physicalGroupData 12 [Example.inlet; Example.outlet]) = [6; 6]
  /\ ExporterStl.groupTriangleIds Example.twoGroupModel Example.inlet
     = map (pair (0, 0)) (seq 0 5)
  /\ ExporterStl.groupTriangleIds Example.twoGroupModel Example.outlet
     = map (pair (0, 0)) (seq 5 7).
Proof.
  intros em. repeat split; vm_compute; reflexivity.
Qed.

(** C2, the code at the failing inputs.  On the export that is reached:
    the strip has 3 triangles, [Front] records triangle 0 and [Back] the
    triangles 1 and 2, so every triangle belongs to a group and the
    recorded membership leaves no remainder.  The IGES exporter sends the
    triangles in enumeration order and fills the groups by position:
    [Front] receives position 0, [Back] position 1, and the remainder
    entry [Unassigned_Faces] is produced with position 2, which is
    triangle 2 of the instance, a triangle that [Back] records.  On the
    methods of the STL exporter, which [ExportContent] does not call: the
    group [Walls] holds the whole box and the remainder is requested;
    [ExportPhysicalGroups] never records a used instance, so
    [CreateRemainderModel] receives an empty bookkeeping map and copies
    every triangle of the box: the remainder artifact holds 12 triangles,
    each of which belongs to the group.  With the bookkeeping that
    [CreateModelFromPhysicalGroup] records for the group, the remainder is
    empty. *)
Theorem remainder_holds_group_triangles :
  (let em := ExporterModel.mk (H := IntGeometry.geometry)
               Example.frontBackModel ExporterSettings.new in
   PhysicalGroup.GetMeshFaceIndices Example.front (Some Example.boxId) = [0]%Z
   /\ PhysicalGroup.GetMeshFaceIndices Example.back (Some Example.boxId) = [1; 2]%Z
   /\ match ExporterStl.CreateModelFromPhysicalGroup
              Example.frontBackModel Example.front ∅ with
      | Ok (_, used) =>
          match ExporterStl.CreateModelFromPhysicalGroup
                  Example.frontBackModel Example.back used with
          | Ok (_, used) => ExporterStl.remainderTriangleIds Example.frontBackModel used = []
          | Throw _ => False
          end
      | Throw _ => False
      end
   /\ ExporterIges.triangleIds Example.frontBackModel = map (pair (0, 0)) [0; 1; 2]
   /\ match ExporterIges.ExportContent em Binary [] with
      | ExporterIges.ServerExport modelData _ =>
          ExporterIges.triangles modelData = [0; 1; 2; 1; 3; 2; 2; 3; 4]
          /\ ExporterIges.physicalGroups modelData
             = [{| ExporterIges.name := "Front"; ExporterIges.meshIds := [0] |};
                {| ExporterIges.name := "Back"; ExporterIges.meshIds := [1] |};
                {| ExporterIges.name := "Unassigned_Faces";
                   ExporterIges.meshIds := [2] |}]
      | ExporterIges.PreparationFailed _ => False
      end
   /\ ExporterIges.triangleIds Example.frontBackModel !! 2 = Some ((0, 0), 2)
   /\ PhysicalGroup.holdsFace Example.back (0, 0) 2 = true)
  /\ (let em := ExporterModel.mk Example.oneGroupModel Example.selectedWithRemainder in
      Example.artifacts (ExporterStl.ExportPhysicalGroups em Binary [])
      = Some [("walls.stl", Some 12%Z); ("remainder.stl", Some 12%Z)]
      /\ ExporterStl.remainderTriangleIds Example.oneGroupModel ∅
         = map (pair (0, 0)) (seq 0 12)
      /\ forallb (fun id => PhysicalGroup.holdsFace Example.walls (fst id) (snd id))
                 (ExporterStl.remainderTriangleIds Example.oneGroupModel ∅) = true
      /\ match ExporterStl.CreateRemainderModel Example.oneGroupModel ∅ with
         | Ok remainderModel =>
             map Mesh.triangles (Model.meshes remainderModel)
             = [Mesh.triangles Example.boxMesh]
         | Throw _ => False
         end
      /\ match ExporterStl.CreateModelFromPhysicalGroup
                 Example.oneGroupModel Example.walls ∅ with
         | Ok (_, used) => ExporterStl.remainderTriangleIds Example.oneGroupModel used = []
         | Throw _ => False
         end).
Proof.
  split; intros em; repeat split; vm_compute; reflexivity.
Qed.

(** ** More on physical groups *)

Module PhysicalGroupMore.
Import PhysicalGroup PhysicalGroupFacts.

Lemma addFace_bool_decide l f :
  addFace l f = if bool_decide (f ∈ l) then l else l ++ [f].
Proof.
  unfold addFace. destruct (includes l f) eqn:E.
  - apply includes_true in E. by rewrite bool_decide_eq_true_2.
  - rewrite bool_decide_eq_false_2; [done|]. intros Hin.
    apply includes_true in Hin. congruence.
Qed.

Lemma GetMeshFaceIndices_AddMeshWithIndex g id f :
  GetMeshFaceIndices (AddMeshWithIndex g (Some id) (Some f)) (Some id)
  = addFace (GetMeshFaceIndices g (Some id)) f.
Proof. unfold GetMeshFaceIndices. by rewrite AddMeshWithIndex_faces. Qed.

Lemma add_faces_fold g id (faces : list Z) :
  GetMeshFaceIndices
    (fold_left (fun g f => AddMeshWithIndex g (Some id) (Some f)) faces g) (Some id)
  = fold_left (fun seen f => if bool_decide (f ∈ seen) then seen else seen ++ [f])
              faces (GetMeshFaceIndices g (Some id)).
Proof.
  revert g. induction faces as [|f faces IH]; intros g; [reflexivity|].
  cbn [fold_left]. rewrite IH, GetMeshFaceIndices_AddMeshWithIndex.
  by rewrite addFace_bool_decide.
Qed.

Lemma seen_fold_spec (faces : list Z) :
  forall seen,
    NoDup seen ->
    let out := fold_left (fun seen f => if bool_decide (f ∈ seen) then seen
                                        else seen ++ [f]) faces seen in
    NoDup out /\ forall f, f ∈ out <-> f ∈ seen \/ f ∈ faces.
Proof.
  induction faces as [|x faces IH]; intros seen Hnd; cbn [fold_left].
  - split; [exact Hnd|]. intros f. rewrite elem_of_nil. tauto.
  - destruct (decide (x ∈ seen)) as [Hin|Hout].
    + rewrite bool_decide_eq_true_2 by done.
      destruct (IH seen Hnd) as [Hnd' Hmem]. split; [exact Hnd'|].
      intros f. rewrite Hmem, elem_of_cons. naive_solver.
    + rewrite bool_decide_eq_false_2 by done.
      assert (Hnd1 : NoDup (seen ++ [x])).
      { apply NoDup_app. split_and!; [done| |apply NoDup_singleton].
        intros y Hy Hy'. apply list_elem_of_singleton in Hy'. by subst. }
      destruct (IH _ Hnd1) as [Hnd' Hmem]. split; [exact Hnd'|].
      intros f. rewrite Hmem, elem_of_app, list_elem_of_singleton, elem_of_cons.
      naive_solver.
Qed.

Lemma ContainsMesh_RemoveMesh_ne g id id' :
  GetKey id' <> GetKey id ->
  ContainsMesh (RemoveMesh g id) (Some id') = ContainsMesh g (Some id').
Proof.
  intros Hne. unfold ContainsMesh, RemoveMesh; simpl.
  apply bool_decide_ext. set_solver.
Qed.

(** Membership of a face, through the accessors of the class. *)
Lemma holdsFace_accessors g id face :
  holdsFace g (GetKey id) face
  = ContainsMesh g (Some id)
    && match GetMeshFaceIndices g (Some id) with
       | [] => true
       | faceIndices => bool_decide (Z.of_nat face ∈ faceIndices)
       end.
Proof. reflexivity. Qed.

End PhysicalGroupMore.

(** X1: the face list of an instance is the list of the distinct indices
    added to it, in the order of their first addition: after a sequence of
    [AddMeshWithIndex] calls on a new group, [GetMeshFaceIndices] returns
    the indices with every repetition after the first dropped, without
    duplicates, and an index is listed exactly when it was added. *)
Theorem AddMeshWithIndex_sequence :
  forall (name : string) (id : MeshInstanceId) (faces : list Z),
    let g := fold_left (fun g f => PhysicalGroup.AddMeshWithIndex g (Some id) (Some f))
                       faces (PhysicalGroup.new name) in
    PhysicalGroup.GetMeshFaceIndices g (Some id) = ExporterStl.dedupe faces
    /\ NoDup (PhysicalGroup.GetMeshFaceIndices g (Some id))
    /\ (forall f, f ∈ PhysicalGroup.GetMeshFaceIndices g (Some id) <-> f ∈ faces)
    /\ (faces <> [] -> PhysicalGroup.ContainsMesh g (Some id) = true).
Proof.
  intros name id faces g.
  assert (Hfaces : PhysicalGroup.GetMeshFaceIndices g (Some id) = ExporterStl.dedupe faces).
  { subst g. rewrite PhysicalGroupMore.add_faces_fold. reflexivity. }
  destruct (PhysicalGroupMore.seen_fold_spec faces [] (NoDup_nil_2 (A := Z))) as [Hnd Hmem].
  rewrite Hfaces. split; [reflexivity|]. split; [exact Hnd|]. split.
  - intros f. unfold ExporterStl.dedupe. rewrite Hmem, elem_of_nil. tauto.
  - intros Hne. subst g. destruct faces as [|f faces] using rev_ind; [done|].
    rewrite fold_left_app. cbn [fold_left].
    unfold PhysicalGroup.ContainsMesh, PhysicalGroup.AddMeshWithIndex.
    cbn [PhysicalGroup.meshes]. apply bool_decide_eq_true_2. set_solver.
Qed.

Lemma AddMeshWithIndex_sequence_witness :
  let id := {| nodeId := 2; meshIndex := 1 |} in
  let g := fold_left (fun g f => PhysicalGroup.AddMeshWithIndex g (Some id) (Some f))
                     [7; 3; 7; 9; 3]%Z (PhysicalGroup.new "inlet") in
  PhysicalGroup.GetMeshFaceIndices g (Some id) = [7; 3; 9]%Z
  /\ PhysicalGroup.ContainsMesh g (Some id) = true.
Proof.
  intros id g.
  destruct (AddMeshWithIndex_sequence "inlet" id [7; 3; 7; 9; 3]%Z)
    as (Hfaces & _ & _ & Hc).
  split; [etrans; [exact Hfaces | reflexivity] | by apply Hc].
Defined.

(** X2: [RemoveMesh] takes exactly one instance out of a group: after it
    the instance is not contained and has no faces, and the answers for
    every other key are unchanged.  On a group built by the class's
    operations that does not contain the instance, removing it after an
    [AddMesh] or an [AddMeshWithIndex] restores the group. *)
Theorem PhysicalGroup_RemoveMesh_exact :
  forall (g : PhysicalGroup.t) (id : MeshInstanceId),
    PhysicalGroup.ContainsMesh (PhysicalGroup.RemoveMesh g id) (Some id) = false
    /\ PhysicalGroup.GetMeshFaceIndices (PhysicalGroup.RemoveMesh g id) (Some id) = []
    /\ (forall id', GetKey id' <> GetKey id ->
          PhysicalGroup.ContainsMesh (PhysicalGroup.RemoveMesh g id) (Some id')
          = PhysicalGroup.ContainsMesh g (Some id')
          /\ PhysicalGroup.GetMeshFaceIndices (PhysicalGroup.RemoveMesh g id) (Some id')
             = PhysicalGroup.GetMeshFaceIndices g (Some id'))
    /\ (PhysicalGroup.reachable g ->
        PhysicalGroup.ContainsMesh g (Some id) = false ->
        PhysicalGroup.RemoveMesh (PhysicalGroup.AddMesh g id) id = g
        /\ forall f, PhysicalGroup.RemoveMesh
                       (PhysicalGroup.AddMeshWithIndex g (Some id) f) id = g).
Proof.
  intros g id. split_and!.
  - unfold PhysicalGroup.ContainsMesh, PhysicalGroup.RemoveMesh; simpl.
    apply bool_decide_eq_false_2. set_solver.
  - unfold PhysicalGroup.GetMeshFaceIndices, PhysicalGroup.RemoveMesh; simpl.
    by rewrite lookup_delete_eq.
  - intros id' Hne. split; [by apply PhysicalGroupMore.ContainsMesh_RemoveMesh_ne|].
    unfold PhysicalGroup.GetMeshFaceIndices, PhysicalGroup.RemoveMesh; simpl.
    by rewrite lookup_delete_ne.
  - intros Hreach Hnot.
    pose proof (PhysicalGroupFacts.reachable_keys_agree g Hreach) as Hk.
    unfold PhysicalGroup.keys_agree in Hk.
    unfold PhysicalGroup.ContainsMesh in Hnot. apply bool_decide_eq_false in Hnot.
    assert (Hset : ({[GetKey id]} ∪ PhysicalGroup.meshes g) ∖ {[GetKey id]}
                   = PhysicalGroup.meshes g) by set_solver.
    assert (Hinit : delete (GetKey id)
                      (PhysicalGroup.initFaces (GetKey id) (PhysicalGroup.meshFaces g))
                    = PhysicalGroup.meshFaces g).
    { unfold PhysicalGroup.initFaces.
      destruct (_ !! _) as [l|] eqn:E.
      - exfalso. apply Hnot. rewrite Hk. apply elem_of_dom. eauto.
      - rewrite delete_insert_eq. by apply delete_id. }
    split.
    + unfold PhysicalGroup.RemoveMesh, PhysicalGroup.AddMesh.
      cbn [PhysicalGroup.name PhysicalGroup.meshes PhysicalGroup.meshFaces
           PhysicalGroup.color].
      rewrite Hset, Hinit. by destruct g.
    + intros [f|]; unfold PhysicalGroup.RemoveMesh, PhysicalGroup.AddMeshWithIndex;
        cbn [PhysicalGroup.name PhysicalGroup.meshes PhysicalGroup.meshFaces
             PhysicalGroup.color].
      * rewrite Hset. destruct (PhysicalGroup.includes _ f); cbn [negb].
        -- rewrite Hinit. by destruct g.
        -- rewrite delete_insert_eq, Hinit. by destruct g.
      * rewrite Hset, Hinit. by destruct g.
Qed.

Lemma PhysicalGroup_RemoveMesh_exact_witness :
  let a := {| nodeId := 1; meshIndex := 0 |} in
  let b := {| nodeId := 1; meshIndex := 1 |} in
  let g := PhysicalGroup.AddMeshWithIndex (PhysicalGroup.new "walls") (Some a) (Some 2%Z) in
  PhysicalGroup.reachable g
  /\ PhysicalGroup.ContainsMesh g (Some b) = false
  /\ PhysicalGroup.RemoveMesh (PhysicalGroup.AddMeshWithIndex g (Some b) (Some 5%Z)) b = g.
Proof.
  intros a b g.
  assert (Hg : PhysicalGroup.reachable g) by repeat constructor.
  assert (Hb : PhysicalGroup.ContainsMesh g (Some b) = false) by (vm_compute; reflexivity).
  split; [exact Hg|]. split; [exact Hb|].
  exact (proj2 (proj2 (proj2 (proj2 (PhysicalGroup_RemoveMesh_exact g b))) Hg Hb)
               (Some 5%Z)).
Defined.

(** X3: [AddMesh] puts the instance in the group without touching any
    recorded face list, so it does not widen a partial membership to the
    whole instance; [AddMeshWithIndex] on an instance recorded as a whole
    (empty face list) narrows the membership to the one face added. *)
Theorem AddMesh_keeps_faces_AddMeshWithIndex_narrows :
  forall (g : PhysicalGroup.t) (id : MeshInstanceId),
    PhysicalGroup.ContainsMesh (PhysicalGroup.AddMesh g id) (Some id) = true
    /\ (forall id', PhysicalGroup.GetMeshFaceIndices (PhysicalGroup.AddMesh g id) id'
                    = PhysicalGroup.GetMeshFaceIndices g id')
    /\ PhysicalGroup.AddMesh (PhysicalGroup.AddMesh g id) id = PhysicalGroup.AddMesh g id
    /\ (forall face,
          PhysicalGroup.ContainsMesh g (Some id) = true ->
          PhysicalGroup.holdsFace (PhysicalGroup.AddMesh g id) (GetKey id) face
          = PhysicalGroup.holdsFace g (GetKey id) face)
    /\ (forall f face,
          PhysicalGroup.GetMeshFaceIndices g (Some id) = [] ->
          PhysicalGroup.holdsFace
            (PhysicalGroup.AddMeshWithIndex g (Some id) (Some f)) (GetKey id) face
          = bool_decide (Z.of_nat face = f)).
Proof.
  intros g id.
  assert (Hfaces : forall id',
             PhysicalGroup.GetMeshFaceIndices (PhysicalGroup.AddMesh g id) id'
             = PhysicalGroup.GetMeshFaceIndices g id').
  { intros [id'|]; [|reflexivity].
    unfold PhysicalGroup.GetMeshFaceIndices, PhysicalGroup.AddMesh; simpl.
    destruct (decide (GetKey id = GetKey id')) as [E|E].
    - rewrite <- E, PhysicalGroupFacts.initFaces_lookup_eq. reflexivity.
    - by rewrite PhysicalGroupFacts.initFaces_lookup_ne. }
  split_and!.
  - unfold PhysicalGroup.ContainsMesh, PhysicalGroup.AddMesh; simpl.
    apply bool_decide_eq_true_2. set_solver.
  - exact Hfaces.
  - unfold PhysicalGroup.AddMesh; simpl.
    rewrite (PhysicalGroupFacts.initFaces_present _ _ _
               (PhysicalGroupFacts.initFaces_lookup_eq _ _)).
    f_equal. set_solver.
  - intros face Hc. rewrite !PhysicalGroupMore.holdsFace_accessors.
    rewrite (Hfaces (Some id)), Hc. f_equal.
    unfold PhysicalGroup.ContainsMesh, PhysicalGroup.AddMesh; simpl.
    apply bool_decide_eq_true_2. set_solver.
  - intros f face Hempty. rewrite PhysicalGroupMore.holdsFace_accessors.
    rewrite PhysicalGroupMore.GetMeshFaceIndices_AddMeshWithIndex, Hempty.
    assert (Hc : PhysicalGroup.ContainsMesh
                   (PhysicalGroup.AddMeshWithIndex g (Some id) (Some f)) (Some id) = true).
    { unfold PhysicalGroup.ContainsMesh, PhysicalGroup.AddMeshWithIndex; simpl.
      apply bool_decide_eq_true_2. set_solver. }
    rewrite Hc. cbn. apply bool_decide_ext. rewrite list_elem_of_singleton. done.
Qed.

Lemma AddMesh_keeps_faces_AddMeshWithIndex_narrows_witness :
  let id := {| nodeId := 1; meshIndex := 0 |} in
  let whole := PhysicalGroup.AddMesh (PhysicalGroup.new "walls") id in
  PhysicalGroup.GetMeshFaceIndices whole (Some id) = []
  /\ PhysicalGroup.holdsFace whole (GetKey id) 4 = true
  /\ PhysicalGroup.holdsFace
       (PhysicalGroup.AddMeshWithIndex whole (Some id) (Some 2%Z)) (GetKey id) 4 = false.
Proof.
  intros id whole.
  assert (He : PhysicalGroup.GetMeshFaceIndices whole (Some id) = [])
    by (vm_compute; reflexivity).
  split; [exact He|]. split; [vm_compute; reflexivity|].
  rewrite (proj2 (proj2 (proj2 (proj2
             (AddMesh_keeps_faces_AddMeshWithIndex_narrows whole id)))) 2%Z 4 He).
  reflexivity.
Defined.

Module FaceCountFacts.
Import PhysicalGroup PhysicalGroupFacts.

Definition total (mf : gmap (nat * nat) (list Z)) : nat :=
  map_fold (fun _ faceArray count => count + length faceArray) 0 mf.

Lemma total_insert_fresh (k : nat * nat) (l : list Z) (mf : gmap (nat * nat) (list Z)) :
  mf !! k = None -> total (<[k := l]> mf) = total mf + length l.
Proof.
  intros Hnone. unfold total.
  rewrite map_fold_insert_L; [reflexivity| |exact Hnone].
  intros. lia.
Qed.

Lemma total_delete (k : nat * nat) (l : list Z) (mf : gmap (nat * nat) (list Z)) :
  mf !! k = Some l -> total mf = total (delete k mf) + length l.
Proof.
  intros Hl. rewrite <- (insert_delete_id mf k l Hl) at 1.
  apply total_insert_fresh, lookup_delete_eq.
Qed.

Lemma total_insert (k : nat * nat) (l : list Z) (mf : gmap (nat * nat) (list Z)) :
  total (<[k := l]> mf) + length (default [] (mf !! k)) = total mf + length l.
Proof.
  destruct (mf !! k) as [l0|] eqn:E; simpl.
  - rewrite <- insert_delete_eq.
    rewrite total_insert_fresh by apply lookup_delete_eq.
    rewrite (total_delete k l0 mf E). lia.
  - rewrite total_insert_fresh by done. lia.
Qed.

Lemma total_initFaces (k : nat * nat) (mf : gmap (nat * nat) (list Z)) :
  total (initFaces k mf) = total mf.
Proof.
  unfold initFaces. destruct (mf !! k) eqn:E; [reflexivity|].
  rewrite total_insert_fresh by done. simpl. lia.
Qed.

End FaceCountFacts.

(** X4: the counters of a group follow its edits.  [TotalFaceCount] grows
    by one exactly when [AddMeshWithIndex] adds an index the instance does
    not list yet, is unchanged by [AddMesh], and drops by the length of the
    instance's face list on [RemoveMesh]; [MeshCount] grows by one exactly
    when [AddMesh] adds an instance the group does not contain; [Clear]
    resets both to 0. *)
Theorem PhysicalGroup_counters :
  forall (g : PhysicalGroup.t) (id : MeshInstanceId) (f : Z),
    PhysicalGroup.TotalFaceCount (PhysicalGroup.AddMeshWithIndex g (Some id) (Some f))
    = PhysicalGroup.TotalFaceCount g
      + (if bool_decide (f ∈ PhysicalGroup.GetMeshFaceIndices g (Some id)) then 0 else 1)
    /\ PhysicalGroup.TotalFaceCount (PhysicalGroup.AddMesh g id)
       = PhysicalGroup.TotalFaceCount g
    /\ PhysicalGroup.TotalFaceCount (PhysicalGroup.RemoveMesh g id)
       + length (PhysicalGroup.GetMeshFaceIndices g (Some id))
       = PhysicalGroup.TotalFaceCount g
    /\ PhysicalGroup.MeshCount (PhysicalGroup.AddMesh g id)
       = (if PhysicalGroup.ContainsMesh g (Some id) then PhysicalGroup.MeshCount g
          else S (PhysicalGroup.MeshCount g))
    /\ PhysicalGroup.TotalFaceCount (PhysicalGroup.Clear g) = 0
    /\ PhysicalGroup.MeshCount (PhysicalGroup.Clear g) = 0.
Proof.
  intros g id f. split_and!.
  - change (FaceCountFacts.total
              (PhysicalGroup.meshFaces
                 (PhysicalGroup.AddMeshWithIndex g (Some id) (Some f)))
            = FaceCountFacts.total (PhysicalGroup.meshFaces g)
              + (if bool_decide (f ∈ PhysicalGroup.GetMeshFaceIndices g (Some id))
                 then 0 else 1)).
    unfold PhysicalGroup.AddMeshWithIndex. cbn [PhysicalGroup.meshFaces].
    rewrite PhysicalGroupFacts.initFaces_lookup_eq.
    change (default [] (Some ?l)) with l.
    change (default [] (PhysicalGroup.meshFaces g !! GetKey id))
      with (PhysicalGroup.GetMeshFaceIndices g (Some id)).
    set (l := PhysicalGroup.GetMeshFaceIndices g (Some id)).
    destruct (PhysicalGroup.includes l f) eqn:E; cbn [negb].
    + apply PhysicalGroupFacts.includes_true in E.
      rewrite bool_decide_eq_true_2 by done.
      rewrite FaceCountFacts.total_initFaces. lia.
    + rewrite bool_decide_eq_false_2
        by (intros Hin; apply PhysicalGroupFacts.includes_true in Hin; congruence).
      pose proof (FaceCountFacts.total_insert (GetKey id) (l ++ [f])
                    (PhysicalGroup.initFaces (GetKey id) (PhysicalGroup.meshFaces g)))
        as Ht.
      rewrite PhysicalGroupFacts.initFaces_lookup_eq in Ht.
      change (default [] (Some ?x)) with x in Ht.
      change (default [] (PhysicalGroup.meshFaces g !! GetKey id)) with l in Ht.
      apply (Nat.add_cancel_r _ _ (length l)).
      etrans; [exact Ht|]. rewrite FaceCountFacts.total_initFaces, length_app.
      simpl. lia.
  - apply FaceCountFacts.total_initFaces.
  - change (FaceCountFacts.total (delete (GetKey id) (PhysicalGroup.meshFaces g))
            + length (default [] (PhysicalGroup.meshFaces g !! GetKey id))
            = FaceCountFacts.total (PhysicalGroup.meshFaces g)).
    destruct (PhysicalGroup.meshFaces g !! GetKey id) as [l|] eqn:E; simpl.
    + symmetry. by apply FaceCountFacts.total_delete.
    + rewrite delete_id by done. lia.
  - unfold PhysicalGroup.MeshCount, PhysicalGroup.ContainsMesh, PhysicalGroup.AddMesh.
    cbn [PhysicalGroup.meshes].
    destruct (decide (GetKey id ∈ PhysicalGroup.meshes g)) as [Hin|Hout].
    + rewrite bool_decide_eq_true_2 by done. f_equal. set_solver.
    + rewrite bool_decide_eq_false_2 by done.
      rewrite size_union by set_solver. by rewrite size_singleton.
  - reflexivity.
  - reflexivity.
Qed.

(** ** More on the scene model *)

Module ModelMore.
Section WithGeometry.
Context `{Geometry}.

Lemma rekey_below index (key : MeshKey) :
  snd key < index -> Model.rekey index key = Some key.
Proof.
  intros Hlt. unfold Model.rekey.
  destruct (Nat.eqb_spec (snd key) index); [lia|].
  destruct (Nat.ltb_spec index (snd key)); [lia | reflexivity].
Qed.

Lemma omap_id_on {A} (f : A -> option A) (l : list A) :
  Forall (fun a => f a = Some a) l -> omap f l = l.
Proof.
  induction 1 as [|a l Ha _ IH]; [reflexivity|].
  cbn [omap list_omap]. by rewrite Ha, IH.
Qed.

Lemma delete_past_end {A} (l : list A) (i : nat) : length l <= i -> delete i l = l.
Proof.
  revert i. induction l as [|a l IH]; intros i Hle; [by destruct i|].
  destruct i as [|i]; simpl in *; [lia|]. f_equal. apply IH. lia.
Qed.

Lemma indicesValid_spec (m : Model.t) :
  Model.indicesValid m = true
  <-> Forall (fun key : MeshKey => snd key < Model.MeshCount m) (Model.MeshInstanceKeys m).
Proof.
  unfold Model.indicesValid. rewrite forallb_forall, Forall_forall.
  split; intros Hall key Hin.
  - apply Nat.ltb_lt, Hall. by apply list_elem_of_In.
  - apply Nat.ltb_lt, Hall. by apply list_elem_of_In.
Qed.

(** The node found by the scan of [GetMeshInstance]. *)
Definition foundNode (nodes : list (Node.t * list Transformation)) (n : nat)
  : option (Node.t * list Transformation) :=
  fold_left (fun found p => if (Node.id (fst p) =? n)%nat then Some p else found)
            nodes None.

Lemma foundNode_snoc nodes p n :
  foundNode (nodes ++ [p]) n
  = if (Node.id (fst p) =? n)%nat then Some p else foundNode nodes n.
Proof. unfold foundNode. by rewrite fold_left_app. Qed.

Lemma foundNode_Some nodes n p :
  foundNode nodes n = Some p -> p ∈ nodes /\ Node.id (fst p) = n.
Proof.
  induction nodes as [|q nodes IH] using rev_ind; [discriminate|].
  rewrite foundNode_snoc. destruct (Nat.eqb_spec (Node.id (fst q)) n) as [E|E].
  - intros [= <-]. split; [set_solver | exact E].
  - intros Hf. destruct (IH Hf). split; [set_solver | done].
Qed.

Lemma foundNode_unique nodes n p :
  NoDup (map (fun q => Node.id (fst q)) nodes) ->
  p ∈ nodes -> Node.id (fst p) = n -> foundNode nodes n = Some p.
Proof.
  induction nodes as [|q nodes IH] using rev_ind; [by intros _ ?%elem_of_nil|].
  rewrite map_app, foundNode_snoc. intros Hnd Hin Hid.
  apply NoDup_app in Hnd as (Hnd & Hdis & _).
  destruct (Nat.eqb_spec (Node.id (fst q)) n) as [E|E].
  - apply elem_of_app in Hin as [Hin|Hin].
    + exfalso. apply (Hdis n).
      * apply list_elem_of_fmap. exists p. by split.
      * simpl. rewrite E. set_solver.
    + apply list_elem_of_singleton in Hin. by subst.
  - apply elem_of_app in Hin as [Hin|Hin]; [by apply IH|].
    apply list_elem_of_singleton in Hin. subst. done.
Qed.

Lemma key_in_nodes (m : Model.t) (n i : nat) :
  (n, i) ∈ Model.MeshInstanceKeys m
  <-> exists p, p ∈ Node.Enumerate (Model.root m)
                /\ Node.id (fst p) = n /\ i ∈ Node.meshIndices (fst p).
Proof.
  rewrite RemoveMeshFacts.MeshInstanceKeys_nodes.
  rewrite list_elem_of_In, in_flat_map. split.
  - intros (p & Hp & Hin). exists p. split; [by apply list_elem_of_In|].
    unfold RemoveMeshFacts.nodeKeys in Hin. apply in_map_iff in Hin as (j & [= <- <-] & Hj).
    split; [reflexivity | by apply list_elem_of_In].
  - intros (p & Hp & <- & Hi). exists p. split; [by apply list_elem_of_In|].
    unfold RemoveMeshFacts.nodeKeys. apply in_map_iff. exists i.
    split; [reflexivity | by apply list_elem_of_In].
Qed.

End WithGeometry.
End ModelMore.

(** X5: the mesh instance count, computed by summing the mesh index lists
    of the nodes, is the number of instances [EnumerateMeshInstances]
    visits and the number of keys of the model, whatever the nesting of
    the nodes. *)
Theorem MeshInstanceCount_is_enumeration_length :
  forall (G : Geometry) (m : Model.t),
    Model.MeshInstanceCount m = length (Model.EnumerateMeshInstances m)
    /\ Model.MeshInstanceCount m = length (Model.MeshInstanceKeys m)
    /\ (Model.MeshInstanceCount m = 0 <-> Model.MeshInstanceKeys m = []).
Proof.
  intros G m.
  pose proof (ModelFacts.MeshInstanceCount_enumerated m) as Hc.
  assert (Hk : Model.MeshInstanceCount m = length (Model.MeshInstanceKeys m)).
  { unfold Model.MeshInstanceKeys. by rewrite length_map. }
  split; [exact Hc|]. split; [exact Hk|]. rewrite Hk.
  destruct (Model.MeshInstanceKeys m); simpl; split; (done || lia).
Qed.

(** X6: [RemoveMesh] keeps the model well formed.  When every mesh index
    held by a node addresses a mesh, removing a mesh that exists shortens
    the mesh list by one and leaves every held index addressing a mesh;
    removing at an index past the end changes neither the meshes nor any
    key. *)
Theorem RemoveMesh_keeps_indices_valid :
  forall (G : Geometry) (m : Model.t) (index : nat),
    Model.indicesValid m = true ->
    (index < Model.MeshCount m ->
     Model.MeshCount (Model.RemoveMesh m index) = Model.MeshCount m - 1
     /\ Model.indicesValid (Model.RemoveMesh m index) = true)
    /\ (Model.MeshCount m <= index ->
        Model.meshes (Model.RemoveMesh m index) = Model.meshes m
        /\ Model.MeshInstanceKeys (Model.RemoveMesh m index) = Model.MeshInstanceKeys m).
Proof.
  intros G m index Hvalid. apply ModelMore.indicesValid_spec in Hvalid.
  pose proof (RemoveMeshFacts.MeshInstanceKeys_RemoveMesh m index) as Hkeys.
  split.
  - intros Hlt.
    assert (Hcount : Model.MeshCount (Model.RemoveMesh m index) = Model.MeshCount m - 1).
    { unfold Model.MeshCount. cbn [Model.RemoveMesh Model.meshes].
      rewrite length_delete; [reflexivity|]. by apply lookup_lt_is_Some_2. }
    split; [exact Hcount|].
    apply ModelMore.indicesValid_spec. rewrite Hkeys, Hcount.
    apply Forall_forall. intros key Hkey.
    apply list_elem_of_omap in Hkey as (key' & Hin & Hre).
    rewrite Forall_forall in Hvalid. specialize (Hvalid key' Hin).
    unfold Model.rekey in Hre.
    destruct (Nat.eqb_spec (snd key') index); [discriminate|].
    destruct (Nat.ltb_spec index (snd key')); injection Hre as <-; cbn [snd]; lia.
  - intros Hge. split.
    + cbn [Model.RemoveMesh Model.meshes]. apply ModelMore.delete_past_end. exact Hge.
    + rewrite Hkeys. apply ModelMore.omap_id_on.
      eapply Forall_impl; [exact Hvalid|]. intros key Hkey. cbv beta in Hkey.
      apply ModelMore.rekey_below. unfold Model.MeshCount in *. lia.
Qed.

Lemma RemoveMesh_keeps_indices_valid_witness :
  let meshA := Mesh.mk (H := IntGeometry.geometry) "a" [] [] [] [] in
  let meshB := Mesh.mk (H := IntGeometry.geometry) "b" [] [] [] [] in
  let m := fst (Model.AddMeshToRootNode (fst (Model.AddMeshToRootNode Model.new meshA))
                                        meshB) in
  Model.indicesValid m = true
  /\ Model.MeshCount (Model.RemoveMesh m 0) = 1
  /\ Model.indicesValid (Model.RemoveMesh m 0) = true.
Proof.
  intros meshA meshB m.
  assert (Hv : Model.indicesValid m = true) by (vm_compute; reflexivity).
  split; [exact Hv|].
  destruct (proj1 (RemoveMesh_keeps_indices_valid IntGeometry.geometry m 0 Hv))
    as [Hcount Hv']; [vm_compute; lia|].
  split; [etrans; [exact Hcount | reflexivity] | exact Hv'].
Defined.

(** X7: [GetMeshInstance] answers for the keys of the model.  An instance
    it returns carries the requested identity, whose key is a key of the
    model, and the mesh the model holds at that mesh index; for an id whose
    key is no key of the model it returns nothing; and when the node
    identities are distinct it finds every key of the model. *)
Theorem GetMeshInstance_sound_and_complete :
  forall (G : Geometry) (m : Model.t) (id : MeshInstanceId),
    (forall mi, Model.GetMeshInstance m id = Some mi ->
       GetKey id ∈ Model.MeshInstanceKeys m
       /\ MeshInstance.id mi = id
       /\ MeshInstance.mesh mi = Model.GetMesh m (meshIndex id))
    /\ (~ GetKey id ∈ Model.MeshInstanceKeys m -> Model.GetMeshInstance m id = None)
    /\ (NoDup (map (fun p => Node.id (fst p)) (Node.Enumerate (Model.root m))) ->
        GetKey id ∈ Model.MeshInstanceKeys m ->
        is_Some (Model.GetMeshInstance m id)).
Proof.
  intros G m id.
  assert (Hsound : forall mi, Model.GetMeshInstance m id = Some mi ->
             GetKey id ∈ Model.MeshInstanceKeys m
             /\ MeshInstance.id mi = id
             /\ MeshInstance.mesh mi = Model.GetMesh m (meshIndex id)).
  { intros mi. unfold Model.GetMeshInstance.
    change (fold_left _ (Node.Enumerate (Model.root m)) None)
      with (ModelMore.foundNode (Node.Enumerate (Model.root m)) (nodeId id)).
    destruct (ModelMore.foundNode _ _) as [p|] eqn:Hf; [|discriminate].
    apply ModelMore.foundNode_Some in Hf as [Hp Hid].
    case_bool_decide as Hin; [|discriminate]. intros [= <-].
    split; [|split; [|reflexivity]].
    - destruct id as [n i]. apply ModelMore.key_in_nodes. exists p. auto.
    - cbn [MeshInstance.id]. rewrite Hid. by destruct id. }
  split; [exact Hsound|]. split.
  - intros Hout. destruct (Model.GetMeshInstance m id) as [mi|] eqn:E; [|reflexivity].
    exfalso. apply Hout. by destruct (Hsound mi eq_refl).
  - intros Hnd Hin. destruct id as [n i].
    apply ModelMore.key_in_nodes in Hin as (p & Hp & Hid & Hi).
    unfold Model.GetMeshInstance.
    change (fold_left _ (Node.Enumerate (Model.root m)) None)
      with (ModelMore.foundNode (Node.Enumerate (Model.root m)) n).
    rewrite (ModelMore.foundNode_unique _ n p Hnd Hp Hid).
    cbn [meshIndex]. rewrite bool_decide_eq_true_2 by exact Hi. eauto.
Qed.

Lemma GetMeshInstance_sound_and_complete_witness :
  let meshA := Mesh.mk (H := IntGeometry.geometry) "a" [] [] [] [] in
  let m := fst (Model.AddMeshToRootNode Model.new meshA) in
  let id := {| nodeId := 0; meshIndex := 0 |} in
  GetKey id ∈ Model.MeshInstanceKeys m
  /\ is_Some (Model.GetMeshInstance m id)
  /\ Model.GetMeshInstance m {| nodeId := 0; meshIndex := 3 |} = None.
Proof.
  intros meshA m id.
  assert (Hin : GetKey id ∈ Model.MeshInstanceKeys m)
    by (apply list_elem_of_In; simpl; auto).
  split; [exact Hin|]. split.
  - apply (proj2 (proj2 (GetMeshInstance_sound_and_complete IntGeometry.geometry m id)));
      [|exact Hin].
    vm_compute. apply NoDup_singleton.
  - apply (proj1 (proj2 (GetMeshInstance_sound_and_complete IntGeometry.geometry m
                           {| nodeId := 0; meshIndex := 3 |}))).
    intros Hbad. apply list_elem_of_In in Hbad. simpl in Hbad.
    destruct Hbad as [Hbad|[]]. discriminate.
Defined.

(** ** More on the group registry *)

Module RegistryMore.
Section WithGeometry.
Context `{Geometry}.

Abbreviation named name :=
  (fun group : PhysicalGroup.t => bool_decide (PhysicalGroup.GetName group = name)).

Lemma find_app_fresh (groups more : list PhysicalGroup.t) (name : string) :
  name ∉ map PhysicalGroup.GetName groups ->
  find (named name) (groups ++ more) = find (named name) more.
Proof.
  induction groups as [|g groups IH]; simpl; [done|].
  intros Hout. apply not_elem_of_cons in Hout as [Hne Hout].
  rewrite bool_decide_eq_false_2 by congruence. by apply IH.
Qed.

Lemma find_app_used (groups more : list PhysicalGroup.t) (name : string) :
  name ∈ map PhysicalGroup.GetName groups ->
  find (named name) (groups ++ more) = find (named name) groups.
Proof.
  induction groups as [|g groups IH]; simpl; [by intros ?%elem_of_nil|].
  intros Hin. destruct (decide (PhysicalGroup.GetName g = name)) as [E|E].
  - by rewrite bool_decide_eq_true_2.
  - rewrite bool_decide_eq_false_2 by done. apply IH.
    apply elem_of_cons in Hin as [Hin|Hin]; [congruence | exact Hin].
Qed.

Lemma removeFirstNamed_fresh (groups : list PhysicalGroup.t) (name : string) :
  name ∉ map PhysicalGroup.GetName groups ->
  Model.removeFirstNamed name groups = None.
Proof.
  induction groups as [|g groups IH]; simpl; [done|].
  intros Hout. apply not_elem_of_cons in Hout as [Hne Hout].
  rewrite bool_decide_eq_false_2 by congruence. by rewrite IH.
Qed.

Lemma removeFirstNamed_app_fresh (groups more : list PhysicalGroup.t) (name : string) :
  name ∉ map PhysicalGroup.GetName groups ->
  Model.removeFirstNamed name (groups ++ more)
  = option_map (app groups) (Model.removeFirstNamed name more).
Proof.
  induction groups as [|g groups IH]; simpl.
  - intros _. by destruct (Model.removeFirstNamed name more).
  - intros Hout. apply not_elem_of_cons in Hout as [Hne Hout].
    rewrite bool_decide_eq_false_2 by congruence. rewrite IH by done.
    by destruct (Model.removeFirstNamed name more).
Qed.

(** Removal by name splits the list at the first group of that name. *)
Lemma removeFirstNamed_used (groups : list PhysicalGroup.t) (name : string) :
  name ∈ map PhysicalGroup.GetName groups ->
  exists before g after,
    groups = before ++ g :: after
    /\ (name ∉ map PhysicalGroup.GetName before)
    /\ PhysicalGroup.GetName g = name
    /\ Model.removeFirstNamed name groups = Some (before ++ after).
Proof.
  induction groups as [|g groups IH]; simpl; [by intros ?%elem_of_nil|].
  intros Hin. destruct (decide (PhysicalGroup.GetName g = name)) as [E|E].
  - exists [], g, groups. rewrite bool_decide_eq_true_2 by done.
    split_and!; try done. apply not_elem_of_nil.
  - rewrite bool_decide_eq_false_2 by done.
    apply elem_of_cons in Hin as [Hin|Hin]; [congruence|].
    destruct (IH Hin) as (before & g' & after & -> & Hfresh & Hname & ->).
    exists (g :: before), g', after. split_and!; try done.
    simpl. apply not_elem_of_cons. split; [congruence | exact Hfresh].
Qed.

End WithGeometry.
End RegistryMore.

(** X8: looking a group up by name after [AddPhysicalGroup].  The lookup
    of the added name always finds a group of that name: the new, empty
    group when the name was free, but the older group of the same name when
    it was already in use, so that the group just added cannot be reached
    by name; the lookup of any other name is unchanged. *)
Theorem FindPhysicalGroupByName_after_add :
  forall (G : Geometry) (m : Model.t) (name : string),
    let m' := fst (Model.AddPhysicalGroup m name) in
    (name ∉ map PhysicalGroup.GetName (Model.physicalGroups m) ->
     Model.FindPhysicalGroupByName m name = None
     /\ Model.FindPhysicalGroupByName m' name = Some (PhysicalGroup.new name))
    /\ (name ∈ map PhysicalGroup.GetName (Model.physicalGroups m) ->
        Model.FindPhysicalGroupByName m' name = Model.FindPhysicalGroupByName m name
        /\ is_Some (Model.FindPhysicalGroupByName m name))
    /\ (forall other, other <> name ->
          Model.FindPhysicalGroupByName m' other = Model.FindPhysicalGroupByName m other)
    /\ Model.PhysicalGroupCount m' = S (Model.PhysicalGroupCount m)
    /\ Model.GetPhysicalGroup m' (Model.PhysicalGroupCount m)
       = Some (PhysicalGroup.new name).
Proof.
  intros G m name m'. unfold Model.FindPhysicalGroupByName. subst m'.
  cbn [Model.AddPhysicalGroup fst Model.physicalGroups]. split_and!.
  - intros Hfresh. split; [by apply RegistryFacts.find_unnamed|].
    rewrite RegistryMore.find_app_fresh by done. simpl.
    by rewrite bool_decide_eq_true_2.
  - intros Hused. split; [by apply RegistryMore.find_app_used|].
    destruct (RegistryFacts.find_named _ _ Hused) as (g & -> & _). eauto.
  - intros other Hne.
    destruct (decide (other ∈ map PhysicalGroup.GetName (Model.physicalGroups m)))
      as [Hin|Hout].
    + by apply RegistryMore.find_app_used.
    + rewrite RegistryMore.find_app_fresh by done. simpl.
      rewrite bool_decide_eq_false_2 by (simpl; congruence).
      symmetry. by apply RegistryFacts.find_unnamed.
  - unfold Model.PhysicalGroupCount. cbn [Model.physicalGroups].
    rewrite length_app. simpl. lia.
  - unfold Model.GetPhysicalGroup, Model.PhysicalGroupCount. cbn [Model.physicalGroups].
    by rewrite list_lookup_middle.
Qed.

Lemma FindPhysicalGroupByName_after_add_witness :
  let walls := PhysicalGroup.AddMesh (PhysicalGroup.new "walls")
                                     {| nodeId := 1; meshIndex := 0 |} in
  let m := Model.setPhysicalGroups (Model.new (H := IntGeometry.geometry)) [walls] in
  "walls" ∈ map PhysicalGroup.GetName (Model.physicalGroups m)
  /\ Model.FindPhysicalGroupByName (fst (Model.AddPhysicalGroup m "walls")) "walls"
     = Some walls.
Proof.
  intros walls m.
  assert (Hin : "walls" ∈ map PhysicalGroup.GetName (Model.physicalGroups m))
    by (apply list_elem_of_In; simpl; auto).
  split; [exact Hin|].
  destruct (proj1 (proj2 (FindPhysicalGroupByName_after_add IntGeometry.geometry m "walls"))
              Hin) as [Hsame _].
  etrans; [exact Hsame | reflexivity].
Defined.

(** X9: removal of a group.  [RemovePhysicalGroup] with an index in range
    removes exactly the group at that index (the groups before it keep
    their index, the groups behind it move down by one) and answers true;
    with a negative index or one past the end it leaves the model
    unchanged and answers false.  [RemovePhysicalGroupByName] removes only
    the first group of the name and answers true, or leaves the model
    unchanged and answers false when no group has the name; removing by
    its name a group that was just added under a free name restores the
    group list. *)
Theorem RemovePhysicalGroup_exact :
  forall (G : Geometry) (m : Model.t),
    (forall index : Z,
        (0 <= index < Z.of_nat (Model.PhysicalGroupCount m))%Z ->
        let m' := fst (Model.RemovePhysicalGroup m index) in
        snd (Model.RemovePhysicalGroup m index) = true
        /\ Model.PhysicalGroupCount m' = Model.PhysicalGroupCount m - 1
        /\ (forall j, j < Z.to_nat index ->
              Model.GetPhysicalGroup m' j = Model.GetPhysicalGroup m j)
        /\ (forall j, Z.to_nat index <= j ->
              Model.GetPhysicalGroup m' j = Model.GetPhysicalGroup m (S j)))
    /\ (forall index : Z,
          (index < 0 \/ Z.of_nat (Model.PhysicalGroupCount m) <= index)%Z ->
          Model.RemovePhysicalGroup m index = (m, false))
    /\ (forall name,
          name ∉ map PhysicalGroup.GetName (Model.physicalGroups m) ->
          Model.RemovePhysicalGroupByName m name = (m, false)
          /\ Model.physicalGroups
               (fst (Model.RemovePhysicalGroupByName
                       (fst (Model.AddPhysicalGroup m name)) name))
             = Model.physicalGroups m)
    /\ (forall name,
          name ∈ map PhysicalGroup.GetName (Model.physicalGroups m) ->
          exists before g after,
            Model.physicalGroups m = before ++ g :: after
            /\ (name ∉ map PhysicalGroup.GetName before)
            /\ PhysicalGroup.GetName g = name
            /\ snd (Model.RemovePhysicalGroupByName m name) = true
            /\ Model.physicalGroups (fst (Model.RemovePhysicalGroupByName m name))
               = before ++ after).
Proof.
  intros G m. split_and!.
  - intros index Hrange. unfold Model.RemovePhysicalGroup.
    unfold Model.PhysicalGroupCount in *.
    destruct (Z.leb_spec 0 index); [|lia].
    destruct (Z.ltb_spec index (Z.of_nat (length (Model.physicalGroups m)))); [|lia].
    cbn [andb fst snd Model.setPhysicalGroups Model.physicalGroups].
    unfold Model.GetPhysicalGroup. cbn [Model.physicalGroups]. split_and!.
    + reflexivity.
    + apply length_delete, lookup_lt_is_Some_2. lia.
    + intros j Hj. by apply list_lookup_delete_lt.
    + intros j Hj. by apply list_lookup_delete_ge.
  - intros index Hout. unfold Model.RemovePhysicalGroup.
    unfold Model.PhysicalGroupCount in *.
    destruct (Z.leb_spec 0 index); destruct (Z.ltb_spec index
      (Z.of_nat (length (Model.physicalGroups m)))); simpl; try reflexivity; lia.
  - intros name Hfresh. unfold Model.RemovePhysicalGroupByName. split.
    + by rewrite RegistryMore.removeFirstNamed_fresh.
    + cbn [Model.AddPhysicalGroup fst Model.physicalGroups].
      rewrite RegistryMore.removeFirstNamed_app_fresh by done. simpl.
      rewrite bool_decide_eq_true_2 by reflexivity. simpl. apply app_nil_r.
  - intros name Hused.
    destruct (RegistryMore.removeFirstNamed_used _ _ Hused)
      as (before & g & after & Hsplit & Hfresh & Hname & Hrem).
    exists before, g, after. unfold Model.RemovePhysicalGroupByName. rewrite Hrem.
    split_and!; done.
Qed.

Lemma RemovePhysicalGroup_exact_witness :
  let m := fst (Model.AddPhysicalGroup
                  (fst (Model.AddPhysicalGroup (Model.new (H := IntGeometry.geometry))
                          "inlet")) "outlet") in
  (0 <= 0 < Z.of_nat (Model.PhysicalGroupCount m))%Z
  /\ map PhysicalGroup.GetName
         (Model.physicalGroups (fst (Model.RemovePhysicalGroup m 0))) = ["outlet"]
  /\ Model.GetPhysicalGroup (fst (Model.RemovePhysicalGroup m 0)) 0
     = Model.GetPhysicalGroup m 1.
Proof.
  intros m.
  assert (Hr : (0 <= 0 < Z.of_nat (Model.PhysicalGroupCount m))%Z) by (split; [reflexivity | vm_compute; reflexivity]).
  split; [exact Hr|]. split; [reflexivity|].
  destruct (proj1 (RemovePhysicalGroup_exact IntGeometry.geometry m) 0%Z Hr)
    as (_ & _ & _ & Hshift).
  apply (Hshift 0). simpl. lia.
Defined.

(** ** Extraction of a group and of the remainder *)

Module ExtractionFacts.
Section WithGeometry.
Context `{Geometry}.
Import ExporterStl.

(** Face [face] of the instance under [meshKey] is recorded as used. *)
Definition faceUsed (used : gmap (nat * nat) UsedFaces) (meshKey : nat * nat)
           (face : Z) : Prop :=
  match used !! meshKey with
  | Some UsedAll => True
  | Some (UsedList usedFaces) => face ∈ usedFaces
  | None => False
  end.

(** The triangle addressed by a mesh key and a local index. *)
Definition triangleAt (m : Model.t) (id : (nat * nat) * nat) : option Triangle.t :=
  mesh ← Model.GetMesh m (snd (fst id)); Mesh.GetTriangle mesh (snd id).

(** The mesh key and the local index address a triangle of an instance. *)
Definition isTriangle (m : Model.t) (meshKey : nat * nat) (face : nat) : Prop :=
  meshKey ∈ Model.MeshInstanceKeys m
  /\ exists mesh, Model.GetMesh m (snd meshKey) = Some mesh
                  /\ face < Mesh.TriangleCount mesh.

Lemma dedupe_spec (items : list Z) :
  NoDup (dedupe items) /\ forall f, f ∈ dedupe items <-> f ∈ items.
Proof.
  destruct (PhysicalGroupMore.seen_fold_spec items [] (NoDup_nil_2 (A := Z)))
    as [Hnd Hmem].
  split; [exact Hnd|]. intros f. unfold dedupe. rewrite Hmem, elem_of_nil. tauto.
Qed.

Lemma recordUsed_ne used (key k : nat * nat) (faces : list Z) :
  k <> key -> recordUsed used key faces !! k = used !! k.
Proof.
  intros Hne. unfold recordUsed.
  destruct (used !! key) as [u|] eqn:E.
  - destruct faces as [|f faces]; cbn [length Nat.eqb].
    + by rewrite lookup_insert_ne.
    + rewrite E. destruct u; [reflexivity | by rewrite lookup_insert_ne].
  - destruct faces as [|f faces]; cbn [length Nat.eqb].
    + by rewrite !lookup_insert_ne.
    + rewrite lookup_insert_eq. by rewrite !lookup_insert_ne.
Qed.

Lemma recordUsed_eq used (key : nat * nat) (faces : list Z) :
  recordUsed used key faces !! key
  = Some match faces, used !! key with
         | [], _ => UsedAll
         | _, Some UsedAll => UsedAll
         | _, Some (UsedList currentUsed) => UsedList (dedupe (currentUsed ++ faces))
         | _, None => UsedList (dedupe faces)
         end.
Proof.
  unfold recordUsed.
  destruct (used !! key) as [u|] eqn:E.
  - destruct faces as [|f faces]; cbn [length Nat.eqb].
    + by rewrite lookup_insert_eq.
    + rewrite E. destruct u; [exact E | by rewrite lookup_insert_eq].
  - destruct faces as [|f faces]; cbn [length Nat.eqb].
    + by rewrite lookup_insert_eq.
    + rewrite lookup_insert_eq. by rewrite lookup_insert_eq.
Qed.

Lemma recordUsed_faceUsed used (key : nat * nat) (faces : list Z) (i : Z) :
  faceUsed (recordUsed used key faces) key i
  <-> faceUsed used key i \/ faces = [] \/ i ∈ faces.
Proof.
  unfold faceUsed. rewrite recordUsed_eq.
  destruct faces as [|f faces]; [tauto|].
  destruct (used !! key) as [[|l]|].
  - tauto.
  - rewrite (proj2 (dedupe_spec _)), elem_of_app. naive_solver.
  - rewrite (proj2 (dedupe_spec _)). naive_solver.
Qed.

Lemma recordUsed_faceUsed_ne used (key k : nat * nat) (faces : list Z) (i : Z) :
  k <> key -> faceUsed (recordUsed used key faces) k i <-> faceUsed used k i.
Proof. intros Hne. unfold faceUsed. by rewrite recordUsed_ne. Qed.

End WithGeometry.
End ExtractionFacts.

(** X10: the bookkeeping of used faces kept by
    [CreateModelFromPhysicalGroup].  Recording an instance with a face
    list touches only the entry of its key; the entry exists afterwards; an
    empty face list marks the whole instance as used, and an instance
    marked as a whole stays so whatever is recorded later; otherwise the
    entry is a duplicate-free list holding exactly the faces recorded
    before and the new ones. *)
Theorem recordUsed_accumulates :
  forall (used : gmap (nat * nat) ExporterStl.UsedFaces) (key : nat * nat)
         (faces : list Z),
    let used' := ExporterStl.recordUsed used key faces in
    (forall k, k <> key -> used' !! k = used !! k)
    /\ is_Some (used' !! key)
    /\ (faces = [] -> used' !! key = Some ExporterStl.UsedAll)
    /\ (used !! key = Some ExporterStl.UsedAll -> used' !! key = Some ExporterStl.UsedAll)
    /\ (forall l, used' !! key = Some (ExporterStl.UsedList l) -> NoDup l)
    /\ (forall i, ExtractionFacts.faceUsed used' key i
                  <-> ExtractionFacts.faceUsed used key i \/ faces = [] \/ i ∈ faces).
Proof.
  intros used key faces used'. subst used'. split_and!.
  - intros k Hne. by apply ExtractionFacts.recordUsed_ne.
  - rewrite ExtractionFacts.recordUsed_eq. eauto.
  - intros ->. by rewrite ExtractionFacts.recordUsed_eq.
  - intros Hall. rewrite ExtractionFacts.recordUsed_eq, Hall. by destruct faces.
  - intros l. rewrite ExtractionFacts.recordUsed_eq. intros [= Hl].
    destruct faces as [|f faces]; [discriminate|].
    destruct (used !! key) as [[|l0]|]; [discriminate| |];
      injection Hl as <-; apply ExtractionFacts.dedupe_spec.
  - intros i. apply ExtractionFacts.recordUsed_faceUsed.
Qed.

Lemma recordUsed_accumulates_witness :
  (@nil Z) = []
  /\ ExporterStl.recordUsed ∅ (0, 0) [] !! (0, 0) = Some ExporterStl.UsedAll.
Proof.
  split; [reflexivity|].
  exact (proj1 (proj2 (proj2 (recordUsed_accumulates ∅ (0, 0) []))) eq_refl).
Defined.

(** ** Models built from cloned meshes *)

Module CloneFacts.
Section WithGeometry.
Context `{Geometry}.
Import ExporterStl.

(** What both extraction methods do for one instance that contributes:
    the clone is added and a new child of the root holds its index. *)
Definition addClone (m : Model.t) (mesh : Mesh.t) (faces : list nat)
           (tr : Transformation) : Model.t :=
  Model.AddChildNodeToRoot (fst (Model.AddMesh m (cloneMesh mesh faces))) EmptyString
                           (nodeTransformation tr) [Model.MeshCount m].

Definition contribution : Type := option (Mesh.t * list nat * Transformation).

Definition addContribution (m : Model.t) (c : contribution) : Model.t :=
  match c with
  | Some (mesh, faces, tr) => addClone m mesh faces tr
  | None => m
  end.

Definition clonedMesh (c : contribution) : option Mesh.t :=
  match c with
  | Some (mesh, faces, _) => Some (cloneMesh mesh faces)
  | None => None
  end.

Definition copiedTriangles (c : contribution) : list Triangle.t :=
  match c with
  | Some (mesh, faces, _) => omap (Mesh.GetTriangle mesh) faces
  | None => []
  end.

Definition shape (c : Node.t) : nat * list Node.t * list nat :=
  (Node.id c, Node.childNodes c, Node.meshIndices c).

(** The root holds no mesh, and its children are leaves: child [k] has
    identity [k + 1] and holds mesh [k] alone. *)
Definition flat (m : Model.t) : Prop :=
  Node.meshIndices (Model.root m) = []
  /\ Model.idGenerator m = S (Model.MeshCount m)
  /\ map shape (Node.childNodes (Model.root m))
     = map (fun k => (S k, [], [k])) (seq 0 (Model.MeshCount m)).

(** A new model that received the materials. *)
Definition withMaterials (materials : list Material.t) : Model.t :=
  fold_left (fun m material => fst (Model.AddMaterial m material)) materials Model.new.

Lemma materials_fold materials (m : Model.t) :
  let m' := fold_left (fun m material => fst (Model.AddMaterial m material)) materials m in
  Model.materials m' = Model.materials m ++ materials
  /\ Model.root m' = Model.root m /\ Model.idGenerator m' = Model.idGenerator m
  /\ Model.meshes m' = Model.meshes m
  /\ Model.physicalGroups m' = Model.physicalGroups m.
Proof.
  revert m. induction materials as [|x materials IH]; intros m; cbn [fold_left].
  - by rewrite app_nil_r.
  - destruct (IH (fst (Model.AddMaterial m x))) as (-> & -> & -> & -> & ->).
    cbn. by rewrite <- app_assoc.
Qed.

Lemma flat_withMaterials materials : flat (withMaterials materials).
Proof.
  destruct (materials_fold materials Model.new) as (_ & Hroot & Hgen & Hmeshes & _).
  unfold flat, Model.MeshCount, withMaterials. rewrite Hroot, Hgen, Hmeshes. by cbn.
Qed.

Lemma flat_addClone m mesh faces tr : flat m -> flat (addClone m mesh faces tr).
Proof.
  intros (Hroot & Hgen & Hchildren). unfold flat, addClone, Model.MeshCount in *.
  cbn [Model.AddMesh Model.AddChildNodeToRoot fst Model.root Model.idGenerator
       Model.meshes Node.meshIndices Node.childNodes].
  rewrite length_app, Nat.add_1_r. split_and!; [exact Hroot | by rewrite Hgen |].
  rewrite map_app, Hchildren, seq_S, map_app. cbn. by rewrite Hgen.
Qed.

Lemma leaves_keys ancestors (children : list Node.t) :
  forall start count,
    map shape children = map (fun k => (S k, [], [k])) (seq start count) ->
    flat_map RemoveMeshFacts.nodeKeys (flat_map (Node.EnumerateFrom ancestors) children)
    = map (fun k => (S k, k)) (seq start count).
Proof.
  induction children as [|c children IH]; intros start count Hshape.
  - destruct count; [reflexivity | discriminate].
  - destruct count as [|count]; [discriminate|].
    destruct c as [i nm tr cs indices].
    cbn [map seq] in Hshape. unfold shape at 1 in Hshape.
    cbn [Node.id Node.childNodes Node.meshIndices] in Hshape.
    injection Hshape as -> -> -> Hrest.
    cbn [flat_map Node.EnumerateFrom app map seq].
    unfold RemoveMeshFacts.nodeKeys at 1. cbn [fst Node.id Node.meshIndices map app].
    f_equal. by apply IH.
Qed.

(** In a flat model mesh [k] has exactly one instance, of key [(k+1, k)]. *)
Lemma flat_keys (m : Model.t) :
  flat m ->
  Model.MeshInstanceKeys m = map (fun k => (S k, k)) (seq 0 (Model.MeshCount m)).
Proof.
  intros (Hroot & _ & Hchildren).
  rewrite RemoveMeshFacts.MeshInstanceKeys_nodes. unfold Node.Enumerate.
  destruct (Model.root m) as [i nm tr children indices]. cbn in Hroot, Hchildren.
  subst indices. cbn [Node.EnumerateFrom flat_map].
  unfold RemoveMeshFacts.nodeKeys at 1. cbn [fst Node.meshIndices map app].
  by apply leaves_keys.
Qed.

Lemma flat_addContribution m c : flat m -> flat (addContribution m c).
Proof. destruct c as [[[mesh faces] tr]|]; [apply flat_addClone | done]. Qed.

Lemma contributions_fold (cs : list contribution) (m : Model.t) :
  let m' := fold_left addContribution cs m in
  Model.materials m' = Model.materials m
  /\ Model.physicalGroups m' = Model.physicalGroups m
  /\ Model.meshes m' = Model.meshes m ++ omap clonedMesh cs
  /\ (flat m -> flat m').
Proof.
  revert m. induction cs as [|c cs IH]; intros m; cbn [fold_left].
  - rewrite app_nil_r. done.
  - destruct (IH (addContribution m c)) as (-> & -> & -> & Hflat).
    destruct c as [[[mesh faces] tr]|]; cbn [addContribution omap list_omap clonedMesh].
    + split_and!; [done | done | | by intros ?; apply Hflat, flat_addClone].
      unfold addClone. cbn. by rewrite <- app_assoc.
    + done.
Qed.

Lemma cloned_triangles (cs : list contribution) :
  concat (map Mesh.triangles (omap clonedMesh cs)) = flat_map copiedTriangles cs.
Proof.
  induction cs as [|c cs IH]; [reflexivity|].
  destruct c as [[[mesh faces] tr]|]; cbn [omap list_omap clonedMesh flat_map
    copiedTriangles map concat app]; by rewrite IH.
Qed.

Lemma flat_map_ext_elem {A B} (f g : A -> list B) (l : list A) :
  (forall a, a ∈ l -> f a = g a) -> flat_map f l = flat_map g l.
Proof.
  induction l as [|a l IH]; intros Hfg; [reflexivity|].
  cbn [flat_map]. rewrite Hfg by set_solver. f_equal. apply IH.
  intros b Hb. apply Hfg. set_solver.
Qed.

(** A loop whose body adds the contribution of each item. *)
Lemma forEach_contributions {A} (body : Model.t -> A -> result Model.t)
      (contrib : A -> contribution) (items : list A) :
  (forall m a, a ∈ items -> body m a = Ok (addContribution m (contrib a))) ->
  forall m, forEach body items m = Ok (fold_left addContribution (map contrib items) m).
Proof.
  induction items as [|a items IH]; intros Hbody m; [reflexivity|].
  cbn [forEach map fold_left]. rewrite Hbody by set_solver. rewrite bind_Ok.
  apply IH. intros m' a' Hin. apply Hbody. set_solver.
Qed.

(** Every enumerated instance carries the mesh its key addresses. *)
Lemma instance_mesh (m : Model.t) (inst : MeshInstance.t) :
  inst ∈ Model.EnumerateMeshInstances m ->
  MeshInstance.mesh inst = Model.GetMesh m (snd (GetKey (MeshInstance.id inst)))
  /\ GetKey (MeshInstance.id inst) ∈ Model.MeshInstanceKeys m.
Proof.
  intros Hin. split.
  - unfold Model.EnumerateMeshInstances in Hin.
    apply list_elem_of_In, in_flat_map in Hin as (p & _ & Hin).
    unfold Model.nodeMeshInstances in Hin.
    apply in_map_iff in Hin as (i & <- & _). reflexivity.
  - unfold Model.MeshInstanceKeys. apply list_elem_of_fmap. by exists inst.
Qed.

Lemma key_instance (m : Model.t) (key : nat * nat) :
  key ∈ Model.MeshInstanceKeys m ->
  exists inst, inst ∈ Model.EnumerateMeshInstances m
               /\ GetKey (MeshInstance.id inst) = key.
Proof.
  unfold Model.MeshInstanceKeys. intros Hin.
  apply list_elem_of_fmap in Hin as (inst & -> & Hin). by exists inst.
Qed.

Lemma valid_instance_mesh (m : Model.t) (inst : MeshInstance.t) :
  Model.indicesValid m = true ->
  inst ∈ Model.EnumerateMeshInstances m ->
  exists mesh, MeshInstance.mesh inst = Some mesh.
Proof.
  intros Hvalid Hin. destruct (instance_mesh m inst Hin) as [-> Hkey].
  apply ModelMore.indicesValid_spec in Hvalid. rewrite Forall_forall in Hvalid.
  specialize (Hvalid _ Hkey). cbv beta in Hvalid.
  apply lookup_lt_is_Some_2 in Hvalid as [mesh Hmesh]. by exists mesh.
Qed.

Lemma triangles_of_key (m : Model.t) key mesh (faces : list nat) :
  Model.GetMesh m (snd key) = Some mesh ->
  omap (ExtractionFacts.triangleAt m) (map (pair key) faces)
  = omap (Mesh.GetTriangle mesh) faces.
Proof.
  intros Hmesh. induction faces as [|f faces IH]; [reflexivity|].
  cbn [map omap list_omap]. rewrite IH.
  unfold ExtractionFacts.triangleAt at 1. cbn [fst snd]. rewrite Hmesh. reflexivity.
Qed.

End WithGeometry.
End CloneFacts.

(** ** The remainder model *)

Module RemainderFacts.
Section WithGeometry.
Context `{Geometry}.
Import ExporterStl.

(** What an instance contributes to the remainder. *)
Definition contrib (used : gmap (nat * nat) UsedFaces) (inst : MeshInstance.t)
  : CloneFacts.contribution :=
  match used !! GetKey (MeshInstance.GetId inst), MeshInstance.mesh inst with
  | Some UsedAll, _ => None
  | u, Some mesh =>
      match remainderFaces mesh u with
      | Some faces => Some (mesh, faces, MeshInstance.GetTransformation inst)
      | None => None
      end
  | _, None => None
  end.

Lemma allFaces_member (mesh : Mesh.t) (i : nat) :
  i ∈ allFaces mesh <-> i < Mesh.TriangleCount mesh.
Proof. unfold allFaces. rewrite list_elem_of_In, in_seq. lia. Qed.

Lemma remainderFaces_member (mesh : Mesh.t) (u : option UsedFaces) (i : nat) :
  (exists faces, remainderFaces mesh u = Some faces /\ i ∈ faces)
  <-> i < Mesh.TriangleCount mesh
      /\ match u with
         | Some UsedAll => False
         | Some (UsedList usedFaces) => Z.of_nat i ∉ usedFaces
         | None => True
         end.
Proof.
  destruct u as [[|l]|]; cbn [remainderFaces].
  - split; [by intros (faces & [=] & _) | tauto].
  - split.
    + intros (faces & Hfaces & Hin). case_bool_decide; [discriminate|].
      injection Hfaces as <-. apply list_elem_of_filter in Hin as [Hout Hin].
      by apply allFaces_member in Hin.
    + intros [Hlt Hout].
      assert (Hin : i ∈ filter (fun i => Z.of_nat i ∉ l) (allFaces mesh)).
      { apply list_elem_of_filter. split; [done | by apply allFaces_member]. }
      eexists. split; [|exact Hin]. case_bool_decide as E; [|reflexivity].
      rewrite E in Hin. by apply elem_of_nil in Hin.
  - rewrite <- allFaces_member. split.
    + by intros (faces & [= <-] & Hin).
    + intros [Hin _]. by exists (allFaces mesh).
Qed.

Lemma unused_iff (used : gmap (nat * nat) UsedFaces) (key : nat * nat) (i : nat) :
  match used !! key with
  | Some UsedAll => False
  | Some (UsedList usedFaces) => Z.of_nat i ∉ usedFaces
  | None => True
  end <-> ~ ExtractionFacts.faceUsed used key (Z.of_nat i).
Proof. unfold ExtractionFacts.faceUsed. destruct (used !! key) as [[|l]|]; tauto. Qed.

Lemma body_contrib (original : Model.t) used (inst : MeshInstance.t) :
  Model.indicesValid original = true ->
  inst ∈ Model.EnumerateMeshInstances original ->
  forall m : Model.t,
    match used !! GetKey (MeshInstance.GetId inst) with
    | Some UsedAll => Ok m
    | u =>
        originalMesh ← MeshInstance.GetMesh inst;
        match remainderFaces originalMesh u with
        | Some faces =>
            let '(m', meshIndex) := Model.AddMesh m (cloneMesh originalMesh faces) in
            Ok (Model.AddChildNodeToRoot m' EmptyString
                  (nodeTransformation (MeshInstance.GetTransformation inst))
                  [meshIndex])
        | None => Ok m
        end
    end = Ok (CloneFacts.addContribution m (contrib used inst)).
Proof.
  intros Hvalid Hin m.
  destruct (CloneFacts.valid_instance_mesh original inst Hvalid Hin) as [mesh Hmesh].
  unfold contrib, MeshInstance.GetMesh. rewrite Hmesh.
  destruct (used !! _) as [[|l]|]; [reflexivity | |]; rewrite bind_Ok;
    by destruct (remainderFaces mesh _).
Qed.

Lemma ids_contrib (original : Model.t) used :
  omap (ExtractionFacts.triangleAt original) (remainderTriangleIds original used)
  = flat_map CloneFacts.copiedTriangles
             (map (contrib used) (Model.EnumerateMeshInstances original)).
Proof.
  unfold remainderTriangleIds.
  rewrite RemoveMeshFacts.omap_flat_map, RemoveMeshFacts.flat_map_map.
  apply CloneFacts.flat_map_ext_elem. intros inst Hin.
  destruct (CloneFacts.instance_mesh original inst Hin) as [Hmesh _].
  unfold contrib. change (MeshInstance.GetId inst) with (MeshInstance.id inst).
  destruct (used !! _) as [[|l]|]; [reflexivity | |];
    (destruct (MeshInstance.mesh inst) as [mesh|]; [|reflexivity]);
    (destruct (remainderFaces mesh _) as [faces|]; [|reflexivity]);
    cbn [CloneFacts.copiedTriangles]; by apply CloneFacts.triangles_of_key.
Qed.

(** The remainder copies the faces of the instances that are not
    recorded as used. *)
Lemma remainder_member (original : Model.t) used (key : nat * nat) (i : nat) :
  (key, i) ∈ remainderTriangleIds original used
  <-> ExtractionFacts.isTriangle original key i
      /\ ~ ExtractionFacts.faceUsed used key (Z.of_nat i).
Proof.
  unfold remainderTriangleIds, ExtractionFacts.isTriangle.
  rewrite list_elem_of_In, in_flat_map. split.
  - intros (inst & Hinst%list_elem_of_In & Hin).
    destruct (CloneFacts.instance_mesh original inst Hinst) as [Hmesh Hkey].
    change (MeshInstance.GetId inst) with (MeshInstance.id inst) in Hin.
    assert (Hcase :
      exists mesh faces,
        MeshInstance.mesh inst = Some mesh
        /\ remainderFaces mesh (used !! GetKey (MeshInstance.id inst)) = Some faces
        /\ In (key, i) (map (pair (GetKey (MeshInstance.id inst))) faces)).
    { destruct (used !! GetKey (MeshInstance.id inst)) as [[|l]|]; [done| |];
        (destruct (MeshInstance.mesh inst) as [mesh|]; [|done]);
        (destruct (remainderFaces mesh _) as [faces|] eqn:E; [|done]);
        by exists mesh, faces. }
    destruct Hcase as (mesh & faces & Hm & Hfaces & Hmem).
    apply in_map_iff in Hmem as (j & [= <- <-] & Hj%list_elem_of_In).
    destruct (proj1 (remainderFaces_member
                       mesh (used !! GetKey (MeshInstance.id inst)) j))
      as [Hlt Hu]; [by exists faces|].
    split.
    + split; [exact Hkey|]. exists mesh. split; [by rewrite <- Hmesh | exact Hlt].
    + exact (proj1 (unused_iff used (GetKey (MeshInstance.id inst)) j) Hu).
  - intros [(Hkey & mesh & Hmesh & Hlt) Hnot].
    destruct (CloneFacts.key_instance original key Hkey) as (inst & Hinst & <-).
    destruct (CloneFacts.instance_mesh original inst Hinst) as [Hm _].
    rewrite Hmesh in Hm. exists inst. split; [by apply list_elem_of_In|].
    change (MeshInstance.GetId inst) with (MeshInstance.id inst).
    destruct (proj2 (remainderFaces_member mesh
                       (used !! GetKey (MeshInstance.id inst)) i))
      as (faces & Hfaces & Hin).
    { split; [exact Hlt|].
      exact (proj2 (unused_iff used (GetKey (MeshInstance.id inst)) i) Hnot). }
    rewrite Hm.
    destruct (used !! GetKey (MeshInstance.id inst)) as [[|l]|]; [done| |];
      rewrite Hfaces; apply in_map; by apply list_elem_of_In.
Qed.

End WithGeometry.
End RemainderFacts.

(** X11: [CreateRemainderModel] on a model whose nodes only hold indices
    of existing meshes.  It returns a model with the materials of the
    original and no physical group, in which every mesh has exactly one
    instance, under a child of the root; the triangles of its meshes are,
    in order, the triangles of the original instances that the bookkeeping
    does not record as used: a face of an instance is copied exactly when
    the instance has no entry, or has a face list that does not hold the
    face. *)
Theorem CreateRemainderModel_unused_faces :
  forall (G : Geometry) (original : Model.t)
         (used : gmap (nat * nat) ExporterStl.UsedFaces),
    Model.indicesValid original = true ->
    exists remainder,
      ExporterStl.CreateRemainderModel original used = Ok remainder
      /\ Model.materials remainder = Model.materials original
      /\ Model.physicalGroups remainder = []
      /\ concat (map Mesh.triangles (Model.meshes remainder))
         = omap (ExtractionFacts.triangleAt original)
                (ExporterStl.remainderTriangleIds original used)
      /\ Model.MeshInstanceKeys remainder
         = map (fun k => (S k, k)) (seq 0 (Model.MeshCount remainder))
      /\ (forall key i,
            (key, i) ∈ ExporterStl.remainderTriangleIds original used
            <-> ExtractionFacts.isTriangle original key i
                /\ ~ ExtractionFacts.faceUsed used key (Z.of_nat i)).
Proof.
  intros G original used Hvalid. eexists. split.
  - unfold ExporterStl.CreateRemainderModel.
    apply (CloneFacts.forEach_contributions _ (RemainderFacts.contrib used)).
    intros m inst Hin. by apply (RemainderFacts.body_contrib original).
  - pose proof (CloneFacts.contributions_fold
                  (map (RemainderFacts.contrib used)
                       (Model.EnumerateMeshInstances original))
                  (CloneFacts.withMaterials (Model.materials original)))
      as (Hmat & Hgroups & Hmeshes & Hflat).
    pose proof (CloneFacts.materials_fold (Model.materials original) Model.new)
      as (Hmat0 & _ & _ & Hmeshes0 & Hgroups0).
    unfold CloneFacts.withMaterials in *.
    split_and!.
    + rewrite Hmat, Hmat0. reflexivity.
    + rewrite Hgroups, Hgroups0. reflexivity.
    + rewrite Hmeshes, Hmeshes0. cbn [Model.meshes Model.new app].
      rewrite CloneFacts.cloned_triangles. symmetry. apply RemainderFacts.ids_contrib.
    + apply CloneFacts.flat_keys, Hflat, (CloneFacts.flat_withMaterials _).
    + intros key i. apply RemainderFacts.remainder_member.
Qed.

Lemma CreateRemainderModel_unused_faces_witness :
  Model.indicesValid Example.boxModel = true
  /\ exists remainder,
       ExporterStl.CreateRemainderModel Example.boxModel ∅ = Ok remainder
       /\ Model.materials remainder = Model.materials Example.boxModel.
Proof.
  assert (Hvalid : Model.indicesValid Example.boxModel = true) by reflexivity.
  split; [exact Hvalid|].
  destruct (CreateRemainderModel_unused_faces IntGeometry.geometry Example.boxModel ∅ Hvalid)
    as (remainder & Hrun & Hmaterials & _).
  exists remainder. split; assumption.
Defined.

(** ** The model of a group *)

Module GroupFacts.
Section WithGeometry.
Context `{Geometry}.
Import ExporterStl.

Definition entry : Type := ((nat * nat) * (MeshInstance.t * list Z))%type.

(** The two halves of the first pass of [CreateModelFromPhysicalGroup]. *)
Definition collectEntries (group : PhysicalGroup.t) (entries : list entry)
           (inst : MeshInstance.t) : list entry :=
  if PhysicalGroup.ContainsMesh group (Some (MeshInstance.GetId inst))
  then mapSet (GetKey (MeshInstance.GetId inst))
              (inst, PhysicalGroup.GetMeshFaceIndices group (Some (MeshInstance.GetId inst)))
              entries
  else entries.

Definition collectUsed (group : PhysicalGroup.t) (used : gmap (nat * nat) UsedFaces)
           (inst : MeshInstance.t) : gmap (nat * nat) UsedFaces :=
  if PhysicalGroup.ContainsMesh group (Some (MeshInstance.GetId inst))
  then recordUsed used (GetKey (MeshInstance.GetId inst))
                  (PhysicalGroup.GetMeshFaceIndices group (Some (MeshInstance.GetId inst)))
  else used.

(** What an entry of the first pass contributes to the model. *)
Definition contrib (e : entry) : CloneFacts.contribution :=
  match MeshInstance.mesh (fst (snd e)) with
  | Some mesh =>
      match groupFaces mesh (snd (snd e)) with
      | Some faces => Some (mesh, faces, MeshInstance.GetTransformation (fst (snd e)))
      | None => None
      end
  | None => None
  end.

Lemma collectEntries_eq (group : PhysicalGroup.t) entries (inst : MeshInstance.t) :
  collectEntries group entries inst
  = if bool_decide (GetKey (MeshInstance.id inst) ∈ PhysicalGroup.meshes group)
    then mapSet (GetKey (MeshInstance.id inst))
                (inst, default [] (PhysicalGroup.meshFaces group
                                     !! GetKey (MeshInstance.id inst)))
                entries
    else entries.
Proof. reflexivity. Qed.

Lemma collectUsed_eq (group : PhysicalGroup.t) used (inst : MeshInstance.t) :
  collectUsed group used inst
  = if bool_decide (GetKey (MeshInstance.id inst) ∈ PhysicalGroup.meshes group)
    then recordUsed used (GetKey (MeshInstance.id inst))
                    (default [] (PhysicalGroup.meshFaces group
                                   !! GetKey (MeshInstance.id inst)))
    else used.
Proof. reflexivity. Qed.

Lemma collect_split (original : Model.t) (group : PhysicalGroup.t) used :
  collectGroupMeshes original group used
  = (fold_left (collectEntries group) (Model.EnumerateMeshInstances original) [],
     fold_left (collectUsed group) (Model.EnumerateMeshInstances original) used).
Proof.
  unfold collectGroupMeshes.
  match goal with
  | |- fold_left ?body _ _ = _ =>
      assert (Hsplit : forall instances (entries : list entry) used0,
                 fold_left body instances (entries, used0)
                 = (fold_left (collectEntries group) instances entries,
                    fold_left (collectUsed group) instances used0))
  end.
  { induction instances as [|inst instances IH]; intros entries used0; [reflexivity|].
    cbn [fold_left]. unfold collectEntries at 2, collectUsed at 2.
    destruct (PhysicalGroup.ContainsMesh group (Some (MeshInstance.GetId inst)));
      apply IH. }
  apply Hsplit.
Qed.

Lemma mapSet_spec {V} (key : nat * nat) (value : V) (entries : list ((nat * nat) * V)) :
  NoDup (map fst entries) ->
  NoDup (map fst (mapSet key value entries))
  /\ (forall k, k ∈ map fst (mapSet key value entries) <-> k = key \/ k ∈ map fst entries)
  /\ (forall k v, (k, v) ∈ mapSet key value entries
                  <-> (k = key /\ v = value) \/ (k <> key /\ (k, v) ∈ entries)).
Proof.
  induction entries as [|[k0 v0] entries IH]; cbn [mapSet map fst].
  - intros _. split_and!.
    + apply NoDup_singleton.
    + intros k. rewrite list_elem_of_singleton, elem_of_nil. tauto.
    + intros k v. rewrite list_elem_of_singleton, elem_of_nil. naive_solver.
  - intros [Hout Hnd]%NoDup_cons. case_bool_decide as E.
    + subst k0. cbn [map fst]. split_and!.
      * by apply NoDup_cons.
      * intros k. rewrite !elem_of_cons. tauto.
      * intros k v. rewrite !elem_of_cons. split.
        -- intros [[= -> ->]|Hin]; [by left|]. right. split; [|by right].
           intros ->. apply Hout. apply list_elem_of_fmap. by exists (key, v).
        -- intros [[-> ->]|[Hne [[= -> ->]|Hin]]]; [by left | done | by right].
    + destruct (IH Hnd) as (Hnd' & Hkeys & Hmem). cbn [map fst]. split_and!.
      * apply NoDup_cons. split; [|exact Hnd'].
        rewrite Hkeys. intros [->|Hin]; done.
      * intros k. rewrite !elem_of_cons, Hkeys. tauto.
      * intros k v. rewrite !elem_of_cons, Hmem. split.
        -- intros [[= -> ->]|[[-> ->]|[Hne Hin]]].
           ++ right. split; [done | by left].
           ++ by left.
           ++ right. split; [done | by right].
        -- intros [[-> ->]|[Hne [[= -> ->]|Hin]]].
           ++ right. by left.
           ++ by left.
           ++ right. right. by split.
Qed.

(** The entries of the first pass: one per key of an instance of the
    group, with an instance of that key and the face list of the key. *)
Lemma entries_spec (group : PhysicalGroup.t) (instances : list MeshInstance.t) :
  let entries := fold_left (collectEntries group) instances [] in
  NoDup (map fst entries)
  /\ (forall e, e ∈ entries ->
        fst (snd e) ∈ instances
        /\ fst e = GetKey (MeshInstance.id (fst (snd e)))
        /\ fst e ∈ PhysicalGroup.meshes group
        /\ snd (snd e) = default [] (PhysicalGroup.meshFaces group !! fst e))
  /\ (forall inst, inst ∈ instances ->
        GetKey (MeshInstance.id inst) ∈ PhysicalGroup.meshes group ->
        GetKey (MeshInstance.id inst) ∈ map fst entries).
Proof.
  induction instances as [|inst instances IH] using rev_ind; cbn zeta.
  - split_and!; [apply NoDup_nil_2 | by intros e ?%elem_of_nil
                 | by intros inst ?%elem_of_nil].
  - rewrite fold_left_app. cbn [fold_left].
    destruct IH as (Hnd & Hsound & Hcomplete). rewrite collectEntries_eq.
    case_bool_decide as Hin.
    + destruct (mapSet_spec (GetKey (MeshInstance.id inst))
                  (inst, default [] (PhysicalGroup.meshFaces group
                                       !! GetKey (MeshInstance.id inst)))
                  _ Hnd) as (Hnd' & Hkeys & Hmem).
      split_and!; [exact Hnd' | |].
      * intros [k [inst' faces]] He. apply Hmem in He as [[-> [= -> ->]]|[Hne He]].
        -- cbn [fst snd]. split_and!; [set_solver | done | done | done].
        -- destruct (Hsound _ He) as (H1 & H2 & H3 & H4).
           split_and!; [set_solver | done | done | done].
      * intros inst' Hinst' Hgroup. apply Hkeys.
        apply elem_of_app in Hinst' as [Hinst'|Hinst'].
        -- right. by apply Hcomplete.
        -- apply list_elem_of_singleton in Hinst'. subst. by left.
    + split_and!; [exact Hnd | |].
      * intros e He. destruct (Hsound _ He) as (H1 & H2 & H3 & H4).
        split_and!; [set_solver | done | done | done].
      * intros inst' Hinst' Hgroup.
        apply elem_of_app in Hinst' as [Hinst'|Hinst']; [by apply Hcomplete|].
        apply list_elem_of_singleton in Hinst'. by subst.
Qed.

(** The bookkeeping after the first pass. *)
Lemma used_spec (group : PhysicalGroup.t) (instances : list MeshInstance.t)
      (key : nat * nat) (z : Z) :
  forall used,
    ExtractionFacts.faceUsed (fold_left (collectUsed group) instances used) key z
    <-> ExtractionFacts.faceUsed used key z
        \/ (key ∈ map (fun inst => GetKey (MeshInstance.id inst)) instances
            /\ key ∈ PhysicalGroup.meshes group
            /\ (default [] (PhysicalGroup.meshFaces group !! key) = []
                \/ z ∈ default [] (PhysicalGroup.meshFaces group !! key))).
Proof.
  induction instances as [|inst instances IH]; intros used; cbn [fold_left map].
  - rewrite elem_of_nil. tauto.
  - rewrite IH, elem_of_cons, collectUsed_eq.
    case_bool_decide as Hin.
    + destruct (decide (key = GetKey (MeshInstance.id inst))) as [->|Hne].
      * rewrite ExtractionFacts.recordUsed_faceUsed. tauto.
      * rewrite ExtractionFacts.recordUsed_faceUsed_ne by done. tauto.
    + split; [tauto|]. intros [?|([->|?] & ? & ?)]; tauto.
Qed.

Lemma holdsFace_spec (group : PhysicalGroup.t) (key : nat * nat) (i : nat) :
  PhysicalGroup.holdsFace group key i = true
  <-> key ∈ PhysicalGroup.meshes group
      /\ (default [] (PhysicalGroup.meshFaces group !! key) = []
          \/ Z.of_nat i ∈ default [] (PhysicalGroup.meshFaces group !! key)).
Proof.
  unfold PhysicalGroup.holdsFace. rewrite andb_true_iff, bool_decide_eq_true.
  destruct (default [] (PhysicalGroup.meshFaces group !! key)) as [|f faces].
  - tauto.
  - rewrite bool_decide_eq_true. naive_solver.
Qed.

Lemma groupFaces_member (mesh : Mesh.t) (faceIndices : list Z) (i : nat) :
  (exists faces, groupFaces mesh faceIndices = Some faces /\ i ∈ faces)
  <-> i < Mesh.TriangleCount mesh
      /\ (faceIndices = [] \/ Z.of_nat i ∈ faceIndices).
Proof.
  unfold groupFaces. destruct faceIndices as [|f rest]; cbn [length Nat.eqb].
  - rewrite <- RemainderFacts.allFaces_member. split.
    + intros (faces & [= <-] & Hin). by split; [|left].
    + intros [Hin _]. by exists (allFaces mesh).
  - set (faceIndices := f :: rest).
    set (inBounds := fun faceIndex : Z =>
           if ((faceIndex <? 0) || (Z.of_nat (Mesh.TriangleCount mesh) <=? faceIndex))%Z
           then None else Some (Z.to_nat faceIndex)).
    assert (Hmem : i ∈ omap inBounds (dedupe faceIndices)
                   <-> i < Mesh.TriangleCount mesh /\ Z.of_nat i ∈ faceIndices).
    { rewrite list_elem_of_omap. split.
      - intros (z & Hz & Hb).
        apply (proj1 (proj2 (ExtractionFacts.dedupe_spec faceIndices) z)) in Hz.
        unfold inBounds in Hb.
        destruct (Z.ltb_spec z 0); [discriminate|].
        destruct (Z.leb_spec (Z.of_nat (Mesh.TriangleCount mesh)) z); [discriminate|].
        injection Hb as <-. rewrite Z2Nat.id by lia. split; [lia | exact Hz].
      - intros [Hlt Hin]. exists (Z.of_nat i). split.
        + by apply (proj2 (proj2 (ExtractionFacts.dedupe_spec faceIndices) _)).
        + unfold inBounds.
          destruct (Z.ltb_spec (Z.of_nat i) 0); [lia|].
          destruct (Z.leb_spec (Z.of_nat (Mesh.TriangleCount mesh)) (Z.of_nat i));
            [lia|]. cbn. by rewrite Nat2Z.id. }
    split.
    + intros (faces & Hfaces & Hin). case_bool_decide; [discriminate|].
      injection Hfaces as <-. apply Hmem in Hin as [Hlt Hin]. by split; [|right].
    + intros [Hlt [?|Hin]]; [discriminate|].
      assert (Hi : i ∈ omap inBounds (dedupe faceIndices)) by by apply Hmem.
      eexists. split; [|exact Hi]. case_bool_decide as E; [|reflexivity].
      rewrite E in Hi. by apply elem_of_nil in Hi.
Qed.

Lemma entry_contribution (original : Model.t) (group : PhysicalGroup.t) (e : entry) :
  Model.indicesValid original = true ->
  e ∈ fold_left (collectEntries group) (Model.EnumerateMeshInstances original) [] ->
  forall m : Model.t,
    (let '(meshKey, (meshInstance, faceIndices)) := e in
     originalMesh ← MeshInstance.GetMesh meshInstance;
     match groupFaces originalMesh faceIndices with
     | Some faces =>
         let '(m', meshIndex) := Model.AddMesh m (cloneMesh originalMesh faces) in
         Ok (Model.AddChildNodeToRoot m' EmptyString
               (nodeTransformation (MeshInstance.GetTransformation meshInstance))
               [meshIndex])
     | None => Ok m
     end) = Ok (CloneFacts.addContribution m (contrib e)).
Proof.
  intros Hvalid He m.
  destruct (entries_spec group (Model.EnumerateMeshInstances original))
    as (_ & Hsound & _).
  destruct (Hsound e He) as (Hinst & _).
  destruct (CloneFacts.valid_instance_mesh original _ Hvalid Hinst) as [mesh Hmesh].
  destruct e as [k [inst faces]]. cbn [fst snd] in *.
  unfold contrib, MeshInstance.GetMesh. cbn [fst snd]. rewrite Hmesh, bind_Ok.
  by destruct (groupFaces mesh faces).
Qed.

Lemma entry_triangle_ids (e : entry) :
  (let '(meshKey, (meshInstance, faceIndices)) := e in
   match MeshInstance.mesh meshInstance with
   | Some originalMesh =>
       match groupFaces originalMesh faceIndices with
       | Some faces => map (pair meshKey) faces
       | None => []
       end
   | None => []
   end)
  = match contrib e with
    | Some (_, faces, _) => map (pair (fst e)) faces
    | None => []
    end.
Proof.
  destruct e as [k [inst faces]]. unfold contrib. cbn [fst snd].
  destruct (MeshInstance.mesh inst) as [mesh|]; [|reflexivity].
  by destruct (groupFaces mesh faces).
Qed.

Lemma ids_entries (original : Model.t) (group : PhysicalGroup.t) :
  groupTriangleIds original group
  = flat_map (fun e => match contrib e with
                       | Some (_, faces, _) => map (pair (fst e)) faces
                       | None => []
                       end)
             (fold_left (collectEntries group) (Model.EnumerateMeshInstances original) []).
Proof.
  unfold groupTriangleIds. rewrite collect_split. cbn [fst].
  apply flat_map_ext. intros e. apply entry_triangle_ids.
Qed.

Lemma group_ids_triangles (original : Model.t) (group : PhysicalGroup.t) :
  omap (ExtractionFacts.triangleAt original) (groupTriangleIds original group)
  = flat_map CloneFacts.copiedTriangles
      (map contrib
           (fold_left (collectEntries group) (Model.EnumerateMeshInstances original) [])).
Proof.
  rewrite ids_entries, RemoveMeshFacts.omap_flat_map, RemoveMeshFacts.flat_map_map.
  apply CloneFacts.flat_map_ext_elem. intros e He.
  destruct (entries_spec group (Model.EnumerateMeshInstances original))
    as (_ & Hsound & _).
  destruct (Hsound e He) as (Hinst & Hkey & _).
  destruct (CloneFacts.instance_mesh original _ Hinst) as [Hmesh _].
  destruct e as [k [inst faceIndices]]. unfold contrib. cbn [fst snd] in *. subst k.
  destruct (MeshInstance.mesh inst) as [mesh|] eqn:Em; [|reflexivity].
  destruct (groupFaces mesh faceIndices) as [faces|]; [|reflexivity].
  cbn [CloneFacts.copiedTriangles]. apply CloneFacts.triangles_of_key.
  by symmetry.
Qed.

(** The model of a group copies the faces the group holds. *)
Lemma group_member (original : Model.t) (group : PhysicalGroup.t)
      (key : nat * nat) (i : nat) :
  (key, i) ∈ groupTriangleIds original group
  <-> ExtractionFacts.isTriangle original key i
      /\ PhysicalGroup.holdsFace group key i = true.
Proof.
  rewrite ids_entries, holdsFace_spec. unfold ExtractionFacts.isTriangle.
  destruct (entries_spec group (Model.EnumerateMeshInstances original))
    as (_ & Hsound & Hcomplete).
  rewrite list_elem_of_In, in_flat_map. split.
  - intros (e & He%list_elem_of_In & Hin).
    destruct (Hsound e He) as (Hinst & Hkey & Hgroup & Hfaces).
    destruct (CloneFacts.instance_mesh original _ Hinst) as [Hmesh Hk].
    unfold contrib in Hin.
    destruct e as [k [inst faceIndices]]. cbn [fst snd] in *. subst k.
    destruct (MeshInstance.mesh inst) as [mesh|] eqn:Em; [|done].
    destruct (groupFaces mesh faceIndices) as [faces|] eqn:E; [|done].
    apply in_map_iff in Hin as (j & [= <- <-] & Hj%list_elem_of_In).
    destruct (proj1 (groupFaces_member mesh faceIndices j)) as [Hlt Hheld];
      [by exists faces|].
    rewrite Hfaces in Hheld.
    split; [|by split]. split; [exact Hk|]. exists mesh. by split.
  - intros [(Hkey & mesh & Hmesh & Hlt) [Hgroup Hheld]].
    destruct (CloneFacts.key_instance original key Hkey) as (inst & Hinst & <-).
    specialize (Hcomplete inst Hinst Hgroup).
    apply list_elem_of_fmap in Hcomplete as (e & Hk & He).
    destruct (Hsound e He) as (Hinst' & Hkey' & _ & Hfaces).
    destruct (CloneFacts.instance_mesh original _ Hinst') as [Hmesh' _].
    destruct e as [k [inst' faceIndices]]. cbn [fst snd] in *. subst k.
    rewrite <- Hkey', Hmesh in Hmesh'.
    exists (GetKey (MeshInstance.id inst), (inst', faceIndices)).
    split; [by apply list_elem_of_In|].
    unfold contrib. cbn [fst snd]. rewrite Hmesh'.
    destruct (proj2 (groupFaces_member mesh faceIndices i)) as (faces & -> & Hin).
    { split; [exact Hlt|]. rewrite Hfaces. exact Hheld. }
    apply in_map. by apply list_elem_of_In.
Qed.

End WithGeometry.
End GroupFacts.

(** X12: [CreateModelFromPhysicalGroup] on a model whose nodes only hold
    indices of existing meshes.  It returns a model with the materials of
    the original in which every mesh has exactly one instance, and whose
    triangles are, in order, the triangles the group holds: a face of an
    instance is copied exactly when the instance is in the group and the
    group's face list for it is empty or holds the face; face indices that
    address no triangle are skipped.  The bookkeeping it returns records
    the faces recorded before and those the group holds. *)
Theorem CreateModelFromPhysicalGroup_group_faces :
  forall (G : Geometry) (original : Model.t) (group : PhysicalGroup.t)
         (used : gmap (nat * nat) ExporterStl.UsedFaces),
    Model.indicesValid original = true ->
    exists filtered used',
      ExporterStl.CreateModelFromPhysicalGroup original group used = Ok (filtered, used')
      /\ Model.materials filtered = Model.materials original
      /\ concat (map Mesh.triangles (Model.meshes filtered))
         = omap (ExtractionFacts.triangleAt original)
                (ExporterStl.groupTriangleIds original group)
      /\ Model.MeshInstanceKeys filtered
         = map (fun k => (S k, k)) (seq 0 (Model.MeshCount filtered))
      /\ (forall key i,
            (key, i) ∈ ExporterStl.groupTriangleIds original group
            <-> ExtractionFacts.isTriangle original key i
                /\ PhysicalGroup.holdsFace group key i = true)
      /\ (forall key i,
            ExtractionFacts.faceUsed used' key (Z.of_nat i)
            <-> ExtractionFacts.faceUsed used key (Z.of_nat i)
                \/ (key ∈ Model.MeshInstanceKeys original
                    /\ PhysicalGroup.holdsFace group key i = true)).
Proof.
  intros G original group used Hvalid.
  unfold ExporterStl.CreateModelFromPhysicalGroup.
  rewrite GroupFacts.collect_split.
  set (entries := fold_left (GroupFacts.collectEntries group)
                            (Model.EnumerateMeshInstances original) []).
  rewrite (CloneFacts.forEach_contributions _ GroupFacts.contrib entries).
  2:{ intros m e He. by apply (GroupFacts.entry_contribution original group). }
  rewrite bind_Ok. eexists _, _. split; [reflexivity|].
  pose proof (CloneFacts.contributions_fold (map GroupFacts.contrib entries)
                (CloneFacts.withMaterials (Model.materials original)))
    as (Hmat & _ & Hmeshes & Hflat).
  pose proof (CloneFacts.materials_fold (Model.materials original) Model.new)
    as (Hmat0 & _ & _ & Hmeshes0 & _).
  unfold CloneFacts.withMaterials in *.
  split_and!.
  - rewrite Hmat, Hmat0. reflexivity.
  - rewrite Hmeshes, Hmeshes0. cbn [Model.meshes Model.new app].
    rewrite CloneFacts.cloned_triangles. symmetry. apply GroupFacts.group_ids_triangles.
  - apply CloneFacts.flat_keys, Hflat, (CloneFacts.flat_withMaterials _).
  - intros key i. apply GroupFacts.group_member.
  - intros key i. rewrite GroupFacts.used_spec, GroupFacts.holdsFace_spec.
    unfold Model.MeshInstanceKeys. tauto.
Qed.

Lemma CreateModelFromPhysicalGroup_group_faces_witness :
  Model.indicesValid Example.boxModel = true
  /\ exists filtered used',
       ExporterStl.CreateModelFromPhysicalGroup Example.boxModel Example.inlet ∅
       = Ok (filtered, used')
       /\ Model.materials filtered = Model.materials Example.boxModel.
Proof.
  assert (Hvalid : Model.indicesValid Example.boxModel = true) by reflexivity.
  split; [exact Hvalid|].
  destruct (CreateModelFromPhysicalGroup_group_faces
              IntGeometry.geometry Example.boxModel Example.inlet ∅ Hvalid)
    as (filtered & used' & Hrun & Hmaterials & _).
  exists filtered, used'. split; assumption.
Defined.

(** X13: extraction and remainder partition the triangles.  When the
    bookkeeping is threaded through the extraction of a list of groups and
    then handed to [CreateRemainderModel], a triangle of an instance is
    copied to the remainder exactly when no model of a group copies it. *)
Theorem extraction_and_remainder_partition :
  forall (G : Geometry) (original : Model.t) (groups : list PhysicalGroup.t),
    let used :=
      fold_left (fun used group =>
                   snd (ExporterStl.collectGroupMeshes original group used))
                groups ∅ in
    forall key i,
      (key, i) ∈ ExporterStl.remainderTriangleIds original used
      <-> ExtractionFacts.isTriangle original key i
          /\ forall group, group ∈ groups ->
               (key, i) ∉ ExporterStl.groupTriangleIds original group.
Proof.
  intros G original groups used key i.
  rewrite RemainderFacts.remainder_member.
  assert (Hused : forall used0,
    ExtractionFacts.faceUsed
      (fold_left (fun used group =>
                    snd (ExporterStl.collectGroupMeshes original group used))
                 groups used0) key (Z.of_nat i)
    <-> ExtractionFacts.faceUsed used0 key (Z.of_nat i)
        \/ exists group, group ∈ groups
                         /\ key ∈ Model.MeshInstanceKeys original
                         /\ PhysicalGroup.holdsFace group key i = true).
  { clear used. induction groups as [|group groups IH]; intros used0; cbn [fold_left].
    - split; [tauto|]. intros [?|(group & ?%elem_of_nil & _)]; done.
    - rewrite IH, GroupFacts.collect_split. cbn [snd].
      rewrite GroupFacts.used_spec, <- GroupFacts.holdsFace_spec.
      unfold Model.MeshInstanceKeys. split.
      + intros [[?|[? ?]]|(g & ? & ? & ?)]; [by left | |].
        * right. exists group. split_and!; [set_solver | done | done].
        * right. exists g. split_and!; [set_solver | done | done].
      + intros [?|(g & [->|Hg]%elem_of_cons & ? & ?)]; [by left; left | |].
        * left. right. by split.
        * right. exists g. by split_and!. }
  subst used. rewrite Hused. unfold ExtractionFacts.faceUsed at 1.
  rewrite lookup_empty. split.
  - intros [Htri Hnot]. split; [exact Htri|]. intros group Hgroup Hin.
    apply GroupFacts.group_member in Hin as [_ Hheld]. apply Hnot. right.
    exists group. split_and!; [done | apply Htri | done].
  - intros [Htri Hnone]. split; [exact Htri|].
    intros [[]|(group & Hgroup & _ & Hheld)].
    apply (Hnone group Hgroup). apply GroupFacts.group_member. by split.
Qed.

Lemma extraction_and_remainder_partition_witness :
  let used := snd (ExporterStl.collectGroupMeshes Example.twoGroupModel Example.inlet ∅) in
  ExtractionFacts.isTriangle Example.twoGroupModel (0, 0) 7
  /\ (((0, 0), 7) ∉ ExporterStl.groupTriangleIds Example.twoGroupModel Example.inlet)
  /\ ((0, 0), 7) ∈ ExporterStl.remainderTriangleIds Example.twoGroupModel used.
Proof.
  intros used.
  assert (Htriangle : ExtractionFacts.isTriangle Example.twoGroupModel (0, 0) 7).
  { split.
    - apply list_elem_of_In. left. reflexivity.
    - exists Example.boxMesh. split; [reflexivity|].
      unfold Mesh.TriangleCount. cbn. lia. }
  assert (Hids : ExporterStl.groupTriangleIds Example.twoGroupModel Example.inlet
                 = map (pair (0, 0)) (seq 0 5)) by (vm_compute; reflexivity).
  assert (Hout : ((0, 0), 7) ∉ ExporterStl.groupTriangleIds Example.twoGroupModel
                                 Example.inlet).
  { rewrite Hids. intros Hin. apply list_elem_of_In in Hin. cbn in Hin.
    repeat destruct Hin as [Hin|Hin]; try discriminate. exact Hin. }
  split; [exact Htriangle|]. split; [exact Hout|].
  apply (proj2 (extraction_and_remainder_partition
                  IntGeometry.geometry Example.twoGroupModel [Example.inlet] (0, 0) 7)).
  split; [exact Htriangle|].
  intros group Hgroup. apply list_elem_of_singleton in Hgroup. subst group. exact Hout.
Defined.

(** ** The triangle assignment of the IGES exporter *)

Module IgesFacts.
Import ExporterIges.

Lemma filter_all {A} (P : A -> Prop) `{!forall a, Decision (P a)} (l : list A) :
  Forall P l -> filter P l = l.
Proof.
  induction 1 as [|a l Ha _ IH]; [reflexivity|].
  rewrite filter_cons_True by done. by rewrite IH.
Qed.

Lemma filter_none {A} (P : A -> Prop) `{!forall a, Decision (P a)} (l : list A) :
  Forall (fun a => ~ P a) l -> filter P l = [].
Proof.
  induction 1 as [|a l Ha _ IH]; [reflexivity|].
  by rewrite filter_cons_False.
Qed.

(** The slices of the first [k] positions cover an initial segment. *)
Lemma slices (totalTriangles groupCount k : nat) :
  flat_map (groupTriangles totalTriangles groupCount) (seq 0 k)
  = seq 0 (Nat.min totalTriangles (k * Nat.max 1 (totalTriangles / groupCount))).
Proof.
  set (groupSize := Nat.max 1 (totalTriangles / groupCount)).
  induction k as [|k IH]; [by rewrite Nat.min_0_r|].
  rewrite seq_S, flat_map_app, IH. cbn [flat_map]. rewrite app_nil_r.
  unfold groupTriangles. fold groupSize. cbn [Nat.add].
  replace ((k + 1) * groupSize) with (S k * groupSize) by (f_equal; lia).
  destruct (Nat.le_gt_cases totalTriangles (k * groupSize)) as [Hle|Hgt].
  - rewrite !Nat.min_l by lia.
    replace (totalTriangles - k * groupSize) with 0 by lia.
    cbn [seq]. by rewrite app_nil_r.
  - rewrite (Nat.min_r totalTriangles (k * groupSize)) by lia.
    rewrite <- seq_app. f_equal. cbn [Nat.mul]. lia.
Qed.

Lemma assigned_ids (totalTriangles groupCount : nat) (groups : list PhysicalGroup.t) :
  map meshIds
      (imap (fun i group =>
               {| name := PhysicalGroup.GetName group;
                  meshIds := groupTriangles totalTriangles groupCount i |})
            groups)
  = map (groupTriangles totalTriangles groupCount) (seq 0 (length groups)).
Proof.
  change (map meshIds ?l) with (meshIds <$> l). rewrite fmap_imap.
  change (map ?f ?l) with (f <$> l).
  rewrite <- (imap_seq groups (groupTriangles totalTriangles groupCount) 0).
  apply imap_ext. intros i group _. reflexivity.
Qed.

Lemma imap_names (f : nat -> PhysicalGroup.t -> GroupData) (groups : list PhysicalGroup.t) :
  (forall i group, name (f i group) = PhysicalGroup.GetName group) ->
  map name (imap f groups) = map PhysicalGroup.GetName groups.
Proof.
  revert f. induction groups as [|group groups IH]; intros f Hf; [reflexivity|].
  cbn [imap map]. rewrite Hf. f_equal. apply IH. intros i g. apply Hf.
Qed.

Lemma assigned_names (totalTriangles groupCount : nat) (groups : list PhysicalGroup.t) :
  map name
      (imap (fun i group =>
               {| name := PhysicalGroup.GetName group;
                  meshIds := groupTriangles totalTriangles groupCount i |})
            groups)
  = map PhysicalGroup.GetName groups.
Proof. by apply imap_names. Qed.

Lemma unassigned (total covered : nat) :
  covered <= total ->
  filter (fun i => i ∉ seq 0 covered) (seq 0 total) = seq covered (total - covered).
Proof.
  intros Hle. replace total with (covered + (total - covered)) at 1 by lia.
  rewrite seq_app, filter_app, filter_none, filter_all; [reflexivity | |].
  - apply Forall_forall. intros i Hi%list_elem_of_In%in_seq.
    rewrite list_elem_of_In, in_seq. lia.
  - apply Forall_forall. intros i Hi Hout. by apply Hout.
Qed.

(** The ids of the entries depend on the number of groups alone. *)
Lemma assigned_index_lists (totalTriangles : nat) (groups : list PhysicalGroup.t) :
  let groupCount := length groups in
  let covered :=
    Nat.min totalTriangles (groupCount * Nat.max 1 (totalTriangles / groupCount)) in
  map meshIds (physicalGroupData totalTriangles groups)
  = if (0 <? groupCount)%nat then
      map (groupTriangles totalTriangles groupCount) (seq 0 groupCount)
      ++ (if (0 <? totalTriangles - covered)%nat
          then [seq covered (totalTriangles - covered)] else [])
    else [seq 0 totalTriangles].
Proof.
  intros groupCount covered. unfold physicalGroupData. fold groupCount.
  destruct (0 <? groupCount)%nat; [|reflexivity].
  rewrite flat_map_concat_map, assigned_ids, <- flat_map_concat_map, slices.
  fold groupCount covered. rewrite unassigned by apply Nat.le_min_l.
  rewrite length_seq. destruct (0 <? totalTriangles - covered)%nat.
  - rewrite map_app, assigned_ids. reflexivity.
  - rewrite assigned_ids, app_nil_r. reflexivity.
Qed.

End IgesFacts.

(** X14: the triangle assignment the IGES exporter sends to the conversion
    server.  The entries partition the triangles of the model: their index
    lists, concatenated in order, are exactly [0, 1, ..., total - 1].  The
    assignment never consults the contents of a group: two group lists of
    the same length receive the same index lists.  The entries carry the
    names of the groups, in order, followed at most by one entry
    [Unassigned_Faces]; without groups there is the single entry
    [Model_Faces]. *)
Theorem physicalGroupData_partitions_by_position :
  forall (totalTriangles : nat) (groups : list PhysicalGroup.t),
    flat_map ExporterIges.meshIds (ExporterIges.physicalGroupData totalTriangles groups)
    = seq 0 totalTriangles
    /\ (forall groups' : list PhysicalGroup.t,
          length groups' = length groups ->
          map ExporterIges.meshIds (ExporterIges.physicalGroupData totalTriangles groups')
          = map ExporterIges.meshIds (ExporterIges.physicalGroupData totalTriangles groups))
    /\ match groups with
       | [] => map ExporterIges.name (ExporterIges.physicalGroupData totalTriangles groups)
               = ["Model_Faces"]
       | _ => exists rest,
                map ExporterIges.name (ExporterIges.physicalGroupData totalTriangles groups)
                = map PhysicalGroup.GetName groups ++ rest
                /\ (rest = [] \/ rest = ["Unassigned_Faces"])
       end.
Proof.
  intros totalTriangles groups. split_and!.
  - rewrite flat_map_concat_map, IgesFacts.assigned_index_lists.
    destruct (Nat.ltb_spec 0 (length groups)) as [Hpos|Hzero].
    + rewrite concat_app, <- flat_map_concat_map, IgesFacts.slices.
      set (covered := Nat.min totalTriangles _).
      assert (Hle : covered <= totalTriangles) by apply Nat.le_min_l.
      destruct (Nat.ltb_spec 0 (totalTriangles - covered)).
      * cbn [concat]. rewrite app_nil_r, <- seq_app. f_equal. lia.
      * cbn [concat]. rewrite app_nil_r. f_equal. lia.
    + cbn [concat]. by rewrite app_nil_r.
  - intros groups' Hlen. by rewrite !IgesFacts.assigned_index_lists, Hlen.
  - destruct groups as [|group groups]; [reflexivity|].
    unfold ExporterIges.physicalGroupData.
    change (0 <? length (group :: groups))%nat with true. cbv iota.
    match goal with
    | |- context [if ?b then _ else _] => destruct b
    end.
    + exists ["Unassigned_Faces"]. split; [|by right].
      rewrite map_app, IgesFacts.assigned_names. reflexivity.
    + exists []. split; [|by left].
      rewrite IgesFacts.assigned_names, app_nil_r. reflexivity.
Qed.

Lemma physicalGroupData_partitions_by_position_witness :
  length [Example.outlet; Example.inlet] = length [Example.inlet; Example.outlet]
  /\ map ExporterIges.meshIds
         (ExporterIges.physicalGroupData 12 [Example.outlet; Example.inlet])
     = map ExporterIges.meshIds
           (ExporterIges.physicalGroupData 12 [Example.inlet; Example.outlet]).
Proof.
  split; [reflexivity|].
  exact (proj1 (proj2 (physicalGroupData_partitions_by_position
                         12 [Example.inlet; Example.outlet]))
               [Example.outlet; Example.inlet] eq_refl).
Defined.

(** ** The group created by the dialog *)

Module WebsiteFacts.
Section WithGeometry.
Context `{Geometry}.
Import PhysicalGroup.

#[local] Instance MeshInstanceId_eq_dec : EqDecision MeshInstanceId.
Proof. solve_decision. Defined.

(** The face list the handler records for a selected mesh: every
    triangle index of its mesh, or nothing when the instance or its mesh
    cannot be found. *)
Definition selectedFaces (model : Model.t) (meshId : MeshInstanceId) : list Z :=
  match Model.GetMeshInstance model meshId with
  | Some meshInstance =>
      match MeshInstance.mesh meshInstance with
      | Some mesh => map Z.of_nat (seq 0 (Mesh.TriangleCount mesh))
      | None => []
      end
  | None => []
  end.

Abbreviation seen_fold :=
  (fold_left (fun (seen : list Z) f => if bool_decide (f ∈ seen) then seen else seen ++ [f])).

Lemma GetKey_inj (id id' : MeshInstanceId) : GetKey id = GetKey id' -> id = id'.
Proof. destruct id, id'. by intros [= -> ->]. Qed.

Lemma AddMesh_faces g id id' :
  GetMeshFaceIndices (AddMesh g id) id' = GetMeshFaceIndices g id'.
Proof.
  destruct id' as [id'|]; [|reflexivity].
  unfold GetMeshFaceIndices, AddMesh; simpl.
  destruct (decide (GetKey id = GetKey id')) as [E|E].
  - rewrite <- E, PhysicalGroupFacts.initFaces_lookup_eq. reflexivity.
  - by rewrite PhysicalGroupFacts.initFaces_lookup_ne.
Qed.

Lemma AddMesh_contains g id id' :
  ContainsMesh (AddMesh g id) (Some id') = true
  <-> id' = id \/ ContainsMesh g (Some id') = true.
Proof.
  unfold ContainsMesh, AddMesh; simpl. rewrite !bool_decide_eq_true.
  rewrite elem_of_union, elem_of_singleton. split.
  - intros [E|?]; [left; by apply GetKey_inj | by right].
  - intros [->|?]; [by left | by right].
Qed.

Lemma AddMeshWithIndex_contains g id f id' :
  ContainsMesh (AddMeshWithIndex g (Some id) f) (Some id') = true
  <-> id' = id \/ ContainsMesh g (Some id') = true.
Proof.
  unfold ContainsMesh, AddMeshWithIndex; simpl. rewrite !bool_decide_eq_true.
  rewrite elem_of_union, elem_of_singleton. split.
  - intros [E|?]; [left; by apply GetKey_inj | by right].
  - intros [->|?]; [by left | by right].
Qed.

Lemma AddMeshWithIndex_faces_ne g id f id' :
  id' <> id ->
  GetMeshFaceIndices (AddMeshWithIndex g (Some id) f) (Some id')
  = GetMeshFaceIndices g (Some id').
Proof.
  intros Hne.
  assert (Hk : GetKey id <> GetKey id') by (intros E; by apply Hne, GetKey_inj).
  unfold GetMeshFaceIndices, AddMeshWithIndex; simpl.
  destruct f as [f|]; [destruct (includes _ f); cbn [negb]|].
  - by rewrite PhysicalGroupFacts.initFaces_lookup_ne.
  - rewrite lookup_insert_ne by done. by rewrite PhysicalGroupFacts.initFaces_lookup_ne.
  - by rewrite PhysicalGroupFacts.initFaces_lookup_ne.
Qed.

Lemma add_faces_name g id (faces : list Z) :
  GetName (fold_left (fun g f => AddMeshWithIndex g (Some id) (Some f)) faces g)
  = GetName g.
Proof.
  revert g. induction faces as [|f faces IH]; intros g; [reflexivity|].
  cbn [fold_left]. by rewrite IH.
Qed.

Lemma add_faces_contains g id (faces : list Z) id' :
  ContainsMesh g (Some id) = true ->
  ContainsMesh (fold_left (fun g f => AddMeshWithIndex g (Some id) (Some f)) faces g)
               (Some id')
  = ContainsMesh g (Some id').
Proof.
  revert g. induction faces as [|f faces IH]; intros g Hc; [reflexivity|].
  cbn [fold_left]. rewrite IH by (apply AddMeshWithIndex_contains; by left).
  apply eq_true_iff_eq. rewrite AddMeshWithIndex_contains.
  split; [intros [->|?]; done | by right].
Qed.

Lemma add_faces_ne g id (faces : list Z) id' :
  id' <> id ->
  GetMeshFaceIndices
    (fold_left (fun g f => AddMeshWithIndex g (Some id) (Some f)) faces g) (Some id')
  = GetMeshFaceIndices g (Some id').
Proof.
  intros Hne. revert g. induction faces as [|f faces IH]; intros g; [reflexivity|].
  cbn [fold_left]. by rewrite IH, AddMeshWithIndex_faces_ne.
Qed.

Lemma seen_fold_present (faces seen : list Z) :
  faces ⊆ seen -> seen_fold faces seen = seen.
Proof.
  induction faces as [|f faces IH]; intros Hsub; [reflexivity|].
  cbn [fold_left]. rewrite bool_decide_eq_true_2 by set_solver.
  apply IH. set_solver.
Qed.

Lemma seen_fold_fresh (faces : list Z) :
  NoDup faces -> forall seen, seen ## faces -> seen_fold faces seen = seen ++ faces.
Proof.
  induction 1 as [|f faces Hout Hnd IH]; intros seen Hdis; cbn [fold_left].
  - by rewrite app_nil_r.
  - rewrite bool_decide_eq_false_2 by set_solver.
    rewrite IH; [by rewrite <- app_assoc|].
    intros x [Hx|Hx]%elem_of_app Hx'.
    + apply (Hdis x Hx). by right.
    + apply list_elem_of_singleton in Hx. by subst.
Qed.

Lemma NoDup_selectedFaces model id : NoDup (selectedFaces model id).
Proof.
  unfold selectedFaces.
  destruct (Model.GetMeshInstance model id) as [inst|]; [|constructor].
  destruct (MeshInstance.mesh inst) as [mesh|]; [|constructor].
  apply NoDup_fmap_2; [apply Nat2Z.inj'|]. apply NoDup_ListNoDup, seq_NoDup.
Qed.

(** One step of the handler's loop over the selection. *)
Lemma addSelectedMesh_spec (model : Model.t) g id :
  let g' := Website.addSelectedMesh model g id in
  GetName g' = GetName g
  /\ (forall id', ContainsMesh g' (Some id') = true
                  <-> id' = id \/ ContainsMesh g (Some id') = true)
  /\ (forall id', id' <> id ->
        GetMeshFaceIndices g' (Some id') = GetMeshFaceIndices g (Some id'))
  /\ GetMeshFaceIndices g' (Some id)
     = seen_fold (selectedFaces model id) (GetMeshFaceIndices g (Some id)).
Proof.
  unfold Website.addSelectedMesh, selectedFaces.
  assert (Hc : ContainsMesh (AddMesh g id) (Some id) = true)
    by (apply AddMesh_contains; by left).
  assert (Hmap : forall (l : list nat) g0,
             fold_left (fun g i => AddMeshWithIndex g (Some id) (Some (Z.of_nat i))) l g0
             = fold_left (fun g f => AddMeshWithIndex g (Some id) (Some f))
                         (map Z.of_nat l) g0).
  { induction l as [|i l IH]; intros g0; [reflexivity|]. cbn [map fold_left]. apply IH. }
  destruct (Model.GetMeshInstance model id) as [inst|];
    [destruct (MeshInstance.mesh inst) as [mesh|]|]; cbn zeta.
  - rewrite Hmap. split_and!.
    + by rewrite add_faces_name.
    + intros id'. rewrite add_faces_contains by done. apply AddMesh_contains.
    + intros id' Hne. by rewrite add_faces_ne, AddMesh_faces.
    + by rewrite PhysicalGroupMore.add_faces_fold, AddMesh_faces.
  - split_and!; [done | apply AddMesh_contains | intros; apply AddMesh_faces
                 | apply AddMesh_faces].
  - split_and!; [done | apply AddMesh_contains | intros; apply AddMesh_faces
                 | apply AddMesh_faces].
Qed.

(** The group after the handler's loop. *)
Lemma selection_spec (model : Model.t) (name : string) (selected : list MeshInstanceId) :
  let g := fold_left (Website.addSelectedMesh model) selected (PhysicalGroup.new name) in
  GetName g = name
  /\ (forall id, ContainsMesh g (Some id) = true <-> id ∈ selected)
  /\ (forall id, GetMeshFaceIndices g (Some id)
                 = if decide (id ∈ selected) then selectedFaces model id else []).
Proof.
  induction selected as [|id0 selected IH] using rev_ind; cbn zeta.
  - cbn [fold_left]. split; [reflexivity|]. split.
    + intros id. unfold ContainsMesh. cbn [new meshes].
      rewrite bool_decide_eq_true, elem_of_nil.
      split; [apply not_elem_of_empty | done].
    + intros id. rewrite decide_False by apply not_elem_of_nil.
      unfold GetMeshFaceIndices. cbn [new meshFaces]. by rewrite lookup_empty.
  - rewrite fold_left_app. cbn [fold_left].
    destruct IH as (Hname & Hcontains & Hfaces).
    destruct (addSelectedMesh_spec model
                (fold_left (Website.addSelectedMesh model) selected (PhysicalGroup.new name))
                id0) as (Hname' & Hcontains' & Hne & Heq).
    split; [by rewrite Hname'|]. split.
    + intros id. rewrite Hcontains', Hcontains, elem_of_app, list_elem_of_singleton.
      tauto.
    + intros id. destruct (decide (id = id0)) as [->|Hid].
      * rewrite Heq, Hfaces.
        rewrite (decide_True (P := id0 ∈ selected ++ [id0]))
          by (apply elem_of_app; right; by apply list_elem_of_singleton).
        destruct (decide (id0 ∈ selected)).
        -- by apply seen_fold_present.
        -- rewrite seen_fold_fresh; [reflexivity | apply NoDup_selectedFaces |].
           intros x Hx. by apply elem_of_nil in Hx.
      * rewrite Hne, Hfaces by done.
        destruct (decide (id ∈ selected)) as [Hin|Hout].
        -- rewrite decide_True by (apply elem_of_app; by left). reflexivity.
        -- rewrite decide_False; [reflexivity|].
           intros [?|?%list_elem_of_singleton]%elem_of_app; done.
Qed.

End WithGeometry.
End WebsiteFacts.

(** X15: the [Create] handler of the group dialog.  With an empty name or
    a name already in use the model is left unchanged and the dialog stays
    open.  Otherwise exactly one group is appended: it carries the name,
    contains exactly the selected instances, and lists for each of them
    every triangle index of its mesh, once and in order, however often the
    instance was selected (no index when the instance or its mesh cannot
    be found); group names that were distinct before are distinct
    afterwards. *)
Theorem onCreateClick_creates_group :
  forall (G : Geometry) (model : Model.t) (selectedMeshes : list MeshInstanceId)
         (groupName : string),
    let model' := fst (Website.onCreateClick model selectedMeshes groupName) in
    let effects := snd (Website.onCreateClick model selectedMeshes groupName) in
    (groupName = EmptyString
     \/ groupName ∈ map PhysicalGroup.GetName (Model.physicalGroups model) ->
     model' = model /\ Website.DialogClose ∉ effects)
    /\ (groupName <> EmptyString ->
        groupName ∉ map PhysicalGroup.GetName (Model.physicalGroups model) ->
        exists group,
          Model.physicalGroups model' = Model.physicalGroups model ++ [group]
          /\ Model.root model' = Model.root model
          /\ Model.meshes model' = Model.meshes model
          /\ Website.DialogClose ∈ effects
          /\ PhysicalGroup.GetName group = groupName
          /\ (NoDup (map PhysicalGroup.GetName (Model.physicalGroups model)) ->
              NoDup (map PhysicalGroup.GetName (Model.physicalGroups model')))
          /\ (forall id, PhysicalGroup.ContainsMesh group (Some id) = true
                         <-> id ∈ selectedMeshes)
          /\ (forall id, id ∈ selectedMeshes ->
                PhysicalGroup.GetMeshFaceIndices group (Some id)
                = WebsiteFacts.selectedFaces model id)).
Proof.
  intros G model selectedMeshes groupName model' effects. subst model' effects.
  unfold Website.onCreateClick. split.
  - intros [->|Hin].
    + rewrite bool_decide_eq_true_2 by done. cbn [fst snd]. split; [done|].
      intros Hc. apply list_elem_of_singleton in Hc. discriminate.
    + case_bool_decide; cbn [fst snd].
      * split; [done|]. intros Hc. apply list_elem_of_singleton in Hc. discriminate.
      * apply RegistryFacts.FindPhysicalGroupByName_Some in Hin as (g & -> & _).
        cbn [fst snd]. split; [done|].
        intros Hc. apply list_elem_of_singleton in Hc. discriminate.
  - intros Hne Hfresh. rewrite bool_decide_eq_false_2 by done.
    unfold Model.FindPhysicalGroupByName. rewrite RegistryFacts.find_unnamed by done.
    cbn [Model.AddPhysicalGroup fst snd Model.setPhysicalGroups Model.physicalGroups
         Model.root Model.meshes].
    match goal with
    | |- context [fold_left (Website.addSelectedMesh ?m) _ _] =>
        destruct (WebsiteFacts.selection_spec m groupName selectedMeshes)
          as (Hname & Hcontains & Hfaces)
    end.
    eexists. split; [reflexivity|]. split_and!; try done.
    + set_solver.
    + intros Hnd. rewrite map_app. cbn [map]. rewrite Hname.
      apply NoDup_app. split_and!; [done | | apply NoDup_singleton].
      intros x Hx Hx'. apply list_elem_of_singleton in Hx'. by subst.
    + intros id Hin. rewrite Hfaces. by rewrite decide_True.
Qed.

Lemma onCreateClick_creates_group_witness :
  "Inlet" <> EmptyString
  /\ ("Inlet" ∉ map PhysicalGroup.GetName (Model.physicalGroups Example.boxModel))
  /\ exists group,
       Model.physicalGroups
         (fst (Website.onCreateClick Example.boxModel [Example.boxId] "Inlet")) = [group]
       /\ PhysicalGroup.GetMeshFaceIndices group (Some Example.boxId)
          = map Z.of_nat (seq 0 12).
Proof.
  assert (Hne : "Inlet" <> EmptyString) by discriminate.
  assert (Hfresh : "Inlet" ∉ map PhysicalGroup.GetName
                                 (Model.physicalGroups Example.boxModel))
    by apply not_elem_of_nil.
  split; [exact Hne|]. split; [exact Hfresh|].
  destruct (proj2 (onCreateClick_creates_group
                     IntGeometry.geometry Example.boxModel [Example.boxId] "Inlet")
              Hne Hfresh)
    as (group & Hgroups & _ & _ & _ & _ & _ & _ & Hfaces).
  exists group. split; [exact Hgroups|].
  etrans; [apply Hfaces; by apply list_elem_of_singleton | reflexivity].
Defined.

(** ** Adding a mesh to the root node *)

Module RootMeshFacts.
Section WithGeometry.
Context `{Geometry}.

Lemma removeMeshIndex_below (index : nat) (indices : list nat) :
  Forall (fun i => i < index) indices -> Model.removeMeshIndex index indices = indices.
Proof.
  induction 1 as [|i indices Hi _ IH]; [reflexivity|].
  cbn [Model.removeMeshIndex].
  destruct (Nat.eqb_spec i index); [lia|].
  destruct (Nat.ltb_spec index i); [lia|]. by rewrite IH.
Qed.

Lemma removeMeshIndex_snoc (index : nat) (indices : list nat) :
  Forall (fun i => i < index) indices ->
  Model.removeMeshIndex index (indices ++ [index]) = indices.
Proof.
  induction 1 as [|i indices Hi _ IH]; cbn [app Model.removeMeshIndex].
  - by rewrite Nat.eqb_refl.
  - destruct (Nat.eqb_spec i index); [lia|].
    destruct (Nat.ltb_spec index i); [lia|]. by rewrite IH.
Qed.

(** A function that fixes every index list of a tree fixes the tree. *)
Lemma updateMeshIndices_fixed (f : list nat -> list nat) (n : Node.t) :
  forall ancestors,
    (forall p, p ∈ Node.EnumerateFrom ancestors n ->
               f (Node.meshIndices (fst p)) = Node.meshIndices (fst p)) ->
    Node.updateMeshIndices f n = n.
Proof.
  induction n as [i nm tr children indices IH] using NodeFacts.node_ind.
  intros ancestors Hfixed. cbn [Node.updateMeshIndices]. f_equal.
  - cbn [Node.EnumerateFrom] in Hfixed.
    assert (Hchildren : forall c, c ∈ children ->
              forall p, p ∈ Node.EnumerateFrom (tr :: ancestors) c ->
                        f (Node.meshIndices (fst p)) = Node.meshIndices (fst p)).
    { intros c Hc p Hp. apply Hfixed. right.
      apply list_elem_of_In, in_flat_map. exists c.
      split; by apply list_elem_of_In. }
    clear Hfixed. induction IH as [|c children Hc _ IHchildren]; [reflexivity|].
    cbn [map]. f_equal.
    + apply (Hc (tr :: ancestors)). apply Hchildren. by left.
    + apply IHchildren. intros c' Hc'. apply Hchildren. by right.
  - apply (Hfixed (Node.mk i nm tr children indices, ancestors)).
    cbn [Node.EnumerateFrom]. by left.
Qed.

(** The keys after [AddMeshToRootNode]: one key of the root is added
    behind the root's own keys. *)
Lemma keys_AddMeshToRootNode (m : Model.t) (mesh : Mesh.t) :
  exists before after,
    Model.MeshInstanceKeys m = before ++ after
    /\ Model.MeshInstanceKeys (fst (Model.AddMeshToRootNode m mesh))
       = before ++ (Node.id (Model.root m), Model.MeshCount m) :: after.
Proof.
  rewrite !RemoveMeshFacts.MeshInstanceKeys_nodes. unfold Node.Enumerate.
  cbn [Model.AddMeshToRootNode Model.AddMesh Model.AddMeshIndexToRoot fst Model.root].
  destruct (Model.root m) as [i nm tr children indices].
  cbn [Node.id Node.name Node.transformation Node.childNodes Node.meshIndices
       Node.EnumerateFrom flat_map].
  exists (map (pair i) indices),
         (flat_map RemoveMeshFacts.nodeKeys
                   (flat_map (Node.EnumerateFrom [tr]) children)).
  split; [reflexivity|].
  unfold RemoveMeshFacts.nodeKeys at 1. cbn [fst Node.id Node.meshIndices].
  rewrite map_app, <- app_assoc. reflexivity.
Qed.

Lemma valid_nodes (m : Model.t) :
  Model.indicesValid m = true ->
  forall p, p ∈ Node.Enumerate (Model.root m) ->
            Forall (fun i => i < Model.MeshCount m) (Node.meshIndices (fst p)).
Proof.
  intros Hvalid p Hp. apply ModelMore.indicesValid_spec in Hvalid.
  rewrite Forall_forall in Hvalid. apply Forall_forall. intros i Hi.
  apply (Hvalid (Node.id (fst p), i)). apply ModelMore.key_in_nodes. by exists p.
Qed.

End WithGeometry.
End RootMeshFacts.

(** X16: [AddMeshToRootNode] and [RemoveMesh] are inverse on a model whose
    nodes only hold indices of existing meshes.  The mesh is appended and
    returned under the index that was the mesh count, the meshes before it
    keep their index, exactly one instance is added, with the key of the
    root node and the new index, every held index still addresses a mesh,
    and removing the mesh at the returned index restores the model. *)
Theorem AddMeshToRootNode_then_RemoveMesh :
  forall (G : Geometry) (m : Model.t) (mesh : Mesh.t),
    Model.indicesValid m = true ->
    let m' := fst (Model.AddMeshToRootNode m mesh) in
    let meshIndex := snd (Model.AddMeshToRootNode m mesh) in
    meshIndex = Model.MeshCount m
    /\ Model.GetMesh m' meshIndex = Some mesh
    /\ (forall i, i < Model.MeshCount m -> Model.GetMesh m' i = Model.GetMesh m i)
    /\ (exists before after,
          Model.MeshInstanceKeys m = before ++ after
          /\ Model.MeshInstanceKeys m'
             = before ++ (Node.id (Model.root m), meshIndex) :: after)
    /\ Model.MeshInstanceCount m' = S (Model.MeshInstanceCount m)
    /\ Model.indicesValid m' = true
    /\ Model.RemoveMesh m' meshIndex = m.
Proof.
  intros G m mesh Hvalid m' meshIndex.
  destruct (RootMeshFacts.keys_AddMeshToRootNode m mesh)
    as (before & after & Hkeys & Hkeys').
  assert (Hcount' : Model.MeshCount m' = S (Model.MeshCount m)).
  { subst m'. unfold Model.MeshCount. cbn. rewrite length_app. cbn. lia. }
  split_and!.
  - reflexivity.
  - subst m' meshIndex. unfold Model.GetMesh. cbn. by rewrite list_lookup_middle.
  - intros i Hi. subst m'. unfold Model.GetMesh. cbn. by apply lookup_app_l.
  - by exists before, after.
  - rewrite !ModelFacts.MeshInstanceCount_enumerated.
    transitivity (length (Model.MeshInstanceKeys m')).
    { unfold Model.MeshInstanceKeys. by rewrite length_map. }
    transitivity (S (length (Model.MeshInstanceKeys m))).
    { fold m' in Hkeys'. rewrite Hkeys', Hkeys, !length_app. cbn. lia. }
    unfold Model.MeshInstanceKeys. by rewrite length_map.
  - apply ModelMore.indicesValid_spec. fold m' in Hkeys'. rewrite Hkeys', Hcount'.
    apply ModelMore.indicesValid_spec in Hvalid. rewrite Hkeys in Hvalid.
    apply Forall_app in Hvalid as [Hbefore Hafter].
    apply Forall_app. split; [|apply Forall_cons; split].
    + eapply Forall_impl; [exact Hbefore|]. intros key Hkey. cbv beta in *. lia.
    + cbn. lia.
    + eapply Forall_impl; [exact Hafter|]. intros key Hkey. cbv beta in *. lia.
  - pose proof (RootMeshFacts.valid_nodes m Hvalid) as Hnodes.
    subst m' meshIndex. unfold Model.RemoveMesh.
    cbn [Model.AddMeshToRootNode Model.AddMesh Model.AddMeshIndexToRoot fst snd
         Model.root Model.idGenerator Model.materials Model.meshes Model.physicalGroups].
    unfold Node.Enumerate in Hnodes.
    destruct m as [root idGenerator materials meshes physicalGroups].
    cbn [Model.root Model.idGenerator Model.materials Model.meshes Model.physicalGroups
         Model.MeshCount] in *.
    unfold Model.MeshCount in Hnodes. cbn [Model.meshes] in Hnodes.
    f_equal.
    + destruct root as [i nm tr children indices].
      cbn [Node.id Node.name Node.transformation Node.childNodes Node.meshIndices
           Node.updateMeshIndices].
      f_equal.
      * cbn [Node.EnumerateFrom] in Hnodes.
        assert (Hall : forall c, c ∈ children ->
                  Node.updateMeshIndices (Model.removeMeshIndex (length meshes)) c = c).
        { intros c Hc. apply (RootMeshFacts.updateMeshIndices_fixed _ _ [tr]).
          intros p Hp. apply RootMeshFacts.removeMeshIndex_below, Hnodes. right.
          apply list_elem_of_In, in_flat_map. exists c. split; by apply list_elem_of_In. }
        clear - Hall. induction children as [|c children IH]; [reflexivity|].
        cbn [map]. rewrite (Hall c) by (by left). rewrite IH; [reflexivity|].
        intros c' Hc'. apply Hall. by right.
      * apply RootMeshFacts.removeMeshIndex_snoc.
        apply (Hnodes (Node.mk i nm tr children indices, [])).
        cbn [Node.EnumerateFrom]. by left.
    + rewrite delete_middle. apply app_nil_r.
Qed.

Lemma AddMeshToRootNode_then_RemoveMesh_witness :
  Model.indicesValid Example.boxModel = true
  /\ Model.RemoveMesh (fst (Model.AddMeshToRootNode Example.boxModel Example.boxMesh))
                      (snd (Model.AddMeshToRootNode Example.boxModel Example.boxMesh))
     = Example.boxModel.
Proof.
  assert (Hvalid : Model.indicesValid Example.boxModel = true) by reflexivity.
  split; [exact Hvalid|].
  exact (proj2 (proj2 (proj2 (proj2 (proj2 (proj2
           (AddMeshToRootNode_then_RemoveMesh
              IntGeometry.geometry Example.boxModel Example.boxMesh Hvalid))))))).
Defined.

(** ** Merging a model into the unified model *)

Module MergeFacts.
Section WithGeometry.
Context `{Geometry}.
Import ExporterStl.

Lemma lookup_all {A} (l : list A) (n : nat) :
  n <= length l -> omap (fun i => l !! i) (seq 0 n) = take n l.
Proof.
  induction n as [|n IH]; intros Hle; [reflexivity|].
  rewrite seq_S, omap_app, IH by lia. cbn [Nat.add omap list_omap].
  destruct (lookup_lt_is_Some_2 l n) as [x Hx]; [lia|].
  rewrite Hx. by rewrite (take_S_r _ _ x).
Qed.

(** The clone of a whole mesh has its geometry. *)
Lemma cloneMesh_allFaces (mesh : Mesh.t) :
  Mesh.triangles (cloneMesh mesh (allFaces mesh)) = Mesh.triangles mesh
  /\ Mesh.vertices (cloneMesh mesh (allFaces mesh)) = Mesh.vertices mesh
  /\ Mesh.normals (cloneMesh mesh (allFaces mesh)) = Mesh.normals mesh
  /\ Mesh.uvs (cloneMesh mesh (allFaces mesh)) = Mesh.uvs mesh.
Proof.
  split; [|done]. unfold cloneMesh, allFaces, Mesh.GetTriangle, Mesh.TriangleCount.
  cbn [Mesh.triangles]. rewrite lookup_all by done. apply firstn_all.
Qed.

Lemma clones_added (sources : list Mesh.t) (target : Model.t) :
  let target' :=
    fold_left (fun target sourceMesh =>
                 fst (Model.AddMesh target (cloneMesh sourceMesh (allFaces sourceMesh))))
              sources target in
  Model.meshes target'
  = Model.meshes target ++ map (fun mesh => cloneMesh mesh (allFaces mesh)) sources
  /\ Model.root target' = Model.root target
  /\ Model.idGenerator target' = Model.idGenerator target
  /\ Model.materials target' = Model.materials target
  /\ Model.physicalGroups target' = Model.physicalGroups target.
Proof.
  revert target. induction sources as [|mesh sources IH]; intros target; cbn [fold_left].
  - by rewrite app_nil_r.
  - destruct (IH (fst (Model.AddMesh target (cloneMesh mesh (allFaces mesh)))))
      as (-> & -> & -> & -> & ->).
    cbn. by rewrite <- app_assoc.
Qed.

(** [EnumerateMeshIndices] visits the mesh indices in the order of the
    mesh instances. *)
Lemma EnumerateMeshIndices_keys (n : Node.t) :
  forall ancestors,
    EnumerateMeshIndices n
    = map snd (flat_map RemoveMeshFacts.nodeKeys (Node.EnumerateFrom ancestors n)).
Proof.
  induction n as [i nm tr children indices IH] using NodeFacts.node_ind.
  intros ancestors. cbn [EnumerateMeshIndices Node.EnumerateFrom flat_map].
  rewrite map_app. f_equal.
  - unfold RemoveMeshFacts.nodeKeys. cbn [fst Node.id Node.meshIndices].
    rewrite map_map. cbn [snd]. by rewrite map_id.
  - induction IH as [|c children Hc _ IHchildren]; [reflexivity|].
    cbn [flat_map]. rewrite flat_map_app, map_app, <- IHchildren. f_equal. apply Hc.
Qed.

Lemma mapped_valid (base count : nat) (indices : list nat) :
  Forall (fun i => i < count) indices ->
  omap (fun meshIndex => if (meshIndex <? count)%nat then Some (base + meshIndex) else None)
       indices
  = map (Nat.add base) indices.
Proof.
  induction 1 as [|i indices Hi _ IH]; [reflexivity|].
  cbn [omap list_omap map]. destruct (Nat.ltb_spec i count); [|lia]. by rewrite IH.
Qed.

End WithGeometry.
End MergeFacts.

(** X17: [MergeIntoModel].  The target receives a geometric copy of every
    mesh of the source behind its own meshes, and one new child of its
    root, named after the group, without children and with the identity
    transformation; the materials and the groups of the target are left as
    they are.  When the nodes of the source only hold indices of existing
    meshes, the new node holds one index per instance of the source, in
    enumeration order, shifted by the mesh count of the target: every
    instance of the source is merged as an instance of the one new node,
    and the transformations of the source nodes are not carried over. *)
Theorem MergeIntoModel_appends_group_node :
  forall (G : Geometry) (sourceModel targetModel : Model.t) (groupName : string),
    Model.indicesValid sourceModel = true ->
    let merged := ExporterStl.MergeIntoModel sourceModel targetModel groupName in
    Model.materials merged = Model.materials targetModel
    /\ Model.physicalGroups merged = Model.physicalGroups targetModel
    /\ Model.MeshCount merged = Model.MeshCount targetModel + Model.MeshCount sourceModel
    /\ (forall i, i < Model.MeshCount targetModel ->
          Model.GetMesh merged i = Model.GetMesh targetModel i)
    /\ (forall i mesh, Model.GetMesh sourceModel i = Some mesh ->
          exists clone,
            Model.GetMesh merged (Model.MeshCount targetModel + i) = Some clone
            /\ Mesh.triangles clone = Mesh.triangles mesh
            /\ Mesh.vertices clone = Mesh.vertices mesh
            /\ Mesh.normals clone = Mesh.normals mesh
            /\ Mesh.uvs clone = Mesh.uvs mesh)
    /\ Node.childNodes (Model.root merged)
       = Node.childNodes (Model.root targetModel)
         ++ [Node.mk (Model.idGenerator targetModel) groupName Identity []
               (map (fun key => Model.MeshCount targetModel + snd key)
                    (Model.MeshInstanceKeys sourceModel))]
    /\ Node.meshIndices (Model.root merged) = Node.meshIndices (Model.root targetModel).
Proof.
  intros G sourceModel targetModel groupName Hvalid merged. subst merged.
  unfold ExporterStl.MergeIntoModel.
  destruct (MergeFacts.clones_added (Model.meshes sourceModel) targetModel)
    as (Hmeshes & Hroot & Hgen & Hmaterials & Hgroups).
  cbn zeta in *.
  set (target' := fold_left _ (Model.meshes sourceModel) targetModel) in *.
  unfold Model.GetMesh, Model.MeshCount.
  cbn [Model.AddChildNodeToRoot Model.materials Model.physicalGroups Model.meshes
       Model.root Node.childNodes Node.meshIndices].
  rewrite Hmeshes, Hroot, Hgen. split_and!.
  - exact Hmaterials.
  - exact Hgroups.
  - by rewrite length_app, length_map.
  - intros i Hi. by apply lookup_app_l.
  - intros i mesh Hmesh. exists (ExporterStl.cloneMesh mesh (ExporterStl.allFaces mesh)).
    split; [|apply MergeFacts.cloneMesh_allFaces].
    rewrite lookup_app_r by lia.
    replace (length (Model.meshes targetModel) + i - length (Model.meshes targetModel))
      with i by lia.
    rewrite list_lookup_fmap. unfold Model.GetMesh in Hmesh. by rewrite Hmesh.
  - do 3 f_equal. unfold Model.GetRootNode.
    rewrite (MergeFacts.EnumerateMeshIndices_keys _ []).
    change (Node.EnumerateFrom [] (Model.root sourceModel))
      with (Node.Enumerate (Model.root sourceModel)).
    rewrite <- RemoveMeshFacts.MeshInstanceKeys_nodes.
    apply ModelMore.indicesValid_spec in Hvalid.
    rewrite MergeFacts.mapped_valid.
    + by rewrite map_map.
    + apply Forall_fmap. exact Hvalid.
  - reflexivity.
Qed.

Lemma MergeIntoModel_appends_group_node_witness :
  Model.indicesValid (ExporterStl.testCubeModel (H := IntGeometry.geometry) "Inlet") = true
  /\ Model.MeshCount
       (ExporterStl.MergeIntoModel (ExporterStl.testCubeModel "Inlet") Example.boxModel
                                   "Inlet") = 2.
Proof.
  assert (Hvalid : Model.indicesValid
                     (ExporterStl.testCubeModel (H := IntGeometry.geometry) "Inlet") = true)
    by reflexivity.
  split; [exact Hvalid|].
  destruct (MergeIntoModel_appends_group_node
              IntGeometry.geometry (ExporterStl.testCubeModel "Inlet") Example.boxModel
              "Inlet" Hvalid) as (_ & _ & Hcount & _).
  etrans; [exact Hcount | reflexivity].
Defined.

(** X18: [AlignToBoundary] rounds a size up to the least multiple of 4
    that is not below it: the result is a multiple of 4, exceeds the size
    by less than 4, no multiple of 4 lies between the size and the result,
    and a result is left unchanged by a second alignment. *)
Theorem AlignToBoundary_least_multiple :
  forall size : nat,
    let aligned := ExporterGltf.AlignToBoundary size in
    aligned mod 4 = 0
    /\ size <= aligned < size + 4
    /\ (forall m, m mod 4 = 0 -> size <= m -> aligned <= m)
    /\ ExporterGltf.AlignToBoundary aligned = aligned.
Proof.
  intros size aligned. subst aligned.
  pose proof (ExporterGltfFacts.AlignToBoundary_aligned size) as Haligned.
  pose proof (ExporterGltfFacts.AlignToBoundary_ge size) as Hge.
  pose proof (ExporterGltfFacts.AlignToBoundary_lt size) as Hlt.
  split_and!; [done | done | done | | by apply ExporterGltfFacts.AlignToBoundary_fixed].
  intros m Hm Hle.
  pose proof (Nat.div_mod_eq m 4) as Em.
  pose proof (Nat.div_mod_eq (ExporterGltf.AlignToBoundary size) 4) as Ea.
  rewrite Hm in Em. rewrite Haligned in Ea.
  destruct (Nat.le_gt_cases (ExporterGltf.AlignToBoundary size) m) as [?|Hgt]; [done|].
  assert (m / 4 < ExporterGltf.AlignToBoundary size / 4) by lia. lia.
Qed.

Lemma AlignToBoundary_least_multiple_witness :
  8 mod 4 = 0 /\ 7 <= 8 /\ ExporterGltf.AlignToBoundary 7 <= 8.
Proof.
  split; [reflexivity|]. split; [lia|].
  exact (proj1 (proj2 (proj2 (AlignToBoundary_least_multiple 7))) 8 eq_refl
               (Nat.le_succ_diag_r 7)).
Defined.

(** ** Groups of an instance *)

Module GroupLookupFacts.
Section WithGeometry.
Context `{Geometry}.

Lemma GetGroups_app (m : Model.t) (groups more : list PhysicalGroup.t) id :
  Model.GetGroupsByMeshInstanceId (Model.setPhysicalGroups m (groups ++ more)) id
  = Model.GetGroupsByMeshInstanceId (Model.setPhysicalGroups m groups) id
    ++ Model.GetGroupsByMeshInstanceId (Model.setPhysicalGroups m more) id.
Proof. unfold Model.GetGroupsByMeshInstanceId. cbn. apply filter_app. Qed.

Lemma GetGroups_own (m : Model.t) id :
  Model.GetGroupsByMeshInstanceId (Model.setPhysicalGroups m (Model.physicalGroups m)) id
  = Model.GetGroupsByMeshInstanceId m id.
Proof. reflexivity. Qed.

End WithGeometry.
End GroupLookupFacts.

(** X19: the groups of an instance after the dialog created a group.
    [GetGroupsByMeshInstanceId] answers for a selected instance with the
    groups it answered before, in their order, followed by the new group,
    and for any other instance as before; for an argument that is not an
    instance id it answers with no group. *)
Theorem GetGroupsByMeshInstanceId_after_create :
  forall (G : Geometry) (model : Model.t) (selectedMeshes : list MeshInstanceId)
         (groupName : string),
    groupName <> EmptyString ->
    groupName ∉ map PhysicalGroup.GetName (Model.physicalGroups model) ->
    let model' := fst (Website.onCreateClick model selectedMeshes groupName) in
    (forall id, id ∈ selectedMeshes ->
       exists group,
         Model.GetGroupsByMeshInstanceId model' (Some id)
         = Model.GetGroupsByMeshInstanceId model (Some id) ++ [group]
         /\ PhysicalGroup.GetName group = groupName
         /\ Model.GetPhysicalGroup model' (Model.PhysicalGroupCount model) = Some group)
    /\ (forall id, id ∉ selectedMeshes ->
          Model.GetGroupsByMeshInstanceId model' (Some id)
          = Model.GetGroupsByMeshInstanceId model (Some id))
    /\ Model.GetGroupsByMeshInstanceId model' None = [].
Proof.
  intros G model selectedMeshes groupName Hne Hfresh model'. subst model'.
  unfold Website.onCreateClick. rewrite bool_decide_eq_false_2 by done.
  unfold Model.FindPhysicalGroupByName. rewrite RegistryFacts.find_unnamed by done.
  cbn [Model.AddPhysicalGroup fst snd].
  match goal with
  | |- context [fold_left (Website.addSelectedMesh ?m) _ _] =>
      destruct (WebsiteFacts.selection_spec m groupName selectedMeshes)
        as (Hname & Hcontains & _);
      set (group := fold_left (Website.addSelectedMesh m) selectedMeshes
                              (PhysicalGroup.new groupName)) in *
  end.
  split_and!.
  - intros id Hin. exists group.
    rewrite GroupLookupFacts.GetGroups_app, GroupLookupFacts.GetGroups_own.
    split_and!; [|exact Hname|].
    + f_equal. unfold Model.GetGroupsByMeshInstanceId. cbn [Model.setPhysicalGroups
        Model.physicalGroups]. rewrite filter_cons_True by by apply Hcontains.
      reflexivity.
    + unfold Model.GetPhysicalGroup, Model.PhysicalGroupCount.
      cbn [Model.setPhysicalGroups Model.physicalGroups]. by rewrite list_lookup_middle.
  - intros id Hout.
    rewrite GroupLookupFacts.GetGroups_app, GroupLookupFacts.GetGroups_own.
    unfold Model.GetGroupsByMeshInstanceId at 2.
    cbn [Model.setPhysicalGroups Model.physicalGroups].
    rewrite filter_cons_False; [apply app_nil_r|].
    intros Hc. by apply Hout, Hcontains.
  - unfold Model.GetGroupsByMeshInstanceId. apply IgesFacts.filter_none.
    apply Forall_forall. intros g _. cbn. discriminate.
Qed.

Lemma GetGroupsByMeshInstanceId_after_create_witness :
  "Inlet" <> EmptyString
  /\ ("Inlet" ∉ map PhysicalGroup.GetName (Model.physicalGroups Example.boxModel))
  /\ exists group,
       Model.GetGroupsByMeshInstanceId
         (fst (Website.onCreateClick Example.boxModel [Example.boxId] "Inlet"))
         (Some Example.boxId) = [group]
       /\ PhysicalGroup.GetName group = "Inlet".
Proof.
  assert (Hne : "Inlet" <> EmptyString) by discriminate.
  assert (Hfresh : "Inlet" ∉ map PhysicalGroup.GetName
                                 (Model.physicalGroups Example.boxModel))
    by apply not_elem_of_nil.
  split; [exact Hne|]. split; [exact Hfresh|].
  destruct (proj1 (GetGroupsByMeshInstanceId_after_create
                     IntGeometry.geometry Example.boxModel [Example.boxId] "Inlet"
                     Hne Hfresh) Example.boxId)
    as (group & Hgroups & Hname & _); [by apply list_elem_of_singleton|].
  exists group. split; [exact Hgroups | exact Hname].
Defined.

(** ** Exported files *)

Module ExportedFileFacts.

Lemma length_utf8_of_ascii (c : ascii) : 1 <= length (utf8_of_ascii c).
Proof. unfold utf8_of_ascii. destruct (_ <? 128)%Z; cbn; lia. Qed.

Lemma length_Utf8StringToArrayBuffer (s : string) :
  String.length s <= length (Utf8StringToArrayBuffer s).
Proof.
  unfold Utf8StringToArrayBuffer.
  induction s as [|c s IH]; cbn [list_ascii_of_string flat_map String.length];
    [cbn; lia|].
  rewrite length_app. pose proof (length_utf8_of_ascii c). lia.
Qed.

End ExportedFileFacts.

(** X22: an exported file never carries an empty content.  [SetTextContent]
    stores the UTF-8 encoding of the text, which has at least one byte per
    code unit, and [SetBufferContent] stores the buffer itself; an empty
    text or buffer is replaced by a single space.  Neither changes the
    name, and a new file has no content. *)
Theorem ExportedFile_content_never_empty :
  forall (file : ExportedFile.t) (text : string) (buffer : list byte),
    ExportedFile.GetBufferContent (ExportedFile.new (ExportedFile.GetName file)) = None
    /\ ExportedFile.GetName (ExportedFile.SetTextContent file text)
       = ExportedFile.GetName file
    /\ ExportedFile.GetName (ExportedFile.SetBufferContent file buffer)
       = ExportedFile.GetName file
    /\ (exists bytes,
          ExportedFile.GetBufferContent (ExportedFile.SetTextContent file text) = Some bytes
          /\ 1 <= length bytes
          /\ String.length text <= length bytes
          /\ (text <> EmptyString -> bytes = Utf8StringToArrayBuffer text))
    /\ (exists bytes,
          ExportedFile.GetBufferContent (ExportedFile.SetBufferContent file buffer)
          = Some bytes
          /\ 1 <= length bytes
          /\ (buffer <> [] -> bytes = buffer)
          /\ (buffer = [] -> bytes = [Byte.x20])).
Proof.
  intros file text buffer. split_and!; try reflexivity.
  - unfold ExportedFile.SetTextContent, ExportedFile.GetBufferContent.
    cbn [ExportedFile.content]. eexists. split; [reflexivity|].
    case_bool_decide as E.
    + subst text. change (length (Utf8StringToArrayBuffer " ")) with 1.
      cbn [String.length]. split_and!; [lia | lia | done].
    + pose proof (ExportedFileFacts.length_Utf8StringToArrayBuffer text) as Hlo.
      assert (1 <= String.length text) by (destruct text; [done | cbn; lia]).
      split_and!; [lia | lia | done].
  - unfold ExportedFile.SetBufferContent, ExportedFile.GetBufferContent.
    cbn [ExportedFile.content]. eexists. split; [reflexivity|].
    destruct buffer as [|b buffer]; cbn [length Nat.eqb].
    + split_and!; [cbn; lia | done | done].
    + split_and!; [cbn; lia | done | done].
Qed.

Lemma ExportedFile_content_never_empty_witness :
  "solid" <> EmptyString
  /\ ExportedFile.GetBufferContent
       (ExportedFile.SetTextContent (ExportedFile.new "model.stl") "solid")
     = Some (Utf8StringToArrayBuffer "solid").
Proof.
  assert (Hne : "solid" <> EmptyString) by discriminate.
  split; [exact Hne|].
  destruct (proj1 (proj2 (proj2 (proj2
              (ExportedFile_content_never_empty (ExportedFile.new "model.stl")
                                                "solid" []))))) as
    (bytes & Hcontent & _ & _ & Hbytes).
  rewrite Hcontent. f_equal. by apply Hbytes.
Defined.

(** ** The text encoding *)

Module StlTextFacts.
Section WithGeometry.
Context `{Geometry}.
Import ExporterStl.

#[local] Abbreviation tri := (Coord3D.t number * Coord3D.t number * Coord3D.t number
                 * Coord3D.t number)%type.

(** A line at an indentation level. *)
Definition line (level : nat) (str : string) : string :=
  TextWriter.spaces level +:+ str +:+ LF.

(** The seven lines of a facet. *)
Definition facetText (t : tri) : string :=
  let '(v0, v1, v2, normal) := t in
  line 0 (TextWriter.join (coordLine ["facet"; "normal"] normal))
  +:+ line 1 "outer loop"
  +:+ line 2 (TextWriter.join (coordLine ["vertex"] v0))
  +:+ line 2 (TextWriter.join (coordLine ["vertex"] v1))
  +:+ line 2 (TextWriter.join (coordLine ["vertex"] v2))
  +:+ line 1 "endloop"
  +:+ line 0 "endfacet".

Definition facetsText (tris : list tri) : string :=
  fold_right (fun t rest => facetText t +:+ rest) EmptyString tris.

Definition textStl (modelName : string) (tris : list tri) : string :=
  line 0 ("solid " +:+ modelName) +:+ facetsText tris
  +:+ line 0 ("endsolid " +:+ modelName).

Lemma string_app_assoc (a b c : string) : (a +:+ b) +:+ c = a +:+ (b +:+ c).
Proof.
  induction a as [|x a IH]; [reflexivity|].
  change (String x ((a +:+ b) +:+ c) = String x (a +:+ (b +:+ c))). by rewrite IH.
Qed.

Lemma string_app_nil_r (a : string) : a +:+ EmptyString = a.
Proof.
  induction a as [|x a IH]; [reflexivity|].
  change (String x (a +:+ EmptyString) = String x a). by rewrite IH.
Qed.

Lemma WriteLine_text (w : TextWriter.t) (str : string) :
  TextWriter.text (TextWriter.WriteLine w str)
  = TextWriter.text w +:+ line (Z.to_nat (TextWriter.indentation w)) str
  /\ TextWriter.indentation (TextWriter.WriteLine w str) = TextWriter.indentation w.
Proof.
  unfold TextWriter.WriteLine, TextWriter.WriteIndentation, TextWriter.Write, line.
  cbn [TextWriter.text TextWriter.indentation]. split; [|reflexivity].
  by rewrite string_app_assoc.
Qed.

Lemma writeTextTriangle_text (w : TextWriter.t) (n : nat) v0 v1 v2 normal :
  TextWriter.indentation w = 0%Z ->
  exists w',
    writeTextTriangle (w, n) v0 v1 v2 normal = Ok (w', S n)
    /\ TextWriter.text w' = TextWriter.text w +:+ facetText (v0, v1, v2, normal)
    /\ TextWriter.indentation w' = 0%Z.
Proof.
  intros Hlevel. unfold writeTextTriangle, TextWriter.WriteArrayLine.
  eexists. split; [reflexivity|]. cbv zeta.
  repeat first
    [ rewrite (proj1 (WriteLine_text _ _))
    | rewrite (proj2 (WriteLine_text _ _))
    | progress cbn [TextWriter.Indent TextWriter.text TextWriter.indentation] ].
  rewrite Hlevel. split; [|reflexivity].
  change (Z.to_nat 0) with 0. change (Z.to_nat (0 + 1)) with 1.
  change (Z.to_nat (0 + 1 + 1)) with 2. change (Z.to_nat (0 + 1 + 1 + -1)) with 1.
  change (Z.to_nat (0 + 1 + 1 + -1 + -1)) with 0.
  unfold facetText. by rewrite !string_app_assoc.
Qed.

Lemma facets_written (tris : list tri) :
  forall (w : TextWriter.t) (n : nat),
    TextWriter.indentation w = 0%Z ->
    exists w',
      forEach (ExporterModel.applyCallback writeTextTriangle) tris (w, n)
      = Ok (w', n + length tris)
      /\ TextWriter.text w' = TextWriter.text w +:+ facetsText tris
      /\ TextWriter.indentation w' = 0%Z.
Proof.
  induction tris as [|[[[v0 v1] v2] normal] tris IH]; intros w n Hlevel.
  - exists w. cbn [forEach length facetsText fold_right].
    rewrite Nat.add_0_r, string_app_nil_r. done.
  - destruct (writeTextTriangle_text w n v0 v1 v2 normal Hlevel)
      as (w1 & Hstep & Htext1 & Hlevel1).
    destruct (IH w1 (S n) Hlevel1) as (w' & Hrest & Htext' & Hlevel').
    exists w'. cbn [forEach ExporterModel.applyCallback].
    rewrite Hstep, bind_Ok, Hrest. split_and!.
    + do 2 f_equal. cbn [length]. lia.
    + rewrite Htext', Htext1. cbn [facetsText fold_right]. apply string_app_assoc.
    + exact Hlevel'.
Qed.

Lemma ExportTextForModel_layout em files fileName modelName (tris : list tri) :
  ExporterModel.trianglesWithNormals em = Ok tris ->
  ExportTextForModel em files fileName modelName
  = Ok (files ++ [ExportedFile.mk fileName
                    (Some (Utf8StringToArrayBuffer (textStl modelName tris)))]).
Proof.
  intros Htris.
  destruct (ExporterModelFacts.enumeration_collected em tris Htris) as (Hcount & Henum).
  unfold ExportTextForModel. rewrite Hcount, bind_Ok, Henum.
  destruct (facets_written tris
              (TextWriter.WriteLine TextWriter.new ("solid " +:+ modelName)) 0)
    as (w' & -> & Htext & Hlevel); [reflexivity|].
  rewrite bind_Ok. cbn [fst]. do 3 f_equal.
  unfold ExportedFile.SetTextContent, ExportedFile.new. cbn [ExportedFile.name].
  unfold TextWriter.GetText.
  rewrite (proj1 (WriteLine_text _ _)), Htext, Hlevel.
  rewrite (proj1 (WriteLine_text _ _)). cbn [TextWriter.new TextWriter.text
    TextWriter.indentation]. change (Z.to_nat 0) with 0.
  replace (EmptyString +:+ line 0 ("solid " +:+ modelName))
    with (line 0 ("solid " +:+ modelName)) by reflexivity.
  rewrite !string_app_assoc. fold (textStl modelName tris).
  rewrite bool_decide_eq_false_2; [reflexivity|]. discriminate.
Qed.

Lemma valid_TriangleCount (m : Model.t) :
  Model.indicesValid m = true -> exists n, Model.TriangleCount m = Ok n.
Proof.
  intros Hvalid. unfold Model.TriangleCount.
  assert (Hall : forall mi, mi ∈ Model.EnumerateMeshInstances m ->
                            exists mesh, MeshInstance.mesh mi = Some mesh)
    by (intros mi; by apply CloneFacts.valid_instance_mesh).
  generalize 0 as count.
  induction (Model.EnumerateMeshInstances m) as [|mi instances IH]; intros count;
    cbn [forEach]; [eauto|].
  destruct (Hall mi) as [mesh Hmesh]; [by left|].
  unfold MeshInstance.TriangleCount, MeshInstance.GetMesh. rewrite Hmesh, !bind_Ok.
  apply IH. intros mi' Hin. apply Hall. by right.
Qed.

End WithGeometry.
End StlTextFacts.

(** X23: the text encoder.  For a filtered model that is well formed,
    [ExportTextForModel] adds one artifact whose text is the line
    [solid <name>], then for every triangle, in enumeration order, the
    seven lines of its facet (the normal, [outer loop], the three vertices,
    [endloop], [endfacet]) indented by two spaces per nesting level, then
    the line [endsolid <name>]; the indentation is back at zero after
    every facet. *)
Theorem ExportTextForModel_facet_layout :
  forall (G : Geometry) (em : ExporterModel.t) (files : list ExportedFile.t)
         (fileName modelName : string),
    ExporterModel.wellFormed em = true ->
    exists tris,
      ExporterModel.trianglesWithNormals em = Ok tris
      /\ ExporterModel.TriangleCount em = Ok (length tris)
      /\ ExporterStl.ExportTextForModel em files fileName modelName
         = Ok (files ++ [ExportedFile.mk fileName
                           (Some (Utf8StringToArrayBuffer
                                    (StlTextFacts.textStl modelName tris)))])
      /\ StlTextFacts.textStl modelName tris
         = "solid " +:+ modelName +:+ LF
           +:+ StlTextFacts.facetsText tris
           +:+ "endsolid " +:+ modelName +:+ LF.
Proof.
  intros G em files fileName modelName Hwf.
  destruct (ExporterModelFacts.wellFormed_enumerates em Hwf) as [tris Htris].
  exists tris. split; [exact Htris|].
  split; [apply (ExporterModelFacts.enumeration_collected em tris Htris)|].
  split; [by apply StlTextFacts.ExportTextForModel_layout|].
  unfold StlTextFacts.textStl, StlTextFacts.line. cbn [TextWriter.spaces].
  change (EmptyString +:+ ?s) with s.
  by rewrite !StlTextFacts.string_app_assoc.
Qed.

Lemma ExportTextForModel_facet_layout_witness :
  let em := ExporterModel.mk Example.boxModel ExporterSettings.new in
  ExporterModel.wellFormed em = true
  /\ exists tris,
       ExporterModel.TriangleCount em = Ok (length tris)
       /\ ExporterStl.ExportTextForModel em [] "model.stl" "Model"
          = Ok [ExportedFile.mk "model.stl"
                  (Some (Utf8StringToArrayBuffer
                           (StlTextFacts.textStl (H := IntGeometry.geometry) "Model"
                                                 tris)))].
Proof.
  intros em.
  assert (Hwf : ExporterModel.wellFormed em = true) by reflexivity.
  split; [exact Hwf|].
  destruct (ExportTextForModel_facet_layout IntGeometry.geometry em [] "model.stl" "Model"
              Hwf) as (tris & _ & Hcount & Hexport & _).
  exists tris. split; [exact Hcount | exact Hexport].
Defined.

(** ** The hand-over to the conversion server *)

Module ServerExportFacts.
Section WithGeometry.
Context `{Geometry}.
Import ExporterStl.

(** The vertex table is consistent: three coordinates per vertex, and
    every recorded index addresses a vertex. *)
Definition tableValid (table : VertexTable) : Prop :=
  length (tableVertices table) = 3 * vertexIndex table
  /\ forall key index, vertexMap table !! key = Some index -> index < vertexIndex table.

Definition stateValid (state : VertexTable * list nat) : Prop :=
  tableValid (fst state)
  /\ Forall (fun index => index < vertexIndex (fst state)) (snd state).

Lemma addVertex_valid table vertex :
  tableValid table ->
  tableValid (fst (addVertex table vertex))
  /\ snd (addVertex table vertex) < vertexIndex (fst (addVertex table vertex))
  /\ vertexIndex table <= vertexIndex (fst (addVertex table vertex)).
Proof.
  intros [Hlen Hmap]. unfold addVertex.
  destruct (vertexMap table !! vertexKey vertex) as [index|] eqn:E; cbn [fst snd].
  - split; [split; assumption|]. split; [exact (Hmap _ _ E) | lia].
  - cbn [vertexIndex]. split; [|lia]. split; cbn [tableVertices vertexMap vertexIndex].
    + rewrite length_app, Hlen. cbn [length]. lia.
    + intros key index. destruct (decide (key = vertexKey vertex)) as [->|Hne].
      * rewrite lookup_insert_eq. intros [= <-]. lia.
      * rewrite lookup_insert_ne by congruence. intros Hk.
        specialize (Hmap _ _ Hk). lia.
Qed.

Lemma onTriangleVertices_valid state corners :
  stateValid state -> stateValid (onTriangleVertices state corners).
Proof.
  intros [Htable Hindices]. destruct corners as [[v0 v1] v2]. unfold onTriangleVertices.
  destruct (addVertex_valid (fst state) v0 Htable) as (H0 & Hi0 & Hle0).
  destruct (addVertex_valid (fst (addVertex (fst state) v0)) v1 H0) as (H1 & Hi1 & Hle1).
  destruct (addVertex_valid (fst (addVertex (fst (addVertex (fst state) v0)) v1)) v2 H1)
    as (H2 & Hi2 & Hle2).
  split; cbn [fst snd]; [exact H2|].
  apply Forall_app. split.
  - eapply Forall_impl; [exact Hindices|]. cbn beta. intros index Hindex. lia.
  - repeat constructor; lia.
Qed.

Lemma corners_valid corners :
  forall state, stateValid state -> stateValid (fold_left onTriangleVertices corners state).
Proof.
  induction corners as [|c corners IH]; intros state Hstate; cbn [fold_left];
    [exact Hstate|].
  apply IH. by apply onTriangleVertices_valid.
Qed.

Lemma instances_valid instances :
  forall state state',
    stateValid state ->
    forEach (fun state meshInstance =>
               corners ← instanceTriangleVertices meshInstance;
               Ok (fold_left onTriangleVertices corners state))
            instances state = Ok state' ->
    stateValid state'.
Proof.
  induction instances as [|mi instances IH]; intros state state' Hstate; cbn [forEach].
  - intros [= <-]. exact Hstate.
  - destruct (instanceTriangleVertices mi) as [corners|e]; [|discriminate].
    rewrite !bind_Ok. apply IH. by apply corners_valid.
Qed.

(** The collected geometry is consistent. *)
Lemma collectGeometry_valid model table triangles :
  collectGeometry model = Ok (table, triangles) ->
  length (tableVertices table) = 3 * vertexIndex table
  /\ Forall (fun index => index < vertexIndex table) triangles.
Proof.
  intros Hcollect. apply instances_valid in Hcollect as [[Hlen _] Hindices].
  - split; [exact Hlen | exact Hindices].
  - split; [split; [reflexivity|]|constructor].
    intros key index Hk. cbn [fst vertexMap] in Hk. rewrite lookup_empty in Hk.
    discriminate.
Qed.

(** The triangle array holds three entries for every triangle of every
    instance, in the order of the enumeration. *)
Lemma corners_length (vertices : list (Coord3D.t number)) triangles :
  forall corners corners' : list (Coord3D.t number * Coord3D.t number * Coord3D.t number),
    forEach (fun corners tr =>
               match vertices !! Triangle.v0 tr, vertices !! Triangle.v1 tr,
                     vertices !! Triangle.v2 tr with
               | Some v0, Some v1, Some v2 => Ok (corners ++ [(v0, v1, v2)])
               | _, _, _ => Throw TypeError
               end) triangles corners = Ok corners' ->
    length corners' = length corners + length triangles.
Proof.
  induction triangles as [|tr triangles IH]; cbn [forEach]; intros corners corners'.
  - intros [= <-]. cbn [length]. lia.
  - destruct (vertices !! Triangle.v0 tr); [|discriminate].
    destruct (vertices !! Triangle.v1 tr); [|discriminate].
    destruct (vertices !! Triangle.v2 tr); [|discriminate].
    rewrite bind_Ok. intros Hrest. rewrite (IH _ _ Hrest), length_app.
    cbn [length]. lia.
Qed.

Lemma onTriangleVertices_length corners :
  forall state,
    length (snd (fold_left onTriangleVertices corners state))
    = length (snd state) + 3 * length corners.
Proof.
  induction corners as [|[[v0 v1] v2] corners IH]; intros state; cbn [fold_left length];
    [lia|].
  rewrite IH. unfold onTriangleVertices. cbn [snd]. rewrite length_app. cbn [length]. lia.
Qed.

Lemma instances_length instances :
  forall state state',
    forEach (fun state meshInstance =>
               corners ← instanceTriangleVertices meshInstance;
               Ok (fold_left onTriangleVertices corners state))
            instances state = Ok state' ->
    length (snd state')
    = length (snd state)
      + 3 * length (flat_map
                      (fun meshInstance =>
                         match MeshInstance.mesh meshInstance with
                         | Some mesh =>
                             map (pair (GetKey (MeshInstance.GetId meshInstance)))
                                 (seq 0 (Mesh.TriangleCount mesh))
                         | None => []
                         end) instances).
Proof.
  induction instances as [|mi instances IH]; intros state state'; cbn [forEach flat_map].
  - intros [= <-]. cbn [length]. lia.
  - unfold instanceTriangleVertices, MeshInstance.GetMesh.
    destruct (MeshInstance.mesh mi) as [mesh|];
      [rewrite bind_Ok | rewrite !bind_Throw; discriminate].
    match goal with
    | |- context [forEach ?body (Mesh.triangles mesh) []] =>
        destruct (forEach body (Mesh.triangles mesh) []) as [corners|e] eqn:Hcorners;
        [rewrite !bind_Ok | rewrite !bind_Throw; discriminate]
    end.
    intros Hrest. rewrite (IH _ _ Hrest).
    apply corners_length in Hcorners. cbn [length] in Hcorners.
    rewrite onTriangleVertices_length, length_app, length_map, length_seq.
    unfold Mesh.TriangleCount. lia.
Qed.

Lemma collectGeometry_positions model table triangles :
  collectGeometry model = Ok (table, triangles) ->
  length triangles = 3 * length (ExporterIges.triangleIds model).
Proof.
  intros Hcollect. apply instances_length in Hcollect. exact Hcollect.
Qed.

Lemma corners_wellFormed (vertices : list (Coord3D.t number)) triangles :
  forallb (fun tr => (Triangle.v0 tr <? length vertices)%nat
                     && (Triangle.v1 tr <? length vertices)%nat
                     && (Triangle.v2 tr <? length vertices)%nat) triangles = true ->
  forall corners : list (Coord3D.t number * Coord3D.t number * Coord3D.t number),
    exists corners',
      forEach (fun corners tr =>
                 match vertices !! Triangle.v0 tr, vertices !! Triangle.v1 tr,
                       vertices !! Triangle.v2 tr with
                 | Some v0, Some v1, Some v2 => Ok (corners ++ [(v0, v1, v2)])
                 | _, _, _ => Throw TypeError
                 end) triangles corners = Ok corners'.
Proof.
  induction triangles as [|tr triangles IH]; cbn [forallb forEach]; intros Hwf corners;
    [eauto|].
  apply andb_true_iff in Hwf as [Htr Hwf].
  rewrite !andb_true_iff, !Nat.ltb_lt in Htr. destruct Htr as [[H0 H1] H2].
  destruct (lookup_lt_is_Some_2 _ _ H0) as [a ->].
  destruct (lookup_lt_is_Some_2 _ _ H1) as [b ->].
  destruct (lookup_lt_is_Some_2 _ _ H2) as [c ->].
  rewrite bind_Ok. by apply IH.
Qed.

Lemma collected_instances_wellFormed instances :
  forallb (fun mi => match MeshInstance.mesh mi with
                     | Some mesh => Mesh.wellFormed mesh
                     | None => false
                     end) instances = true ->
  forall state,
    exists state',
      forEach (fun state meshInstance =>
                 corners ← instanceTriangleVertices meshInstance;
                 Ok (fold_left onTriangleVertices corners state))
              instances state = Ok state'.
Proof.
  induction instances as [|mi instances IH]; cbn [forallb forEach]; intros Hwf state;
    [eauto|].
  apply andb_true_iff in Hwf as [Hmi Hwf].
  unfold instanceTriangleVertices, MeshInstance.GetMesh. revert Hmi.
  destruct (MeshInstance.mesh mi) as [mesh|]; [|discriminate]. intros Hmi.
  rewrite bind_Ok.
  unfold Mesh.wellFormed in Hmi.
  rewrite <- (ExporterModelFacts.transformedVertices_length
                (MeshInstance.GetTransformation mi)) in Hmi.
  destruct (corners_wellFormed _ _ Hmi []) as [corners ->].
  rewrite !bind_Ok. by apply IH.
Qed.

(** When no instance is hidden, a well-formed export model has its
    geometry collected. *)
Lemma collectGeometry_wellFormed em :
  ExporterModel.wellFormed em = true ->
  ExporterModel.EnumerateMeshInstances em
  = Model.EnumerateMeshInstances (ExporterModel.model em) ->
  exists state, collectGeometry (ExporterModel.model em) = Ok state.
Proof.
  unfold ExporterModel.wellFormed. intros Hwf Hall. rewrite Hall in Hwf.
  exact (collected_instances_wellFormed _ Hwf _).
Qed.

End WithGeometry.
End ServerExportFacts.

(** X21: the dispatch of the STL exporter.  On a well-formed model whose
    nodes only hold indices of existing meshes, [ExportContent] does not
    throw.  When the group export is requested and the model has a group,
    [ExportPhysicalGroups] is not reached: the export is handed to
    [ExportPhysicalGroupsWithFreeCAD].  Either the request is sent to the
    conversion server, and then it names every group of the model with
    the keys of its instances and without its face lists, carries the
    selected groups of the settings, three coordinates per collected
    vertex and triangle corners that address collected vertices; the
    answer adds exactly one file: [model.stl] holding a fixed placeholder
    text when the server delivered a file, which the browser has then
    saved directly, or [error.txt] holding the message of the failure.  Or
    building the request raised an exception, which adds exactly
    [error.txt] with the message, and which needs a hidden instance.
    Otherwise [ExportContent] adds exactly one file, [model.stl], holding
    the encoding of all the visible triangles, and the physical groups of
    the model play no role. *)
Theorem ExportContent_dispatch :
  forall (G : Geometry) (em : ExporterModel.t) (format : FileFormat)
         (files : list ExportedFile.t),
    ExporterModel.wellFormed em = true ->
    Model.indicesValid (ExporterModel.model em) = true ->
    let model := ExporterModel.model em in
    let settings := ExporterModel.settings em in
    let requested := ExporterStl.truthy (ExporterSettings.exportPhysicalGroups settings) in
    let hasGroups := (0 <? Model.PhysicalGroupCount model)%nat in
    let textFile name text := ExportedFile.mk name (Some (Utf8StringToArrayBuffer text)) in
    (requested && hasGroups = true ->
     (exists request onFinish,
         ExporterStl.ExportContent em format files
         = Ok (ExporterStl.ServerExport request onFinish)
         /\ ExporterStl.requestGroups request
            = map (fun group => (PhysicalGroup.GetName group, PhysicalGroup.GetMeshes group))
                  (Model.physicalGroups model)
         /\ ExporterStl.requestSelectedGroups request
            = default [] (ExporterSettings.selectedGroups settings)
         /\ (exists vertexCount,
                length (ExporterStl.requestVertices request) = 3 * vertexCount
                /\ Forall (fun index => index < vertexCount)
                          (ExporterStl.requestTriangles request))
         /\ (forall blob,
                onFinish (ExporterStl.ReplyBlob blob)
                = {| ExporterStl.downloaded := Some ("model.stl", blob);
                     ExporterStl.completedFiles :=
                       files ++ [textFile "model.stl"
                                   ("solid Downloaded" +:+ LF +:+ "endsolid Downloaded")] |})
         /\ (forall message,
                onFinish (ExporterStl.ReplyError message)
                = {| ExporterStl.downloaded := None;
                     ExporterStl.completedFiles :=
                       files ++ [textFile "error.txt" ("Export failed: " +:+ message)] |}))
     \/ (exists onFinish,
            ExporterStl.ExportContent em format files
            = Ok (ExporterStl.PreparationFailed onFinish)
            /\ (forall message,
                   onFinish message
                   = files ++ [textFile "error.txt"
                                 ("Export preparation failed: " +:+ message)])
            /\ ExporterModel.EnumerateMeshInstances em
               <> Model.EnumerateMeshInstances model))
    /\ (requested && hasGroups = false ->
        exists tris,
          ExporterModel.trianglesWithNormals em = Ok tris
          /\ ExporterStl.ExportContent em format files
             = Ok (ExporterStl.Finished
                     (files ++ [ExportedFile.mk "model.stl"
                                  (Some match format with
                                        | Text => Utf8StringToArrayBuffer
                                                    (StlTextFacts.textStl "Model" tris)
                                        | Binary => StlLayout.binaryStl tris
                                        end)]))).
Proof.
  intros G em format files Hwf Hvalid model settings requested hasGroups textFile.
  subst model settings requested hasGroups textFile.
  unfold ExporterStl.ExportContent, Model.PhysicalGroupCount.
  unfold ExporterModel.GetModel.
  destruct (StlTextFacts.valid_TriangleCount _ Hvalid) as [n ->]. rewrite bind_Ok.
  split.
  - intros ->. unfold ExporterStl.ExportPhysicalGroupsWithFreeCAD, ExporterModel.GetModel.
    destruct (ExporterStl.collectGeometry (ExporterModel.model em))
      as [[table triangles]|e] eqn:Hcollect.
    + left. eexists. eexists. split; [reflexivity|].
      cbn [ExporterStl.requestGroups ExporterStl.requestSelectedGroups
           ExporterStl.requestVertices ExporterStl.requestTriangles].
      split; [reflexivity|]. split; [reflexivity|]. split.
      * exists (ExporterStl.vertexIndex table).
        exact (ServerExportFacts.collectGeometry_valid _ _ _ Hcollect).
      * split; intros; reflexivity.
    + right. eexists. split; [reflexivity|]. split; [intros; reflexivity|].
      intros Hall.
      destruct (ServerExportFacts.collectGeometry_wellFormed em Hwf Hall) as [state Hstate].
      rewrite Hstate in Hcollect. discriminate.
  - intros ->.
    destruct (ExporterModelFacts.wellFormed_enumerates em Hwf) as [tris Htris].
    exists tris. split; [exact Htris|]. destruct format.
    + unfold ExporterStl.ExportText.
      by rewrite (StlTextFacts.ExportTextForModel_layout em files _ _ tris Htris).
    + unfold ExporterStl.ExportBinary.
      by rewrite (ExporterStlFacts.ExportBinaryForModel_layout em files _ tris Htris).
Qed.

Lemma ExportContent_dispatch_witness :
  let em := ExporterModel.mk Example.twoGroupModel Example.selectedWithoutRemainder in
  ExporterModel.wellFormed em = true
  /\ Model.indicesValid (ExporterModel.model em) = true
  /\ exists request onFinish,
       ExporterStl.ExportContent em Binary [] = Ok (ExporterStl.ServerExport request onFinish)
       /\ map fst (ExporterStl.requestGroups request) = ["Inlet"; "Outlet"]
       /\ length (ExporterStl.requestVertices request) = 24
       /\ length (ExporterStl.requestTriangles request) = 36
       /\ map ExportedFile.GetName
              (ExporterStl.completedFiles (onFinish (ExporterStl.ReplyBlob [])))
          = ["model.stl"].
Proof.
  intros em.
  assert (Hwf : ExporterModel.wellFormed em = true) by reflexivity.
  assert (Hvalid : Model.indicesValid (ExporterModel.model em) = true) by reflexivity.
  split; [exact Hwf|]. split; [exact Hvalid|].
  destruct (proj1 (ExportContent_dispatch IntGeometry.geometry em Binary [] Hwf Hvalid)
                  eq_refl)
    as [(request & onFinish & Hexport & Hgroups & _ & _ & Hblob & _)
       |(onFinish & _ & _ & Hhidden)].
  - exists request, onFinish. split; [exact Hexport|].
    split; [rewrite Hgroups; reflexivity|].
    assert (Hrequest : match ExporterStl.ExportContent em Binary [] with
                       | Ok (ExporterStl.ServerExport request _) =>
                           length (ExporterStl.requestVertices request) = 24
                           /\ length (ExporterStl.requestTriangles request) = 36
                       | _ => False
                       end) by (vm_compute; split; reflexivity).
    rewrite Hexport in Hrequest. destruct Hrequest as [Hvertices Htriangles].
    split; [exact Hvertices|]. split; [exact Htriangles|].
    rewrite (Hblob []). reflexivity.
  - exfalso. apply Hhidden. reflexivity.
Defined.

(** ** Export by physical group *)

Module GroupExportFacts.
Section WithGeometry.
Context `{Geometry}.
Import ExporterStl.

(** The step of the loop over the groups reads the name of the group and
    the settings, and nothing else. *)
Lemma exportGroup_names em em' format exportSelectedOnly exportSeparateFiles
      selectedGroups s i (group group' : PhysicalGroup.t) :
  ExporterModel.settings em = ExporterModel.settings em' ->
  PhysicalGroup.GetName group = PhysicalGroup.GetName group' ->
  exportGroup em format exportSelectedOnly exportSeparateFiles selectedGroups s (i, group)
  = exportGroup em' format exportSelectedOnly exportSeparateFiles selectedGroups s
                (i, group').
Proof. intros Hsettings Hname. unfold exportGroup. by rewrite Hsettings, Hname. Qed.

Lemma forEach_names {State : Type}
      (body body' : State -> nat * PhysicalGroup.t -> result State)
      (groups : list PhysicalGroup.t) :
  (forall s i group group',
      PhysicalGroup.GetName group = PhysicalGroup.GetName group' ->
      body s (i, group) = body' s (i, group')) ->
  forall (groups' : list PhysicalGroup.t) (position : nat -> nat) s,
    map PhysicalGroup.GetName groups' = map PhysicalGroup.GetName groups ->
    forEach body (imap (fun i group => (position i, group)) groups') s
    = forEach body' (imap (fun i group => (position i, group)) groups) s.
Proof.
  intros Hbody. induction groups as [|group groups IH];
    intros groups' position s Hnames.
  - destruct groups'; [reflexivity | inversion Hnames].
  - destruct groups' as [|group' groups']; [inversion Hnames|].
    cbn [map] in Hnames. injection Hnames as Hname Hnames.
    rewrite !imap_cons. cbn [forEach].
    rewrite (Hbody s (position 0) group' group Hname).
    destruct (body' s (position 0, group)) as [s'|e]; [|reflexivity].
    rewrite !bind_Ok. exact (IH groups' (position ∘ Datatypes.S) s' Hnames).
Qed.

Lemma loop_names em em' format exportSelectedOnly exportSeparateFiles selectedGroups
      (groups groups' : list PhysicalGroup.t) s :
  ExporterModel.settings em = ExporterModel.settings em' ->
  map PhysicalGroup.GetName groups' = map PhysicalGroup.GetName groups ->
  forEach (exportGroup em format exportSelectedOnly exportSeparateFiles selectedGroups)
          (imap pair groups') s
  = forEach (exportGroup em' format exportSelectedOnly exportSeparateFiles selectedGroups)
            (imap pair groups) s.
Proof.
  intros Hsettings Hnames.
  apply (forEach_names _ _ groups
           (fun s i group group' Hname =>
              exportGroup_names em em' format exportSelectedOnly exportSeparateFiles
                                selectedGroups s i group group' Hsettings Hname)
           groups' id s Hnames).
Qed.

Lemma CreateRemainderModel_groups (model : Model.t) (groups' : list PhysicalGroup.t)
      used :
  CreateRemainderModel (Model.setPhysicalGroups model groups') used
  = CreateRemainderModel model used.
Proof. reflexivity. Qed.

End WithGeometry.
End GroupExportFacts.

(** X20: [ExportPhysicalGroups] never reads the membership of a group.
    Replacing the groups of the model by any groups that carry the same
    names, in the same order, leaves its result unchanged: the files it
    produces depend on the names of the groups, the settings, and (for the
    remainder) the meshes of the model, not on the instances and faces the
    groups hold. *)
Theorem ExportPhysicalGroups_ignores_membership :
  forall (G : Geometry) (model : Model.t) (settings : ExporterSettings.t)
         (format : FileFormat) (files : list ExportedFile.t)
         (groups' : list PhysicalGroup.t),
    map PhysicalGroup.GetName groups'
    = map PhysicalGroup.GetName (Model.physicalGroups model) ->
    ExporterStl.ExportPhysicalGroups
      (ExporterModel.mk (Model.setPhysicalGroups model groups') settings) format files
    = ExporterStl.ExportPhysicalGroups (ExporterModel.mk model settings) format files.
Proof.
  intros G model settings format files groups' Hnames.
  unfold ExporterStl.ExportPhysicalGroups.
  cbn [ExporterModel.GetModel ExporterModel.model ExporterModel.settings
       Model.setPhysicalGroups Model.physicalGroups Model.materials].
  rewrite GroupExportFacts.CreateRemainderModel_groups.
  rewrite (GroupExportFacts.loop_names
             (ExporterModel.mk (Model.setPhysicalGroups model groups') settings)
             (ExporterModel.mk model settings) format _ _ _
             (Model.physicalGroups model) groups' _ eq_refl Hnames).
  reflexivity.
Qed.

Lemma ExportPhysicalGroups_ignores_membership_witness :
  let emptied := [PhysicalGroup.new "Inlet"; PhysicalGroup.new "Outlet"] in
  map PhysicalGroup.GetName emptied
  = map PhysicalGroup.GetName (Model.physicalGroups Example.twoGroupModel)
  /\ ExporterStl.ExportPhysicalGroups
       (ExporterModel.mk (Model.setPhysicalGroups Example.twoGroupModel emptied)
                         Example.selectedWithoutRemainder) Binary []
     = ExporterStl.ExportPhysicalGroups
         (ExporterModel.mk Example.twoGroupModel Example.selectedWithoutRemainder)
         Binary [].
Proof.
  intros emptied.
  assert (Hnames : map PhysicalGroup.GetName emptied
                   = map PhysicalGroup.GetName (Model.physicalGroups Example.twoGroupModel))
    by reflexivity.
  split; [exact Hnames|].
  exact (ExportPhysicalGroups_ignores_membership
           IntGeometry.geometry Example.twoGroupModel Example.selectedWithoutRemainder
           Binary [] emptied Hnames).
Defined.

(** ** The files of the groups *)

Module GroupFilesFacts.
Section WithGeometry.
Context `{Geometry}.
Import ExporterStl.

#[local] Abbreviation tri := (Coord3D.t number * Coord3D.t number * Coord3D.t number
                 * Coord3D.t number)%type.

(** The content of a file for the triangles [tris]. *)
Definition encoded (format : FileFormat) (modelName : string) (tris : list tri)
  : list byte :=
  match format with
  | Text => Utf8StringToArrayBuffer (StlTextFacts.textStl modelName tris)
  | Binary => StlLayout.binaryStl tris
  end.

(** The names of the groups the loop of [ExportPhysicalGroups] does not
    skip, in order. *)
Definition selectedNames (settings : ExporterSettings.t) (groups : list PhysicalGroup.t)
  : list string :=
  omap (fun entry : nat * PhysicalGroup.t =>
          if bool_decide (ExporterSettings.exportSelectedOnly settings = Some true)
             && negb (bool_decide
                        (Z.of_nat (fst entry)
                         ∈ default [] (ExporterSettings.selectedGroups settings)))
          then None else Some (PhysicalGroup.GetName (snd entry)))
       (imap pair groups).

(** The file written for a group. *)
Definition groupFile (format : FileFormat) (tris : list tri) (groupName : string)
  : ExportedFile.t :=
  ExportedFile.mk (sanitizeName groupName +:+ ".stl") (Some (encoded format groupName tris)).

(** The exporter model of the cube built for a group. *)
Definition cube (settings : ExporterSettings.t) (groupName : string) : ExporterModel.t :=
  ExporterModel.mk (testCubeModel groupName) (filteredSettings settings).

(** The only instance of the cube model. *)
Definition cubeInstance (groupName : string) : MeshInstance.t :=
  MeshInstance.mk {| nodeId := 1; meshIndex := 0 |}
                  (Node.mk 1 groupName Identity [] [0])
                  (Append Identity Identity)
                  (Some (testCubeMesh 0)).

Lemma cube_instances groupName :
  Model.EnumerateMeshInstances (testCubeModel groupName) = [cubeInstance groupName].
Proof. reflexivity. Qed.

Lemma cube_wellFormed settings groupName :
  ExporterModel.wellFormed (cube settings groupName) = true.
Proof.
  unfold ExporterModel.wellFormed, ExporterModel.EnumerateMeshInstances, cube.
  cbn [ExporterModel.model ExporterModel.settings filteredSettings
       ExporterSettings.isMeshVisible].
  rewrite cube_instances, filter_cons, filter_nil.
  destruct (decide _); reflexivity.
Qed.

Lemma cube_triangles_name settings groupName :
  ExporterModel.trianglesWithNormals (cube settings groupName)
  = ExporterModel.trianglesWithNormals (cube settings EmptyString).
Proof.
  unfold ExporterModel.trianglesWithNormals, ExporterModel.EnumerateMeshInstances, cube.
  cbn [ExporterModel.model ExporterModel.settings filteredSettings
       ExporterSettings.isMeshVisible].
  rewrite !cube_instances, !filter_cons, !filter_nil.
  cbn [cubeInstance MeshInstance.id]. destruct (decide _); [|reflexivity].
  cbn [forEach].
  unfold ExporterModel.instanceTriangles, ExporterModel.exportTransformation,
    MeshInstance.GetMesh, MeshInstance.GetTransformation.
  cbn [MeshInstance.mesh MeshInstance.worldTransformation ExporterModel.settings].
  reflexivity.
Qed.

Lemma cube_triangles settings :
  exists tris,
    ExporterModel.trianglesWithNormals (cube settings EmptyString) = Ok tris
    /\ (length tris = 12 \/ length tris = 0).
Proof.
  destruct (ExporterModelFacts.wellFormed_enumerates _ (cube_wellFormed settings EmptyString))
    as [tris Htris].
  exists tris. split; [exact Htris|].
  destruct (ExporterModelFacts.enumeration_collected _ _ Htris) as [Hcount _].
  unfold ExporterModel.TriangleCount, ExporterModel.EnumerateMeshInstances, cube in Hcount.
  cbn [ExporterModel.model ExporterModel.settings filteredSettings
       ExporterSettings.isMeshVisible] in Hcount.
  rewrite cube_instances, filter_cons, filter_nil in Hcount.
  destruct (decide _); cbn [forEach] in Hcount.
  - change (MeshInstance.TriangleCount (cubeInstance EmptyString))
      with (@Ok nat 12) in Hcount.
    rewrite !bind_Ok in Hcount. injection Hcount as <-. by left.
  - injection Hcount as <-. by right.
Qed.

(** One step of the loop in separate-file mode. *)
Lemma exportGroup_separate em format (exportSelectedOnly : bool)
      (selectedGroups : list Z) (tris : list tri) s i (group : PhysicalGroup.t) :
  ExporterModel.trianglesWithNormals (cube (ExporterModel.settings em) EmptyString)
  = Ok tris ->
  exportGroup em format exportSelectedOnly true selectedGroups s (i, group)
  = Ok (if exportSelectedOnly && negb (bool_decide (Z.of_nat i ∈ selectedGroups))
        then s
        else {| loopFiles := loopFiles s
                             ++ [groupFile format tris (PhysicalGroup.GetName group)];
                unifiedModel := unifiedModel s;
                groupsProcessed := S (groupsProcessed s) |}).
Proof.
  intros Htris. unfold exportGroup.
  destruct (exportSelectedOnly && negb _); [reflexivity|].
  change (Model.TriangleCount (testCubeModel (PhysicalGroup.GetName group)))
    with (@Ok nat 12).
  rewrite bind_Ok.
  change (Model.MeshInstanceCount (testCubeModel (PhysicalGroup.GetName group))) with 1.
  cbn [Nat.eqb orb].
  fold (cube (ExporterModel.settings em) (PhysicalGroup.GetName group)).
  rewrite <- (cube_triangles_name _ (PhysicalGroup.GetName group)) in Htris.
  destruct format.
  - by rewrite (StlTextFacts.ExportTextForModel_layout _ _ _ _ tris Htris).
  - by rewrite (ExporterStlFacts.ExportBinaryForModel_layout _ _ _ tris Htris).
Qed.

Lemma loop_separate em format (exportSelectedOnly : bool) (selectedGroups : list Z)
      (tris : list tri) (groups : list PhysicalGroup.t) :
  ExporterModel.trianglesWithNormals (cube (ExporterModel.settings em) EmptyString)
  = Ok tris ->
  forall (position : nat -> nat) s,
    exists s',
      forEach (exportGroup em format exportSelectedOnly true selectedGroups)
              (imap (fun i group => (position i, group)) groups) s = Ok s'
      /\ unifiedModel s' = unifiedModel s
      /\ loopFiles s'
         = loopFiles s
           ++ map (groupFile format tris)
                  (omap (fun entry : nat * PhysicalGroup.t =>
                           if exportSelectedOnly
                              && negb (bool_decide (Z.of_nat (fst entry) ∈ selectedGroups))
                           then None else Some (PhysicalGroup.GetName (snd entry)))
                        (imap (fun i group => (position i, group)) groups)).
Proof.
  intros Htris. induction groups as [|group groups IH]; intros position s.
  - exists s. cbn. by rewrite app_nil_r.
  - rewrite imap_cons. cbn [forEach omap list_omap fst snd].
    rewrite (exportGroup_separate em format _ _ tris s _ group Htris), bind_Ok.
    destruct (exportSelectedOnly && negb _).
    + apply (IH (position ∘ Datatypes.S) s).
    + destruct (IH (position ∘ Datatypes.S)
                   {| loopFiles := loopFiles s
                                   ++ [groupFile format tris (PhysicalGroup.GetName group)];
                      unifiedModel := unifiedModel s;
                      groupsProcessed := Datatypes.S (groupsProcessed s) |})
        as (s' & Hrun & Hunified & Hfiles).
      exists s'. split; [exact Hrun|]. split; [exact Hunified|].
      rewrite Hfiles. cbn [loopFiles map]. by rewrite <- app_assoc.
Qed.

End WithGeometry.
End GroupFilesFacts.

(** X24: the files [ExportPhysicalGroups] writes in separate-file mode
    without remainder.  It does not throw, whatever the model.  It adds one
    file per group that the selection does not skip, in the order of the
    groups, named after the sanitized group name, and every one of these
    files encodes the same triangles: those of the placeholder cube under
    the settings, 12 or none, independent of the model and of the group.
    When no file results at all, the single file [empty.stl] is
    returned. *)
Theorem ExportPhysicalGroups_separate_files :
  forall (G : Geometry) (em : ExporterModel.t) (format : FileFormat)
         (files : list ExportedFile.t),
    let settings := ExporterModel.settings em in
    ExporterSettings.exportSeparateFiles settings <> Some false ->
    ExporterSettings.exportRemainder settings = Some false ->
    exists cubeTriangles emptyFile,
      ExporterModel.trianglesWithNormals (GroupFilesFacts.cube settings EmptyString)
      = Ok cubeTriangles
      /\ (length cubeTriangles = 12 \/ length cubeTriangles = 0)
      /\ ExporterStl.emptyModelFile format = Ok emptyFile
      /\ ExportedFile.GetName emptyFile = "empty.stl"
      /\ ExporterStl.ExportPhysicalGroups em format files
         = Ok match
               files ++ map (GroupFilesFacts.groupFile format cubeTriangles)
                            (GroupFilesFacts.selectedNames
                               settings (Model.physicalGroups (ExporterModel.model em)))
             with
             | [] => [emptyFile]
             | out => out
             end.
Proof.
  intros G em format files settings Hseparate Hremainder.
  destruct (GroupFilesFacts.cube_triangles settings) as (tris & Htris & Hlen).
  assert (Hempty : exists emptyFile,
             ExporterStl.emptyModelFile format = Ok emptyFile
             /\ ExportedFile.GetName emptyFile = "empty.stl")
    by (destruct format;
        [eexists; split; reflexivity
        |exists (ExportedFile.mk "empty.stl" (Some (replicate 80 Byte.x00 ++ le_split 4 0)));
         split; [vm_compute; reflexivity | reflexivity]]).
  destruct Hempty as (emptyFile & Hempty & Hname).
  exists tris, emptyFile. split; [exact Htris|]. split; [exact Hlen|].
  split; [exact Hempty|]. split; [exact Hname|].
  unfold ExporterStl.ExportPhysicalGroups. fold settings.
  rewrite Hremainder. rewrite (bool_decide_eq_false_2 _ Hseparate).
  rewrite (bool_decide_eq_true_2 (Some false = Some false) eq_refl).
  cbn [negb].
  change (imap pair ?l)
    with (imap (fun (i : nat) (group : PhysicalGroup.t) => (id i, group)) l).
  destruct (GroupFilesFacts.loop_separate
              em format
              (bool_decide (ExporterSettings.exportSelectedOnly settings = Some true))
              (default [] (ExporterSettings.selectedGroups settings)) tris
              (Model.physicalGroups (ExporterModel.GetModel em)) Htris id
              {| ExporterStl.loopFiles := files; ExporterStl.unifiedModel := None;
                 ExporterStl.groupsProcessed := 0 |})
    as (s' & -> & Hunified & Hfiles).
  rewrite bind_Ok, Hunified. cbn [ExporterStl.unifiedModel]. rewrite !bind_Ok.
  rewrite Hfiles. cbn [ExporterStl.loopFiles].
  unfold GroupFilesFacts.selectedNames, ExporterModel.GetModel.
  change (imap pair ?l)
    with (imap (fun (i : nat) (group : PhysicalGroup.t) => (id i, group)) l).
  destruct (files ++ _) as [|file out]; cbn [length Nat.eqb].
  - by rewrite Hempty.
  - reflexivity.
Qed.

Lemma ExportPhysicalGroups_separate_files_witness :
  let em := ExporterModel.mk Example.twoGroupModel Example.selectedWithoutRemainder in
  ExporterSettings.exportSeparateFiles (ExporterModel.settings em) <> Some false
  /\ ExporterSettings.exportRemainder (ExporterModel.settings em) = Some false
  /\ exists cubeTriangles,
       ExporterStl.ExportPhysicalGroups em Binary []
       = Ok [GroupFilesFacts.groupFile (H := IntGeometry.geometry) Binary cubeTriangles
                                       "Inlet";
             GroupFilesFacts.groupFile Binary cubeTriangles "Outlet"].
Proof.
  intros em.
  assert (Hseparate : ExporterSettings.exportSeparateFiles (ExporterModel.settings em)
                      <> Some false) by discriminate.
  assert (Hremainder : ExporterSettings.exportRemainder (ExporterModel.settings em)
                       = Some false) by reflexivity.
  split; [exact Hseparate|]. split; [exact Hremainder|].
  destruct (ExportPhysicalGroups_separate_files
              IntGeometry.geometry em Binary [] Hseparate Hremainder)
    as (cubeTriangles & emptyFile & _ & _ & _ & _ & Hexport).
  exists cubeTriangles. etrans; [exact Hexport|]. reflexivity.
Defined.
